(** * tidb-cloud-go: the request execution core

    A shallow embedding of the request execution core of the TiDB Cloud
    Go SDK, and the properties of it that its specification states:

    - [pkg/errors]  (module [Errors]): the classified API error and its
      predicates;
    - [pkg/retry]   (module [Retry]): the retry policy, the exponential
      backoff and the retry executor;
    - [pkg/auth]    (module [Auth]): HTTP Digest authentication, the
      challenge parser and the credential header;
    - [pkg/client]  (module [Client]): the two-phase dispatch of one
      request and the classification of error responses.

    Go values are modelled as follows.  An [int], [int64] or
    [time.Duration] is a [Z] in the 64-bit signed range ([int] has 64
    bits on the platforms the SDK is built for), arithmetic that can
    leave the range is wrapped explicitly with [wrap64].  A Go
    [string] is a [string] (a sequence of bytes), a [[]byte] is a
    [list byte].  A [map[string]T] is a [gmap string T].  A nil-able
    [error] is an [option error]. *)

From Stdlib Require Import ZArith Lia List Ascii String DecimalString.
From Stdlib.Strings Require Import Byte.
From stdpp Require Import gmap strings list.

Local Open Scope Z_scope.

(** ** Machine integers *)

(** Two's complement wrap-around of a 64-bit signed integer. *)
Definition wrap64 (z : Z) : Z := (z + 2 ^ 63) mod 2 ^ 64 - 2 ^ 63.

Definition MaxInt64 : Z := 2 ^ 63 - 1.
Definition MinInt64 : Z := - 2 ^ 63.

(** ** crypto/md5 and the verbs of fmt *)

(** The MD5 digest of RFC 1321, which [md5.New], [Write] and [Sum] of
    the Go standard library compute, on 32-bit words held in [Z]. *)
Module MD5.

Definition Z_of_byte (b : byte) : Z := Z.of_N (Byte.to_N b).

Definition byte_of_Z (z : Z) : byte :=
  default x00 (Byte.of_N (Z.to_N (z mod 256))).

Definition add32 (x y : Z) : Z := (x + y) mod 2 ^ 32.

Definition not32 (x : Z) : Z := Z.lxor x 0xffffffff.

Definition rotl32 (x n : Z) : Z :=
  Z.lor (Z.shiftl x n mod 2 ^ 32) (Z.shiftr x (32 - n)).

(** [floor (2^32 * abs (sin (i + 1)))] for [i = 0 .. 63]. *)
Definition K : list Z :=
  [ 0xd76aa478; 0xe8c7b756; 0x242070db; 0xc1bdceee;
    0xf57c0faf; 0x4787c62a; 0xa8304613; 0xfd469501;
    0x698098d8; 0x8b44f7af; 0xffff5bb1; 0x895cd7be;
    0x6b901122; 0xfd987193; 0xa679438e; 0x49b40821;
    0xf61e2562; 0xc040b340; 0x265e5a51; 0xe9b6c7aa;
    0xd62f105d; 0x02441453; 0xd8a1e681; 0xe7d3fbc8;
    0x21e1cde6; 0xc33707d6; 0xf4d50d87; 0x455a14ed;
    0xa9e3e905; 0xfcefa3f8; 0x676f02d9; 0x8d2a4c8a;
    0xfffa3942; 0x8771f681; 0x6d9d6122; 0xfde5380c;
    0xa4beea44; 0x4bdecfa9; 0xf6bb4b60; 0xbebfbc70;
    0x289b7ec6; 0xeaa127fa; 0xd4ef3085; 0x04881d05;
    0xd9d4d039; 0xe6db99e5; 0x1fa27cf8; 0xc4ac5665;
    0xf4292244; 0x432aff97; 0xab9423a7; 0xfc93a039;
    0x655b59c3; 0x8f0ccc92; 0xffeff47d; 0x85845dd1;
    0x6fa87e4f; 0xfe2ce6e0; 0xa3014314; 0x4e0811a1;
    0xf7537e82; 0xbd3af235; 0x2ad7d2bb; 0xeb86d391 ].

(** The rotation amounts of the four rounds. *)
Definition shifts : list Z :=
  [ 7; 12; 17; 22; 7; 12; 17; 22; 7; 12; 17; 22; 7; 12; 17; 22;
    5;  9; 14; 20; 5;  9; 14; 20; 5;  9; 14; 20; 5;  9; 14; 20;
    4; 11; 16; 23; 4; 11; 16; 23; 4; 11; 16; 23; 4; 11; 16; 23;
    6; 10; 15; 21; 6; 10; 15; 21; 6; 10; 15; 21; 6; 10; 15; 21 ].

Definition state : Type := (Z * Z * Z * Z)%type.

Definition init : state :=
  (0x67452301, 0xefcdab89, 0x98badcfe, 0x10325476).

(** Operation number [i] on the sixteen words [M] of a block. *)
Definition step (M : list Z) (st : state) (i : nat) : state :=
  let '(a, b, c, d) := st in
  let iz := Z.of_nat i in
  let '(f, g) :=
    if iz <? 16 then (Z.lor (Z.land b c) (Z.land (not32 b) d), iz)
    else if iz <? 32 then
      (Z.lor (Z.land d b) (Z.land (not32 d) c), (5 * iz + 1) mod 16)
    else if iz <? 48 then (Z.lxor b (Z.lxor c d), (3 * iz + 5) mod 16)
    else (Z.lxor c (Z.lor b (not32 d)), (7 * iz) mod 16) in
  let f' := add32 (add32 (add32 f a) (nth i K 0)) (nth (Z.to_nat g) M 0) in
  (d, add32 b (rotl32 f' (nth i shifts 0)), b, c).

Definition block (st : state) (M : list Z) : state :=
  let '(a0, b0, c0, d0) := st in
  let '(a, b, c, d) := fold_left (step M) (seq 0 64) st in
  (add32 a0 a, add32 b0 b, add32 c0 c, add32 d0 d).

(** The message, the byte [0x80], zero bytes up to 56 modulo 64, and
    the length of the message in bits as 8 little-endian bytes. *)
Definition le_bytes (n : nat) (z : Z) : list Z :=
  map (fun i => Z.shiftr z (8 * Z.of_nat i) mod 256) (seq 0 n).

Definition pad (msg : list Z) : list Z :=
  let len := Z.of_nat (length msg) in
  let zeros := Z.to_nat ((55 - len) mod 64) in
  msg ++ [0x80] ++ repeat 0 zeros ++ le_bytes 8 ((8 * len) mod 2 ^ 64).

(** Little-endian 32-bit words, four bytes each. *)
Fixpoint words (bs : list Z) : list Z :=
  match bs with
  | b0 :: b1 :: b2 :: b3 :: rest =>
      (b0 + 2 ^ 8 * b1 + 2 ^ 16 * b2 + 2 ^ 24 * b3) :: words rest
  | _ => []
  end.

(** The blocks of sixteen words; [n] is the number of blocks. *)
Fixpoint blocks (n : nat) (ws : list Z) : list (list Z) :=
  match n with
  | O => []
  | S n' => firstn 16 ws :: blocks n' (skipn 16 ws)
  end.

Definition Sum (msg : list byte) : list byte :=
  let ws := words (pad (map Z_of_byte msg)) in
  let '(a, b, c, d) := fold_left block (blocks (length ws / 16) ws) init in
  map byte_of_Z (le_bytes 4 a ++ le_bytes 4 b ++ le_bytes 4 c ++ le_bytes 4 d).

End MD5.

(** The formatting verbs of [fmt] that the package uses. *)
Module Fmt.

(** The digit table of [%x]: lowercase. *)
Definition hex_digit (n : Z) : ascii :=
  default "0"%char (String.get (Z.to_nat n) "0123456789abcdef").

(** [%x] of a byte slice: two digits for every byte. *)
Fixpoint hex_bytes (bs : list byte) : string :=
  match bs with
  | [] => ""
  | b :: rest =>
      let z := MD5.Z_of_byte b in
      String (hex_digit (z / 16)) (String (hex_digit (z mod 16)) (hex_bytes rest))
  end.

(** The hexadecimal digits of [u >= 0], most significant first, in
    front of [acc]: at least one digit and at most [fuel + 1], which
    is 16 digits for a 64-bit value. *)
Fixpoint hex_digits (fuel : nat) (u : Z) (acc : string) : string :=
  let acc' := String (hex_digit (u mod 16)) acc in
  match fuel with
  | O => acc'
  | S fuel' => if u / 16 =? 0 then acc' else hex_digits fuel' (u / 16) acc'
  end.

Fixpoint zeros (n : nat) : string :=
  match n with
  | O => EmptyString
  | S n' => String "0" (zeros n')
  end.

(** Zeros in front, up to [width] characters. *)
Definition zero_pad (width : nat) (s : string) : string :=
  zeros (width - String.length s) +:+ s.

(** [%08x] of an [int]: zero padding to width 8; for a negative
    number the sign takes one of the 8 places. *)
Definition Sprintf_08x (n : Z) : string :=
  if n <? 0 then "-" +:+ zero_pad 7 (hex_digits 15 (- n) "")
  else zero_pad 8 (hex_digits 15 n "").

(** [%d] of an integer. *)
Definition Sprintf_d (z : Z) : string := NilZero.string_of_int (Z.to_int z).

End Fmt.

(** ** pkg/errors *)

Module Errors.

(** An element of [Details []interface{}]: a value decoded from the
    JSON error body (kept as its JSON text), or one of the values the
    client itself puts there. *)
#[warnings="-register-all"]
Inductive any : Type :=
| AnyJSON (raw : string)
| AnyInt64 (n : Z)
| AnyMap (entries : list (string * any)).

Record APIError : Type := mkAPIError {
  StatusCode : Z;
  Code : Z;
  Message : string;
  Details : list any
}.

(** A non-nil value of Go's [error] interface, as far as the core
    distinguishes them: the type assertion [err.(errors.APIError)]
    succeeds exactly on [APIErr]; every other dynamic type (transport
    errors, wrapped errors, context errors) is an [OtherErr] carrying
    its message. *)
Inductive error : Type :=
| APIErr (e : APIError)
| OtherErr (msg : string).

Definition StatusBadRequest : Z := 400.
Definition StatusUnauthorized : Z := 401.
Definition StatusForbidden : Z := 403.
Definition StatusNotFound : Z := 404.
Definition StatusTooManyRequests : Z := 429.
Definition StatusInternalServerError : Z := 500.
Definition StatusBadGateway : Z := 502.
Definition StatusServiceUnavailable : Z := 503.
Definition StatusGatewayTimeout : Z := 504.

(** The method [Error] of [APIError]. *)
Definition APIError_Error (e : APIError) : string :=
  "TiDB Cloud API error (" +:+ Fmt.Sprintf_d (StatusCode e) +:+ "): "
  +:+ Message e +:+ " (code: " +:+ Fmt.Sprintf_d (Code e) +:+ ")".

(** [err.Error()] *)
Definition Error (err : error) : string :=
  match err with
  | APIErr e => APIError_Error e
  | OtherErr msg => msg
  end.

(** [fmt.Errorf] with a format that is [prefix] followed by [%w]: an
    error of another dynamic type that wraps [err]. *)
Definition Errorf_w (prefix : string) (err : error) : error :=
  OtherErr (prefix +:+ Error err).

Definition IsRateLimitError (e : APIError) : bool :=
  (StatusCode e =? StatusTooManyRequests) && (Code e =? 49900007).

Definition IsRetryable (e : APIError) : bool :=
  if StatusCode e =? StatusTooManyRequests then true
  else if StatusCode e =? StatusInternalServerError then true
  else if StatusCode e =? StatusBadGateway then true
  else if StatusCode e =? StatusServiceUnavailable then true
  else if StatusCode e =? StatusGatewayTimeout then true
  else false.

Definition IsAuthenticationError (e : APIError) : bool :=
  StatusCode e =? StatusUnauthorized.

Definition IsAuthorizationError (e : APIError) : bool :=
  StatusCode e =? StatusForbidden.

Definition IsNotFoundError (e : APIError) : bool :=
  StatusCode e =? StatusNotFound.

Definition IsBadRequestError (e : APIError) : bool :=
  StatusCode e =? StatusBadRequest.

End Errors.

(** ** pkg/retry *)

Module Retry.
Import Errors.

(** [time.Duration]: a count of nanoseconds in an [int64]. *)
Definition Duration : Type := Z.
Definition Second : Duration := 1000000000.

Record RetryPolicy : Type := mkRetryPolicy {
  MaxAttempts : Z;
  BaseDelay : Duration;
  MaxDelay : Duration
}.

Definition NewRetryPolicy : RetryPolicy :=
  {| MaxAttempts := 3; BaseDelay := 1 * Second; MaxDelay := 30 * Second |}.

Definition ShouldRetry (p : RetryPolicy) (err : error) (attempt : Z) : bool :=
  if attempt >=? MaxAttempts p then false
  else match err with
       | APIErr apiErr => IsRetryable apiErr
       | OtherErr _ => true
       end.

(** The caller's [context.Context] as [Execute] observes it: which
    case of the [select] is taken at the wait that follows attempt
    number [attempt] (with the delay it waits for), and the error
    [ctx.Err()] reports once [ctx.Done()] has fired. *)
Record Context : Type := mkContext {
  ctx_Done_first : Z -> Duration -> bool;
  ctx_Err : error
}.

(** [context.Background()] is never cancelled. *)
Definition Background : Context :=
  {| ctx_Done_first := fun _ _ => false;
     ctx_Err := OtherErr "context canceled" |}.

Section WithPlatform.

(** The value that the conversion of a [float64] outside the
    [int64] range to [int64] gives.  The Go specification leaves it
    to the implementation; it only matters for [attempt - 1 >= 63]. *)
Variable float64_to_int64_overflow : Z.

(** [time.Duration(math.Pow(2, float64(k)))].  For [0 <= k <= 62]
    the power is an exact [float64] and an exact [int64]; for
    [k < 0] the power is at most one half and the conversion
    truncates it to [0]. *)
Definition pow2_Duration (k : Z) : Duration :=
  if k <? 0 then 0
  else if k <=? 62 then 2 ^ k
  else float64_to_int64_overflow.

Definition CalculateDelay (p : RetryPolicy) (attempt : Z) : Duration :=
  let delay := wrap64 (pow2_Duration (wrap64 (attempt - 1)) * BaseDelay p) in
  if delay >? MaxDelay p then MaxDelay p else delay.

Section Executor.

(** The state that the operation closure reads and writes. *)
Context {St : Type}.

(** [operation func() error]: one call, from a state, gives the
    returned error ([None] is [nil]) and the state after it. *)
Definition Operation : Type := St -> option error * St.

(** The [for] loop of [Execute], started at the loop test with
    the current values of [attempt] and [lastErr].  [attempt++]
    never overflows: it is reached only after [ShouldRetry] was
    true, thus with [attempt < MaxAttempts].  Every iteration
    uses one unit of [fuel]; [None] means the fuel ran out. *)
Fixpoint Execute_loop (p : RetryPolicy) (ctx : Context) (operation : Operation)
    (fuel : nat) (attempt : Z) (lastErr : option error) (s : St)
    : option (option error * St) :=
  match fuel with
  | O => None
  | S fuel' =>
      if attempt <=? MaxAttempts p then
        let (r, s') := operation s in
        match r with
        | None => Some (None, s')
        | Some err =>
            (* lastErr = err; a break leaves the loop and returns it *)
            if negb (ShouldRetry p err attempt) then Some (Some err, s')
            else
              let delay := CalculateDelay p (attempt + 1) in
              if ctx_Done_first ctx attempt delay
              then Some (Some (ctx_Err ctx), s')
              else Execute_loop p ctx operation fuel' (attempt + 1) (Some err) s'
        end
      else Some (lastErr, s)
  end.

(** The loop test holds for [attempt = 0 .. MaxAttempts], and is
    evaluated once more to leave the loop. *)
Definition Execute_fuel (p : RetryPolicy) : nat :=
  S (Z.to_nat (MaxAttempts p + 1)).

Definition Execute (p : RetryPolicy) (ctx : Context) (operation : Operation)
    (s : St) : option (option error * St) :=
  Execute_loop p ctx operation (Execute_fuel p) 0 None s.

(** The state after [n] calls of the operation. *)
Fixpoint after_calls (operation : Operation) (n : nat) (s : St) : St :=
  match n with
  | O => s
  | S n' => snd (operation (after_calls operation n' s))
  end.

(** What the call number [n] (counted from [0]) returns. *)
Definition nth_result (operation : Operation) (n : nat) (s : St) : option error :=
  fst (operation (after_calls operation n s)).

(** The instrumentation of the package's tests: the operation
    increments a call counter ([callCount++]) and then does what
    [operation] does. *)
Definition counted (operation : Operation) : St * nat -> option error * (St * nat) :=
  fun '(s, callCount) =>
    let (r, s') := operation s in (r, (s', S callCount)).

End Executor.

End WithPlatform.

(** An error that the retry policy retries while the budget lasts. *)
Definition retryable (err : error) : bool :=
  match err with
  | APIErr apiErr => IsRetryable apiErr
  | OtherErr _ => true
  end.

End Retry.

(** ** pkg/auth *)

Module Auth.
Import Errors.

Record DigestAuth : Type := mkDigestAuth {
  realm : string;
  nonce : string;
  qop : string;
  opaque : string;
  algorithm : string;
  nc : Z;
  cnonce : string
}.

Definition NewDigestAuth : DigestAuth :=
  {| realm := ""; nonce := ""; qop := ""; opaque := ""; algorithm := "";
     nc := 1; cnonce := "" |}.

(** *** The regular expression of [parseKeyValuePairs]

    The expression is a word [\w+] (group 1), the sign [=], and then
    one of two alternatives: a double quote, any characters but
    double quotes (group 2) and a double quote; or a token [[^,\s]+]
    of characters that are neither commas nor white space (group 3).
    It is matched the way Go's [regexp] does: the leftmost match, and
    among the matches that start there the one a backtracking search
    finds first (greedy repetitions, the first alternative before
    the second).  All the characters that the expression names are
    ASCII, so the match can be followed byte by byte. *)

(** The double quote character. *)
Definition dquote : ascii := ascii_of_nat 34.

(** The class [\w]: [0-9A-Za-z_]. *)
Definition is_word (c : ascii) : bool :=
  let n := nat_of_ascii c in
  ((48 <=? n) && (n <=? 57) || (65 <=? n) && (n <=? 90)
   || (97 <=? n) && (n <=? 122) || (n =? 95))%nat.

(** The class [\s]: tab, line feed, form feed, carriage return, space. *)
Definition is_space (c : ascii) : bool :=
  let n := nat_of_ascii c in
  ((n =? 9) || (n =? 10) || (n =? 12) || (n =? 13) || (n =? 32))%nat.

(** The class of all characters but the double quote. *)
Definition not_dquote (c : ascii) : bool := negb (Ascii.eqb c dquote).

(** The class [[^,\s]]. *)
Definition not_comma_space (c : ascii) : bool :=
  negb (Ascii.eqb c ","%char) && negb (is_space c).

(** The longest prefix of characters of a class, and the rest: a
    greedy repetition of the class. *)
Fixpoint span (f : ascii -> bool) (s : string) : string * string :=
  match s with
  | String c s' =>
      if f c then let (a, b) := span f s' in (String c a, b) else (EmptyString, s)
  | EmptyString => (EmptyString, EmptyString)
  end.

(** The groups of one match: [match[1]], [match[2]], [match[3]]; a
    group that took no part in the match is the empty string. *)
Record submatch : Type := mkSubmatch {
  group1 : string;
  group2 : string;
  group3 : string
}.

(** The first alternative at the start of [s]: the text between the
    quotes and what follows the closing quote.  The repetition cannot
    run over a quote, so the closing quote is the next one: the run of
    other characters ends at a quote or at the end of the text, and
    at the end of the text the alternative fails. *)
Definition match_quoted (s : string) : option (string * string) :=
  match s with
  | String c s1 =>
      if Ascii.eqb c dquote then
        let (q, s2) := span not_dquote s1 in
        match s2 with
        | String _ rest => Some (q, rest)
        | EmptyString => None
        end
      else None
  | EmptyString => None
  end.

(** A match of the whole expression that starts at the start of [s],
    and what follows the match.  [\w+] must take the whole run of
    word characters, for [=] is not one of them. *)
Definition match_here (s : string) : option (submatch * string) :=
  let (key, s1) := span is_word s in
  if String.eqb key "" then None
  else
    match s1 with
    | String c s2 =>
        if Ascii.eqb c "="%char then
          match match_quoted s2 with
          | Some (q, rest) => Some (mkSubmatch key q "", rest)
          | None =>
              let (v, rest) := span not_comma_space s2 in
              if String.eqb v "" then None
              else Some (mkSubmatch key "" v, rest)
          end
        else None
    | EmptyString => None
    end.

(** [re.FindAllStringSubmatch(data, -1)]: the successive matches,
    each searched from the end of the one before.  A match is never
    empty, so every step shortens the text: [fuel] need not exceed
    its length. *)
Fixpoint find_all (fuel : nat) (s : string) : list submatch :=
  match fuel with
  | O => []
  | S fuel' =>
      match s with
      | EmptyString => []
      | String _ s' =>
          match match_here s with
          | Some (m, rest) => m :: find_all fuel' rest
          | None => find_all fuel' s'
          end
      end
  end.

Definition FindAllStringSubmatch (data : string) : list submatch :=
  find_all (String.length data) data.

Definition parseKeyValuePairs (data : string) : gmap string string :=
  fold_left
    (fun (pairs : gmap string string) (m : submatch) =>
       let key := group1 m in
       let value := group2 m in
       let value := if String.eqb value "" then group3 m else value in
       <[key := value]> pairs)
    (FindAllStringSubmatch data) ∅.

(** [pairs[key]]: the zero value for a key that is not in the map. *)
Definition index (pairs : gmap string string) (key : string) : string :=
  default EmptyString (pairs !! key).

(** [s] without the prefix [pre], if it has it. *)
Fixpoint strip_prefix (pre s : string) : option string :=
  match pre, s with
  | EmptyString, _ => Some s
  | String a pre', String b s' =>
      if Ascii.eqb a b then strip_prefix pre' s' else None
  | String _ _, EmptyString => None
  end.

Definition HasPrefix (s pre : string) : bool :=
  match strip_prefix pre s with Some _ => true | None => false end.

Definition TrimPrefix (s pre : string) : string :=
  default s (strip_prefix pre s).

(** [generateCnonce]; [b] is the 16 bytes that [rand.Read] gave. *)
Definition generateCnonce (b : list byte) : string := Fmt.hex_bytes b.

(** [ParseChallenge], with the stored state before and after
    explicit; [random] is what [rand.Read] gives if it is called. *)
Definition ParseChallenge (random : list byte) (d : DigestAuth)
    (authHeader : string) : DigestAuth * option error :=
  if String.eqb authHeader "" then (d, Some (OtherErr "empty auth header"))
  else if negb (HasPrefix authHeader "Digest ") then
    (d, Some (OtherErr "not a digest auth header"))
  else
    let challengeData := TrimPrefix authHeader "Digest " in
    let pairs := parseKeyValuePairs challengeData in
    let d := {| realm := index pairs "realm";
                nonce := index pairs "nonce";
                qop := index pairs "qop";
                opaque := index pairs "opaque";
                algorithm := index pairs "algorithm";
                nc := nc d; cnonce := cnonce d |} in
    let d := if String.eqb (algorithm d) ""
             then {| realm := realm d; nonce := nonce d; qop := qop d;
                     opaque := opaque d; algorithm := "MD5";
                     nc := nc d; cnonce := cnonce d |}
             else d in
    if String.eqb (realm d) "" then
      (d, Some (OtherErr "missing realm in digest challenge"))
    else if String.eqb (nonce d) "" then
      (d, Some (OtherErr "missing nonce in digest challenge"))
    else
      ({| realm := realm d; nonce := nonce d; qop := qop d;
          opaque := opaque d; algorithm := algorithm d;
          nc := nc d; cnonce := generateCnonce random |}, None).

(** [h := md5.New(); h.Write([]byte(s))] and then [%x] of
    [h.Sum(nil)]. *)
Definition md5hex (s : string) : string :=
  Fmt.hex_bytes (MD5.Sum (list_byte_of_string s)).

Definition generateHA1 (d : DigestAuth) (username password : string) : string :=
  md5hex (username +:+ ":" +:+ realm d +:+ ":" +:+ password).

Definition generateHA2 (method uri : string) : string :=
  md5hex (method +:+ ":" +:+ uri).

Definition generateResponseWithQop (d : DigestAuth) (ha1 ha2 : string) : string :=
  md5hex (ha1 +:+ ":" +:+ nonce d +:+ ":" +:+ Fmt.Sprintf_08x (nc d) +:+ ":"
          +:+ cnonce d +:+ ":" +:+ qop d +:+ ":" +:+ ha2).

Definition generateResponseWithoutQop (d : DigestAuth) (ha1 ha2 : string) : string :=
  md5hex (ha1 +:+ ":" +:+ nonce d +:+ ":" +:+ ha2).

(** [s] between double quotes. *)
Definition quoted (s : string) : string :=
  String dquote (s +:+ String dquote EmptyString).

Definition GenerateAuthHeader (d : DigestAuth)
    (username password method uri : string) : string :=
  if String.eqb (nonce d) "" then ""
  else
    let ha1 := generateHA1 d username password in
    let ha2 := generateHA2 method uri in
    let response :=
      if String.eqb (qop d) "auth" then generateResponseWithQop d ha1 ha2
      else generateResponseWithoutQop d ha1 ha2 in
    let authHeader :=
      "Digest " +:+ ("username=" +:+ quoted username)
      +:+ (", realm=" +:+ quoted (realm d))
      +:+ (", nonce=" +:+ quoted (nonce d))
      +:+ (", uri=" +:+ quoted uri)
      +:+ (", response=" +:+ quoted response) in
    let authHeader :=
      if negb (String.eqb (qop d) "") then
        authHeader +:+ (", qop=" +:+ qop d)
        +:+ (", nc=" +:+ Fmt.Sprintf_08x (nc d))
        +:+ (", cnonce=" +:+ quoted (cnonce d))
      else authHeader in
    let authHeader :=
      if negb (String.eqb (opaque d) "") then
        authHeader +:+ (", opaque=" +:+ quoted (opaque d))
      else authHeader in
    let authHeader :=
      if negb (String.eqb (algorithm d) "") then
        authHeader +:+ (", algorithm=" +:+ algorithm d)
      else authHeader in
    authHeader.

End Auth.

(** ** strconv and net/http, as far as the client uses them *)

Module Strconv.

Definition is_digit (c : ascii) : bool :=
  let n := nat_of_ascii c in ((48 <=? n) && (n <=? 57))%nat.

(** The value of a run of decimal digits; [None] if another
    character occurs. *)
Fixpoint digits_value (s : string) (acc : Z) : option Z :=
  match s with
  | EmptyString => Some acc
  | String c s' =>
      if is_digit c
      then digits_value s' (10 * acc + (Z.of_nat (nat_of_ascii c) - 48))
      else None
  end.

(** [strconv.ParseInt(s, 10, 64)]; [None] stands for a returned
    error: a syntax error for an empty text, a sign alone or a
    character that is not a digit, a range error for a value outside
    [int64]. *)
Definition ParseInt_10_64 (s : string) : option Z :=
  match s with
  | EmptyString => None
  | String c s' =>
      let '(neg, s0) :=
        if Ascii.eqb c "+"%char then (false, s')
        else if Ascii.eqb c "-"%char then (true, s')
        else (false, s) in
      match s0 with
      | EmptyString => None
      | String _ _ =>
          match digits_value s0 0 with
          | None => None
          | Some un =>
              if negb neg && (2 ^ 63 <=? un) then None
              else if neg && (2 ^ 63 <? un) then None
              else Some (if neg then - un else un)
          end
      end
  end.

End Strconv.

Module HTTP.

(** [http.Header]: the values of every key, keys in canonical form. *)
Definition Header : Type := gmap string (list string).

(** The bytes allowed in a header field name (the token characters
    of RFC 7230). *)
Definition validHeaderFieldByte (c : ascii) : bool :=
  let n := nat_of_ascii c in
  ((48 <=? n) && (n <=? 57) || (65 <=? n) && (n <=? 90)
   || (97 <=? n) && (n <=? 122)
   || existsb (Nat.eqb n) [33; 35; 36; 37; 38; 39; 42; 43; 45; 46; 94; 95; 96; 124; 126])%nat.

Definition toUpper (c : ascii) : ascii :=
  let n := nat_of_ascii c in
  if ((97 <=? n) && (n <=? 122))%nat then ascii_of_nat (n - 32) else c.

Definition toLower (c : ascii) : ascii :=
  let n := nat_of_ascii c in
  if ((65 <=? n) && (n <=? 90))%nat then ascii_of_nat (n + 32) else c.

Fixpoint canonical (upper : bool) (s : string) : string :=
  match s with
  | EmptyString => EmptyString
  | String c s' =>
      String (if upper then toUpper c else toLower c)
             (canonical (Ascii.eqb c "-"%char) s')
  end.

Fixpoint all_valid (s : string) : bool :=
  match s with
  | EmptyString => true
  | String c s' => validHeaderFieldByte c && all_valid s'
  end.

(** [textproto.CanonicalMIMEHeaderKey]: the first letter and every
    letter after a hyphen in upper case, the others in lower case; a
    key with a byte that is not allowed is left as it is. *)
Definition CanonicalMIMEHeaderKey (s : string) : string :=
  if all_valid s then canonical true s else s.

(** [h.Get(key)]: the first value of the key, or the empty string. *)
Definition Get (h : Header) (key : string) : string :=
  match h !! CanonicalMIMEHeaderKey key with
  | Some (v :: _) => v
  | _ => EmptyString
  end.

(** [h.Set(key, value)] *)
Definition Set_ (h : Header) (key value : string) : Header :=
  <[CanonicalMIMEHeaderKey key := [value]]> h.

(** A request as the transport sees it.  [URL] is the text of the
    URL ([req.URL.String()]); [Body] is the content that the body
    stream yields, [None] for a nil body. *)
Record Request : Type := mkRequest {
  Method : string;
  URL : string;
  ReqHeader : Header;
  Body : option string
}.

Record Response : Type := mkResponse {
  StatusCode : Z;
  RespHeader : Header;
  RespBody : string
}.

End HTTP.

(** ** pkg/client *)

Module Client.
Import Errors Auth HTTP.

(** The fields of [Client] that the dispatch of a request reads; the
    stored [DigestAuth] is threaded through the functions. *)
Record Client : Type := mkClient {
  publicKey : string;
  privateKey : string
}.

(** [models.ErrorResponse] *)
Record ErrorResponse : Type := mkErrorResponse {
  ErrCode : option Z;
  ErrMessage : option string;
  ErrDetails : list any
}.

(** The method of a request that [http.NewRequest] builds: an empty
    method stands for [GET]. *)
Definition method_or_GET (method : string) : string :=
  if String.eqb method "" then "GET" else method.

Section WithTransport.

(** The state of the network and of the server. *)
Context {World : Type}.

(** [c.httpClient.Do]: the response or the transport error, and
    the world after the exchange. *)
Variable Do : Request -> World -> (Response + error) * World.

(** The path component of a URL ([req.URL.Path]). *)
Variable url_Path : string -> string.

(** The error of [http.NewRequest] for a method and a URL, if it
    rejects them. *)
Variable NewRequest_error : string -> string -> option error.

(** [http.NewRequest] writes [GET] for an empty method, before it
    validates the method and parses the URL. *)
Definition NewRequest (method url : string) (body : option string)
    : Request + error :=
  let method := method_or_GET method in
  match NewRequest_error method url with
  | Some err => inr err
  | None => inl {| Method := method; URL := url; ReqHeader := ∅; Body := body |}
  end.

(** [executeHTTPRequest]: the stored authentication state and the
    world are passed in and out; [random] is what [rand.Read] gives
    if a challenge is parsed. *)
Definition executeHTTPRequest (c : Client) (random : list byte)
    (req : Request) (st : DigestAuth * World)
    : (Response + error) * (DigestAuth * World) :=
  let '(d, w) := st in
  (* the body is read whole and put back *)
  let bodyBytes := Body req in
  let req := {| Method := Method req; URL := URL req;
                ReqHeader := ReqHeader req; Body := bodyBytes |} in
  (* first attempt without auth *)
  let '(r, w) := Do req w in
  match r with
  | inr err => (inr err, (d, w))
  | inl resp =>
      if StatusCode resp =? StatusUnauthorized then
        let authHeader := Get (RespHeader resp) "WWW-Authenticate" in
        if negb (String.eqb authHeader "") then
          let '(d, perr) := ParseChallenge random d authHeader in
          match perr with
          | Some err =>
              (inr (Errorf_w "failed to parse auth challenge: " err), (d, w))
          | None =>
              let newBody := bodyBytes in
              match NewRequest (Method req) (URL req) newBody with
              | inr err =>
                  (inr (Errorf_w "failed to create auth request: " err), (d, w))
              | inl newReq =>
                  (* every header of the original request is copied *)
                  let header := ReqHeader req ∪ ReqHeader newReq in
                  let authValue :=
                    GenerateAuthHeader d (publicKey c) (privateKey c)
                      (Method req) (url_Path (URL req)) in
                  let newReq :=
                    {| Method := Method newReq; URL := URL newReq;
                       ReqHeader := Set_ header "Authorization" authValue;
                       Body := Body newReq |} in
                  let '(r2, w) := Do newReq w in
                  (r2, (d, w))
              end
          end
        else (inl resp, (d, w))
      else (inl resp, (d, w))
  end.

End WithTransport.

Section WithDecoder.

(** [json.NewDecoder(resp.Body).Decode(&errorResp)]; [None] when
    it returns an error. *)
Variable decodeErrorResponse : string -> option ErrorResponse.

(** [http.StatusText] *)
Variable StatusText : Z -> string.

Definition parseAPIError (resp : Response) : APIError :=
  let apiError :=
    match decodeErrorResponse (RespBody resp) with
    | Some errorResp =>
        {| Errors.StatusCode := StatusCode resp;
           Code := default 0 (ErrCode errorResp);
           Message := default EmptyString (ErrMessage errorResp);
           Details := ErrDetails errorResp |}
    | None =>
        {| Errors.StatusCode := StatusCode resp;
           Code := 0;
           Message := StatusText (StatusCode resp);
           Details := [] |}
    end in
  if StatusCode resp =? StatusTooManyRequests then
    let resetHeader := Get (RespHeader resp) "X-Ratelimit-Reset" in
    if negb (String.eqb resetHeader "") then
      match Strconv.ParseInt_10_64 resetHeader with
      | Some resetTime =>
          {| Errors.StatusCode := Errors.StatusCode apiError;
             Code := Code apiError;
             Message := Message apiError;
             Details := Details apiError
                        ++ [AnyMap [("rate_limit_reset"%string, AnyInt64 resetTime)]] |}
      | None => apiError
      end
    else apiError
  else apiError.

End WithDecoder.

(** A transport that also keeps the list of the requests it was
    given, oldest first, as the test servers of the package do. *)
Definition recording {World : Type}
    (Do : Request -> World -> (Response + error) * World)
    : Request -> World * list Request -> (Response + error) * (World * list Request) :=
  fun req '(w, log) =>
    let '(r, w') := Do req w in (r, (w', log ++ [req])).

End Client.

(** ** The statements of the specification

    What the specification says in its own terms, to be compared with
    what the code computes. *)

Module Spec.
Import Auth.

(** [k] hexadecimal digits of [u], lowercase, most significant
    first, in front of [acc]. *)
Fixpoint fixed_hex (k : nat) (u : Z) (acc : string) : string :=
  match k with
  | O => acc
  | S k' => fixed_hex k' (u / 16) (String (Fmt.hex_digit (u mod 16)) acc)
  end.

(** The nonce counter formatted as 8 lowercase hex digits. *)
Definition nonceCountHex8 (n : Z) : string := fixed_hex 8 n "".

(** The response hash: with [H1 = hash(identity:realm:secret)] and
    [H2 = hash(method:uri)], it is
    [hash(H1:nonce:nonceCountHex8:clientNonce:qop:H2)] in the mode
    auth and [hash(H1:nonce:H2)] otherwise. *)
Definition response_hash (d : DigestAuth)
    (username password method uri : string) : string :=
  let H1 := md5hex (username +:+ ":" +:+ realm d +:+ ":" +:+ password) in
  let H2 := md5hex (method +:+ ":" +:+ uri) in
  if String.eqb (qop d) "auth" then
    md5hex (H1 +:+ ":" +:+ nonce d +:+ ":" +:+ nonceCountHex8 (nc d) +:+ ":"
            +:+ cnonce d +:+ ":" +:+ qop d +:+ ":" +:+ H2)
  else md5hex (H1 +:+ ":" +:+ nonce d +:+ ":" +:+ H2).

Definition is_lower_hex (c : ascii) : bool :=
  let n := nat_of_ascii c in
  ((48 <=? n) && (n <=? 57) || (97 <=? n) && (n <=? 102))%nat.

(** Every character of [s] is in the class [f]. *)
Fixpoint all_chars (f : ascii -> bool) (s : string) : bool :=
  match s with
  | EmptyString => true
  | String c s' => f c && all_chars f s'
  end.

(** The text [b] is empty or begins outside the class [f]: a run of
    the class that is followed by [b] ends there. *)
Definition stops (f : ascii -> bool) (b : string) : Prop :=
  match b with
  | EmptyString => True
  | String c _ => f c = false
  end.

(** *** Well-formed challenges

    A challenge is a list of parameters, [key="value"] or
    [key=value], each followed by a separator of commas and white
    space; only the last separator may be empty. *)
Inductive param : Type :=
| Quoted (key value : string)
| Bare (key value : string).

Definition param_key (p : param) : string :=
  match p with Quoted k _ | Bare k _ => k end.

Definition param_value (p : param) : string :=
  match p with Quoted _ v | Bare _ v => v end.

Definition is_key (k : string) : bool :=
  negb (String.eqb k "") && all_chars is_word k.

(** A quoted value has no double quote in it; a bare value is a
    non-empty token without commas and white space that does not
    begin with a double quote. *)
Definition param_ok (p : param) : bool :=
  match p with
  | Quoted k v => is_key k && all_chars not_dquote v
  | Bare k v =>
      is_key k && all_chars not_comma_space v
      && match v with
         | EmptyString => false
         | String c _ => not_dquote c
         end
  end.

Definition is_separator (sep : string) : bool :=
  all_chars (fun c => negb (not_comma_space c)) sep.

Fixpoint challenge_ok (l : list (param * string)) : bool :=
  match l with
  | [] => true
  | (p, sep) :: rest =>
      param_ok p && is_separator sep
      && match rest with
         | [] => true
         | _ :: _ => negb (String.eqb sep "")
         end
      && challenge_ok rest
  end.

Definition render_param (p : param) : string :=
  match p with
  | Quoted k v => k +:+ "=" +:+ quoted v
  | Bare k v => k +:+ "=" +:+ v
  end.

Fixpoint render (l : list (param * string)) : string :=
  match l with
  | [] => EmptyString
  | (p, sep) :: rest => render_param p +:+ sep +:+ render rest
  end.

(** The groups of the match of a parameter. *)
Definition submatch_of (p : param) : submatch :=
  match p with
  | Quoted k v => mkSubmatch k v ""
  | Bare k v => mkSubmatch k "" v
  end.

(** The stored state once the fields of a challenge have been
    assigned from the values [get] gives to the keys: the five fields
    of the challenge, the algorithm defaulted; counter and client nonce
    as they were. *)
Definition assigned (d : DigestAuth) (get : string -> string) : DigestAuth :=
  {| realm := get "realm";
     nonce := get "nonce";
     qop := get "qop";
     opaque := get "opaque";
     algorithm := if String.eqb (get "algorithm") "" then "MD5"
                  else get "algorithm";
     nc := nc d;
     cnonce := cnonce d |}.

Definition with_cnonce (d : DigestAuth) (c : string) : DigestAuth :=
  {| realm := realm d; nonce := nonce d; qop := qop d; opaque := opaque d;
     algorithm := algorithm d; nc := nc d; cnonce := c |}.

(** The states of the authenticator of a client: the one that
    [NewDigestAuth] makes, and the one that a call of [ParseChallenge]
    leaves, whether it succeeds or fails. *)
Inductive reachable : DigestAuth -> Prop :=
| reachable_new : reachable NewDigestAuth
| reachable_parse (random : list byte) (d : DigestAuth) (authHeader : string) :
    reachable d -> reachable (fst (ParseChallenge random d authHeader)).

(** The key-value pairs that a challenge presents. *)
Definition pairs_of (l : list (param * string)) : list (string * string) :=
  map (fun '(p, _) => (param_key p, param_value p)) l.



(** The states of an authenticator that has never been given a nonce:
    the one that [NewDigestAuth] makes, and the one that
    [ParseChallenge] leaves after a header that is empty, has no scheme
    prefix, or gives no nonce. *)
Inductive unchallenged : DigestAuth -> Prop :=
| unchallenged_new : unchallenged NewDigestAuth
| unchallenged_parse (random : list byte) (d : DigestAuth)
    (authHeader : string) :
    unchallenged d ->
    authHeader = EmptyString
    \/ HasPrefix authHeader "Digest " = false
    \/ index (parseKeyValuePairs (TrimPrefix authHeader "Digest ")) "nonce"
       = EmptyString ->
    unchallenged (fst (ParseChallenge random d authHeader)).

End Spec.

(** ** Test data *)

Module Examples.
Import Errors Retry Auth HTTP.

(** An operation that fails with the same error at every call, as
    the closures of the executor's tests do. *)
Definition always_fails (err : error) : @Operation unit :=
  fun s => (Some err, s).

Definition err500 : error :=
  APIErr {| Errors.StatusCode := 500; Code := 0; Message := ""; Details := [] |}.

Definition err400 : error :=
  APIErr {| Errors.StatusCode := 400; Code := 0; Message := ""; Details := [] |}.

(** A context that is cancelled during the wait after attempt [k]. *)
Definition cancelled_in_wait (k : Z) : Context :=
  {| ctx_Done_first := fun attempt _ => attempt =? k;
     ctx_Err := OtherErr "context canceled" |}.

(** The example of RFC 2617, section 3.5. *)
Definition rfc2617 : DigestAuth :=
  {| realm := "testrealm@host.com";
     nonce := "dcd98b7102dd2f0e8b11d0f600bfb0c093";
     qop := "auth";
     opaque := "5ccc069c403ebaf9f0171e9517f40e41";
     algorithm := "";
     nc := 1;
     cnonce := "0a4f113b" |}.

(** The challenge of the parser's test: realm, nonce, qop, opaque and
    algorithm, all quoted. *)
Definition test_challenge : list (Spec.param * string) :=
  [ (Spec.Quoted "realm" "tidbcloud", ", ");
    (Spec.Quoted "nonce" "dcd98b7102dd2f0e8b11d0f600bfb0c093", ", ");
    (Spec.Quoted "qop" "auth", ", ");
    (Spec.Quoted "opaque" "5ccc069c403ebaf9f0171e9517f40e41", ", ");
    (Spec.Quoted "algorithm" "MD5", "") ].

(** The state that a successful parse of [test_challenge] leaves. *)
Definition test_state : DigestAuth :=
  {| realm := "tidbcloud";
     nonce := "dcd98b7102dd2f0e8b11d0f600bfb0c093";
     qop := "auth";
     opaque := "5ccc069c403ebaf9f0171e9517f40e41";
     algorithm := "MD5";
     nc := 1;
     cnonce := "000102030405060708090a0b0c0d0e0f" |}.

Definition test_random : list byte :=
  [ x00; x01; x02; x03; x04; x05; x06; x07;
    x08; x09; x0a; x0b; x0c; x0d; x0e; x0f ].

(** The responses of the server of the client's tests, and the state
    that its challenge leaves. *)
Definition challenge_401 : Response :=
  {| StatusCode := 401;
     RespHeader :=
       Set_ ∅ "WWW-Authenticate"
         ("Digest realm=" +:+ quoted "tidbcloud" +:+ ", nonce="
          +:+ quoted "test123" +:+ ", qop=" +:+ quoted "auth");
     RespBody := "" |}.

Definition ok_200 : Response :=
  {| StatusCode := 200; RespHeader := ∅; RespBody := "{}" |}.

Definition handshake_state : DigestAuth :=
  {| realm := "tidbcloud"; nonce := "test123"; qop := "auth"; opaque := "";
     algorithm := "MD5"; nc := 1;
     cnonce := "000102030405060708090a0b0c0d0e0f" |}.

(** The server of the client's tests: 401 with a Digest challenge for a
    request without credentials, 200 otherwise. *)
Definition digest_server (req : Request) (w : unit)
    : (Response + error) * unit :=
  if String.eqb (Get (ReqHeader req) "Authorization") "" then
    (inl challenge_401, w)
  else (inl ok_200, w).

(** A server that asks for another scheme. *)
Definition basic_server (req : Request) (w : unit)
    : (Response + error) * unit :=
  (inl {| StatusCode := 401;
          RespHeader :=
            Set_ ∅ "WWW-Authenticate" ("Basic realm=" +:+ quoted "tidbcloud");
          RespBody := "" |}, w).

Definition test_client : Client.Client :=
  {| Client.publicKey := "test_public_key";
     Client.privateKey := "test_private_key" |}.

Definition list_projects : Request :=
  {| Method := "GET";
     URL := "https://api.tidbcloud.com/api/v1beta/projects";
     ReqHeader := ∅;
     Body := None |}.

Definition create_project : Request :=
  {| Method := "POST";
     URL := "https://api.tidbcloud.com/api/v1beta/projects";
     ReqHeader := Set_ ∅ "Content-Type" "application/json";
     Body := Some "{}" |}.

(** The path of the URLs above. *)
Definition projects_path (url : string) : string := "/api/v1beta/projects".

(** [http.NewRequest] accepts the methods and URLs above. *)
Definition accepts_all (method url : string) : option error := None.

(** The response of scenario C and the decoding of its body. *)
Definition rate_limited : Response :=
  {| StatusCode := 429;
     RespHeader := Set_ ∅ "X-Ratelimit-Reset" "1700000000";
     RespBody := "{...}" |}.

Definition decode_rate_limited (body : string) : option Client.ErrorResponse :=
  Some {| Client.ErrCode := Some 49900007;
          Client.ErrMessage := Some "rate limit exceeded";
          Client.ErrDetails := [] |}.


End Examples.

(** ** More operations and policies of the tests *)

Module Cases.
Import Errors Retry.

(** The operation of the test that succeeds on a later attempt: it
    counts its calls and fails with [err] for the first [k] of them. *)
Definition fails_first (k : nat) (err : error) : @Operation nat :=
  fun callCount => (if (callCount <? k)%nat then Some err else None, S callCount).

(** A policy with another budget and the delays of the default one. *)
Definition with_budget (n : Z) : RetryPolicy :=
  {| MaxAttempts := n; BaseDelay := 1 * Second; MaxDelay := 30 * Second |}.

Definition network_error : error := OtherErr "network error".

End Cases.

(** ** The parameters of the credential header *)

Module Credential.
Import Auth Spec.

(** The parameters that [GenerateAuthHeader] writes after the scheme,
    in order, for a given response hash. *)
Definition params (d : DigestAuth) (username uri response : string)
    : list param :=
  [ Quoted "username" username; Quoted "realm" (realm d);
    Quoted "nonce" (nonce d); Quoted "uri" uri; Quoted "response" response ]
  ++ (if negb (String.eqb (qop d) "")
      then [ Bare "qop" (qop d); Bare "nc" (Fmt.Sprintf_08x (nc d));
             Quoted "cnonce" (cnonce d) ]
      else [])
  ++ (if negb (String.eqb (opaque d) "")
      then [ Quoted "opaque" (opaque d) ] else [])
  ++ (if negb (String.eqb (algorithm d) "")
      then [ Bare "algorithm" (algorithm d) ] else []).

(** Parameters with a comma and a blank between them. *)
Fixpoint separated (ps : list param) : list (param * string) :=
  match ps with
  | [] => []
  | [p] => [(p, EmptyString)]
  | p :: rest => (p, ", "%string) :: separated rest
  end.

(** A text that can stand without quotes: empty, or a token without
    commas and white space that does not begin with a double quote. *)
Definition bare_or_empty (v : string) : bool :=
  match v with
  | EmptyString => true
  | String c _ => not_dquote c && all_chars not_comma_space v
  end.

(** The response hash as the code computes it. *)
Definition response (d : DigestAuth) (username password method uri : string)
    : string :=
  if String.eqb (qop d) "auth"
  then generateResponseWithQop d (generateHA1 d username password)
         (generateHA2 method uri)
  else generateResponseWithoutQop d (generateHA1 d username password)
         (generateHA2 method uri).

End Credential.

(** * The retried request and the project operations ([pkg/client/client.go]) *)

Module Requests.
Import Errors Retry Auth HTTP Client.

Definition DefaultBaseURL : string := "https://api.tidbcloud.com".
Definition APIVersion : string := "v1beta".

(** What the closure [operation] of [doRequestWithRetry] reads and
    writes: its captured variables [finalResp] and [finalErr], the
    authentication state of the client, the state of the network, and
    the number of calls made so far, which selects the bytes that
    [rand.Read] gives to a call. *)
Record Run {World : Type} : Type := mkRun {
  finalResp : option Response;
  finalErr : option error;
  digestAuth : DigestAuth;
  world : World;
  calls : nat
}.
Arguments Run : clear implicits.
Arguments mkRun {World}.

(** What a method that returns a pointer and an error does: it returns
    (a nil pointer is [None], a nil error is [None]), or it panics on a
    nil pointer dereference. *)
Inductive outcome (A : Type) : Type :=
| Returns (value : option A) (err : option error)
| Panics.
Arguments Returns {A}.
Arguments Panics {A}.

Section WithClient.

Variable float64_to_int64_overflow : Z.
Context {World : Type}.
Variable Do : Request -> World -> (Response + error) * World.
Variable url_Path : string -> string.
Variable NewRequest_error : string -> string -> option error.
Variable decodeErrorResponse : string -> option ErrorResponse.
Variable StatusText : Z -> string.

(** The bytes that [rand.Read] gives in the call number [n] of the
    operation. *)
Variable random : nat -> list byte.

(** [c.retryExecutor.policy] and [c.baseURL] *)
Variable policy : RetryPolicy.
Variable baseURL : string.

Variable c : Client.

(** The closure [operation] of [doRequestWithRetry].  The body of the
    request is restored before every call, so every call is given the
    request with its whole body. *)
Definition operation (req : Request) : @Operation (Run World) :=
  fun s =>
    let '(r, (d, w)) :=
      executeHTTPRequest Do url_Path NewRequest_error c (random (calls s)) req
        (digestAuth s, world s) in
    match r with
    | inr err =>
        (Some err,
         {| finalResp := finalResp s; finalErr := Some err;
            digestAuth := d; world := w; calls := S (calls s) |})
    | inl resp =>
        if StatusCode resp >=? 400 then
          let apiErr := parseAPIError decodeErrorResponse StatusText resp in
          (Some (APIErr apiErr),
           {| finalResp := finalResp s; finalErr := Some (APIErr apiErr);
              digestAuth := d; world := w; calls := S (calls s) |})
        else
          (None,
           {| finalResp := Some resp; finalErr := finalErr s;
              digestAuth := d; world := w; calls := S (calls s) |})
    end.

(** [doRequestWithRetry]: the response and the error it returns, and
    the authentication state and the network after it.  [None] only
    if the loop of [Execute] ran out of fuel, which it never does. *)
Definition doRequestWithRetry (ctx : Context) (req : Request)
    (st : DigestAuth * World)
    : option ((option Response * option error) * (DigestAuth * World)) :=
  let '(d, w) := st in
  match Execute float64_to_int64_overflow policy ctx (operation req)
          {| finalResp := None; finalErr := None;
             digestAuth := d; world := w; calls := 0 |} with
  | None => None
  | Some (Some _, s) => Some ((None, finalErr s), (digestAuth s, world s))
  | Some (None, s) => Some ((finalResp s, None), (digestAuth s, world s))
  end.

Definition doRequest (req : Request) (st : DigestAuth * World)
    : option ((option Response * option error) * (DigestAuth * World)) :=
  doRequestWithRetry Background req st.

Definition projects_url : string :=
  baseURL +:+ "/api/" +:+ APIVersion +:+ "/projects".

Section Operations.

(** The operations return the wrapped error of the request, an error
    for a status other than 200, or the decoded body.  A nil response
    with a nil error is dereferenced ([resp.Body]).
    [models.OpenapiListProjectsResp], [models.OpenapiCreateProjectReq]
    and [models.OpenapiCreateProjectResp], with the JSON codec of each. *)
Context {ListProjectsResp CreateProjectReq CreateProjectResp : Type}.
Variable decodeListProjectsResp : string -> ListProjectsResp + error.
Variable Marshal : CreateProjectReq -> string + error.
Variable decodeCreateProjectResp : string -> CreateProjectResp + error.

Definition ListProjects (st : DigestAuth * World)
    : option (outcome ListProjectsResp * (DigestAuth * World)) :=
  match NewRequest NewRequest_error "GET" projects_url None with
  | inr err =>
      Some (Returns None (Some (Errorf_w "failed to create request: " err)), st)
  | inl req =>
      match doRequest req st with
      | None => None
      | Some ((_, Some err), st') =>
          Some (Returns None
                  (Some (Errorf_w "failed to execute request: " err)), st')
      | Some ((None, None), st') =>
          (* resp.Body of a nil response *)
          Some (Panics, st')
      | Some ((Some resp, None), st') =>
          if negb (StatusCode resp =? 200) then
            Some (Returns None
                    (Some (OtherErr ("API request failed with status "
                                     +:+ Fmt.Sprintf_d (StatusCode resp)))),
                  st')
          else
            match decodeListProjectsResp (RespBody resp) with
            | inr err =>
                Some (Returns None
                        (Some (Errorf_w "failed to decode response: " err)),
                      st')
            | inl value => Some (Returns (Some value) None, st')
            end
      end
  end.

Definition CreateProject (req : option CreateProjectReq)
    (st : DigestAuth * World)
    : option (outcome CreateProjectResp * (DigestAuth * World)) :=
  match req with
  | None => Some (Returns None (Some (OtherErr "request is required")), st)
  | Some req =>
      match Marshal req with
      | inr err =>
          Some (Returns None (Some (Errorf_w "failed to marshal request: " err)),
                st)
      | inl reqBody =>
          match NewRequest NewRequest_error "POST" projects_url (Some reqBody) with
          | inr err =>
              Some (Returns None
                      (Some (Errorf_w "failed to create request: " err)), st)
          | inl httpReq =>
              (* the content type is set on the request *)
              let httpReq :=
                {| Method := Method httpReq; URL := URL httpReq;
                   ReqHeader :=
                     Set_ (ReqHeader httpReq) "Content-Type" "application/json";
                   Body := Body httpReq |} in
              match doRequest httpReq st with
              | None => None
              | Some ((_, Some err), st') =>
                  Some (Returns None
                          (Some (Errorf_w "failed to execute request: " err)),
                        st')
              | Some ((None, None), st') =>
                  (* resp.Body of a nil response *)
                  Some (Panics, st')
              | Some ((Some resp, None), st') =>
                  if negb (StatusCode resp =? 200) then
                    Some (Returns None
                            (Some (OtherErr
                                     ("API request failed with status "
                                      +:+ Fmt.Sprintf_d (StatusCode resp)))),
                          st')
                  else
                    match decodeCreateProjectResp (RespBody resp) with
                    | inr err =>
                        Some (Returns None
                                (Some (Errorf_w "failed to decode response: "
                                         err)), st')
                    | inl value => Some (Returns (Some value) None, st')
                    end
              end
          end
      end
  end.

End Operations.

End WithClient.

End Requests.

(** * Servers and answers for the retried request *)

Module Servers.
Import Errors Retry Auth HTTP Client.

(** An answer of the transport that the retry policy retries while the
    budget lasts: a response with one of the five retried statuses, or
    an error of the exchange that the policy retries. *)
Definition retryable_answer (r : Response + error) : bool :=
  match r with
  | inl resp =>
      existsb (Z.eqb (StatusCode resp)) [429; 500; 502; 503; 504]
  | inr err => retryable err
  end.

(** A server that answers every request with the same status and an
    empty body. *)
Definition always (status : Z) (req : Request) (w : unit)
    : (Response + error) * unit :=
  (inl {| StatusCode := status; RespHeader := ∅; RespBody := "" |}, w).

(** A server that does not accept the credentials: the challenge of
    the tests for every request, with or without [Authorization]. *)
Definition rejects (req : Request) (w : unit) : (Response + error) * unit :=
  (inl Examples.challenge_401, w).

(** A context whose [Done] channel fires during the wait that follows
    attempt number [k]. *)
Definition cancelled_at (k : Z) : Context :=
  {| ctx_Done_first := fun attempt _ => attempt =? k;
     ctx_Err := OtherErr "context canceled" |}.

(** No error body is decoded, and no status has a text. *)
Definition no_body (body : string) : option ErrorResponse := None.
Definition no_text (status : Z) : string := "".

(** The bytes of the tests' random source, for every call. *)
Definition test_random (n : nat) : list byte := Examples.test_random.

(** A codec that keeps the JSON text as it is. *)
Definition raw (text : string) : string + error := inl text.

(** The state of the network after the request [req] has been sent
    [n] times. *)
Fixpoint world_after {World : Type}
    (Do : Request -> World -> (Response + error) * World)
    (req : Request) (n : nat) (w : World) : World :=
  match n with
  | O => w
  | S n' => snd (Do req (world_after Do req n' w))
  end.

End Servers.

(** * Properties *)

(** ** pkg/errors and the retry policy *)

Section PolicyFacts.
Import Errors Retry.

Lemma IsRetryable_statuses (e : APIError) :
  IsRetryable e = true <-> StatusCode e ∈ [429; 500; 502; 503; 504].
Proof.
  unfold IsRetryable, StatusTooManyRequests, StatusInternalServerError,
    StatusBadGateway, StatusServiceUnavailable, StatusGatewayTimeout.
  rewrite !elem_of_cons, elem_of_nil.
  repeat match goal with
         | |- context [?a =? ?b] => destruct (Z.eqb_spec a b)
         end; split; intros H; try reflexivity; try discriminate; try lia;
    auto 10.
Qed.

Lemma ShouldRetry_budget_spent (p : RetryPolicy) (err : error) (attempt : Z) :
  MaxAttempts p <= attempt -> ShouldRetry p err attempt = false.
Proof.
  intros H. unfold ShouldRetry.
  destruct (Z.geb_spec attempt (MaxAttempts p)); [reflexivity | lia].
Qed.

Lemma ShouldRetry_within_budget (p : RetryPolicy) (err : error) (attempt : Z) :
  attempt < MaxAttempts p -> ShouldRetry p err attempt = retryable err.
Proof.
  intros H. unfold ShouldRetry, retryable.
  destruct (Z.geb_spec attempt (MaxAttempts p)); [lia | reflexivity].
Qed.

Lemma ShouldRetry_true_lt (p : RetryPolicy) (err : error) (attempt : Z) :
  ShouldRetry p err attempt = true -> attempt < MaxAttempts p.
Proof.
  unfold ShouldRetry.
  destruct (Z.geb_spec attempt (MaxAttempts p)); [discriminate | lia].
Qed.

(** C5.  [ShouldRetry] is false once the attempt number has reached
    [MaxAttempts]; before that it is true exactly for an error that
    is not an API error, and for an API error whose HTTP status is
    one of 429, 500, 502, 503, 504. *)
Theorem ShouldRetry_spec (p : RetryPolicy) (err : error) (attempt : Z) :
  (ShouldRetry p err attempt = true <->
     attempt < MaxAttempts p /\
     ((exists msg, err = OtherErr msg) \/
      (exists e, err = APIErr e /\ StatusCode e ∈ [429; 500; 502; 503; 504])))
  /\ (ShouldRetry p err attempt = false <->
     MaxAttempts p <= attempt \/
     (exists e, err = APIErr e /\ StatusCode e ∉ [429; 500; 502; 503; 504])).
Proof.
  destruct (Z.lt_ge_cases attempt (MaxAttempts p)) as [Hlt | Hge].
  - rewrite (ShouldRetry_within_budget _ _ _ Hlt).
    destruct err as [e | msg]; simpl.
    + pose proof (IsRetryable_statuses e) as Hs.
      split; split.
      * intros H. split; [exact Hlt |]. right. exists e. tauto.
      * intros [_ [[msg Hm] | [e' [He' Hin]]]]; [discriminate |].
        injection He' as <-. tauto.
      * intros H. right. exists e. split; [reflexivity |].
        intros Hin. apply Hs in Hin. congruence.
      * intros [Hle | [e' [He' Hnin]]]; [lia |].
        injection He' as <-.
        destruct (IsRetryable e); [| reflexivity].
        exfalso. apply Hnin. tauto.
    + split; split; try tauto.
      * intros _. split; [exact Hlt |]. left. eauto.
      * discriminate.
      * intros [Hle | [e' [He' _]]]; [lia | discriminate].
  - rewrite (ShouldRetry_budget_spent _ _ _ Hge).
    split; split; try discriminate; try tauto.
    intros [Hlt _]. lia.
Qed.

End PolicyFacts.

(** ** Exponential backoff *)

Section BackoffFacts.
Import Errors Retry.

Variable float64_to_int64_overflow : Z.

Local Abbreviation CalculateDelay :=
  (Retry.CalculateDelay float64_to_int64_overflow).

Lemma wrap64_in_range (z : Z) :
  MinInt64 <= z <= MaxInt64 -> wrap64 z = z.
Proof.
  unfold wrap64, MinInt64, MaxInt64. intros H.
  rewrite Z.mod_small; lia.
Qed.

(** The delay never exceeds the cap, whatever the attempt number. *)
Lemma CalculateDelay_le_MaxDelay (p : RetryPolicy) (attempt : Z) :
  CalculateDelay p attempt <= MaxDelay p.
Proof.
  unfold Retry.CalculateDelay.
  match goal with |- context [?a >? ?b] => destruct (Z.gtb_spec a b) end; lia.
Qed.

(** While the product fits an [int64], the delay is the documented
    [min(BaseDelay * 2^(attempt-1), MaxDelay)]. *)
Lemma CalculateDelay_formula (p : RetryPolicy) (attempt : Z) :
  1 <= attempt <= 63 ->
  0 <= BaseDelay p ->
  BaseDelay p * 2 ^ (attempt - 1) <= MaxInt64 ->
  CalculateDelay p attempt = Z.min (BaseDelay p * 2 ^ (attempt - 1)) (MaxDelay p).
Proof.
  intros Hn Hb Hfit. unfold Retry.CalculateDelay, pow2_Duration.
  rewrite (wrap64_in_range (attempt - 1)) by (unfold MinInt64, MaxInt64; lia).
  destruct (Z.ltb_spec (attempt - 1) 0); [lia |].
  destruct (Z.leb_spec (attempt - 1) 62); [| lia].
  assert (0 < 2 ^ (attempt - 1)) by (apply Z.pow_pos_nonneg; lia).
  rewrite wrap64_in_range by (unfold MinInt64, MaxInt64 in *; nia).
  rewrite (Z.mul_comm (2 ^ _)).
  match goal with |- context [?a >? ?b] => destruct (Z.gtb_spec a b) end; lia.
Qed.

(** C4.  With the default policy (base delay 1s, cap 30s) attempt 34
    is delayed by the cap, but for attempt 35 the product
    [2^34 * 10^9] leaves the [int64] range, wraps to a negative
    duration and passes the cap test: the delay is neither
    [min(BaseDelay * 2^(n-1), MaxDelay)] nor at least the delay of
    the attempt before. *)
Theorem CalculateDelay_wraps_at_35 :
  CalculateDelay NewRetryPolicy 34 = 30 * Second
  /\ CalculateDelay NewRetryPolicy 35 = -1266874889709551616
  /\ Z.min (BaseDelay NewRetryPolicy * 2 ^ (35 - 1)) (MaxDelay NewRetryPolicy)
     = 30 * Second
  /\ CalculateDelay NewRetryPolicy 35 < CalculateDelay NewRetryPolicy 34.
Proof. vm_compute. repeat split; reflexivity. Qed.

Example CalculateDelay_first_retry :
  CalculateDelay NewRetryPolicy 1 = 1 * Second.
Proof. reflexivity. Qed.

Example CalculateDelay_second_retry :
  CalculateDelay NewRetryPolicy 2 = 2 * Second.
Proof. reflexivity. Qed.

Example CalculateDelay_third_retry :
  CalculateDelay NewRetryPolicy 3 = 4 * Second.
Proof. reflexivity. Qed.

End BackoffFacts.

(** ** The retry executor *)

Section LoopFacts.
Import Errors Retry.

Variable float64_to_int64_overflow : Z.
Context {St : Type}.
Variables (p : RetryPolicy) (ctx : Context) (operation : @Operation St).

Local Abbreviation CalculateDelay :=
  (Retry.CalculateDelay float64_to_int64_overflow).
Local Abbreviation Execute_loop :=
  (Retry.Execute_loop float64_to_int64_overflow p ctx operation).

Lemma after_calls_shift (n : nat) (s : St) :
  after_calls operation n (snd (operation s)) = after_calls operation (S n) s.
Proof.
  induction n as [| n IH]; [reflexivity |].
  simpl in *. rewrite IH. reflexivity.
Qed.

Lemma nth_result_shift (n : nat) (s : St) :
  nth_result operation n (snd (operation s)) = nth_result operation (S n) s.
Proof. unfold nth_result. rewrite after_calls_shift. reflexivity. Qed.

(** One iteration that succeeds ends the loop with [nil]. *)
Lemma Execute_loop_success (fuel : nat) (attempt : Z)
    (lastErr : option error) (s : St) :
  attempt <= MaxAttempts p ->
  fst (operation s) = None ->
  Execute_loop (S fuel) attempt lastErr s = Some (None, snd (operation s)).
Proof.
  intros Hle Hop. simpl.
  destruct (Z.leb_spec attempt (MaxAttempts p)); [| lia].
  destruct (operation s) as [r s']. simpl in *. subst r. reflexivity.
Qed.

(** One iteration that fails, is retried and waits out its delay. *)
Lemma Execute_loop_retry (fuel : nat) (attempt : Z)
    (lastErr : option error) (s : St) (err : error) :
  fst (operation s) = Some err ->
  ShouldRetry p err attempt = true ->
  ctx_Done_first ctx attempt (CalculateDelay p (attempt + 1)) = false ->
  Execute_loop (S fuel) attempt lastErr s
  = Execute_loop fuel (attempt + 1) (Some err) (snd (operation s)).
Proof.
  intros Hop Hretry Hwait. simpl.
  pose proof (ShouldRetry_true_lt _ _ _ Hretry) as Hlt.
  destruct (Z.leb_spec attempt (MaxAttempts p)); [| lia].
  destruct (operation s) as [r s']. simpl in *. subst r.
  rewrite Hretry. simpl. rewrite Hwait. reflexivity.
Qed.

(** One iteration that fails and is not retried ends the loop with
    that error. *)
Lemma Execute_loop_give_up (fuel : nat) (attempt : Z)
    (lastErr : option error) (s : St) (err : error) :
  attempt <= MaxAttempts p ->
  fst (operation s) = Some err ->
  ShouldRetry p err attempt = false ->
  Execute_loop (S fuel) attempt lastErr s = Some (Some err, snd (operation s)).
Proof.
  intros Hle Hop Hretry. simpl.
  destruct (Z.leb_spec attempt (MaxAttempts p)); [| lia].
  destruct (operation s) as [r s']. simpl in *. subst r.
  rewrite Hretry. reflexivity.
Qed.

(** One iteration that fails, is retried, and whose wait is cut short
    by the context. *)
Lemma Execute_loop_cancelled (fuel : nat) (attempt : Z)
    (lastErr : option error) (s : St) (err : error) :
  fst (operation s) = Some err ->
  ShouldRetry p err attempt = true ->
  ctx_Done_first ctx attempt (CalculateDelay p (attempt + 1)) = true ->
  Execute_loop (S fuel) attempt lastErr s
  = Some (Some (ctx_Err ctx), snd (operation s)).
Proof.
  intros Hop Hretry Hwait. simpl.
  pose proof (ShouldRetry_true_lt _ _ _ Hretry) as Hlt.
  destruct (Z.leb_spec attempt (MaxAttempts p)); [| lia].
  destruct (operation s) as [r s']. simpl in *. subst r.
  rewrite Hretry. simpl. rewrite Hwait. reflexivity.
Qed.

(** [k] failed, retried and waited-out iterations in a row. *)
Lemma Execute_loop_retries (k : nat) :
  forall (fuel : nat) (attempt : Z) (lastErr : option error) (s : St),
    (forall j : nat, (j < k)%nat ->
       exists err, nth_result operation j s = Some err
         /\ ShouldRetry p err (attempt + Z.of_nat j) = true
         /\ ctx_Done_first ctx (attempt + Z.of_nat j)
              (CalculateDelay p (attempt + Z.of_nat j + 1)) = false) ->
    exists lastErr',
      Execute_loop (k + fuel) attempt lastErr s
      = Execute_loop fuel (attempt + Z.of_nat k) lastErr'
          (after_calls operation k s).
Proof.
  induction k as [| k IH]; intros fuel attempt lastErr s Hall.
  - exists lastErr. simpl. rewrite Z.add_0_r. reflexivity.
  - destruct (Hall 0%nat ltac:(lia)) as (err & Hop & Hretry & Hwait).
    rewrite Z.add_0_r in Hretry, Hwait.
    change (fst (operation s) = Some err) in Hop.
    destruct (IH fuel (attempt + 1) (Some err) (snd (operation s)))
      as [lastErr' Heq].
    { intros j Hj. destruct (Hall (S j) ltac:(lia)) as (e & He & Hr & Hw).
      exists e. rewrite nth_result_shift.
      replace (attempt + 1 + Z.of_nat j) with (attempt + Z.of_nat (S j)) by lia.
      auto. }
    exists lastErr'.
    change (S k + fuel)%nat with (S (k + fuel)).
    rewrite (Execute_loop_retry _ _ _ _ err Hop Hretry Hwait), Heq.
    rewrite after_calls_shift.
    replace (attempt + 1 + Z.of_nat k) with (attempt + Z.of_nat (S k)) by lia.
    reflexivity.
Qed.

(** The loop returns whenever the fuel covers the attempt numbers
    that are left. *)
Lemma Execute_loop_returns (fuel : nat) :
  forall (attempt : Z) (lastErr : option error) (s : St),
    (Z.to_nat (MaxAttempts p + 1 - attempt) < fuel)%nat ->
    exists r, Execute_loop fuel attempt lastErr s = Some r.
Proof.
  induction fuel as [| fuel IH]; intros attempt lastErr s Hfuel; [lia |].
  simpl. destruct (Z.leb_spec attempt (MaxAttempts p)); [| eauto].
  destruct (operation s) as [[err |] s']; [| eauto].
  destruct (negb (ShouldRetry p err attempt)); [eauto |].
  destruct (ctx_Done_first _ _ _); [eauto |].
  apply IH. lia.
Qed.

(** [Execute] is total. *)
Lemma Execute_returns (s : St) :
  exists r, Retry.Execute float64_to_int64_overflow p ctx operation s = Some r.
Proof.
  apply Execute_loop_returns. unfold Execute_fuel.
  rewrite Z.sub_0_r. lia.
Qed.

(** When the context never wins a wait, whatever the loop returns is
    either the values it was entered with (no call was made) or what
    the last call of the operation returned, in the state that call
    left. *)
Lemma Execute_loop_last_result (fuel : nat) :
  forall (attempt : Z) (lastErr : option error) (s : St) r s',
    (forall a d, ctx_Done_first ctx a d = false) ->
    Execute_loop fuel attempt lastErr s = Some (r, s') ->
    (r = lastErr /\ s' = s) \/
    (exists k : nat, r = nth_result operation k s
                     /\ s' = after_calls operation (S k) s).
Proof.
  induction fuel as [| fuel IH]; intros attempt lastErr s r s' Hctx Hrun;
    [discriminate |].
  simpl in Hrun. destruct (Z.leb_spec attempt (MaxAttempts p)).
  2:{ injection Hrun as <- <-. left. auto. }
  right. destruct (operation s) as [[err |] s1] eqn:Hop.
  2:{ injection Hrun as <- <-. exists 0%nat. unfold nth_result. simpl.
      rewrite Hop. auto. }
  destruct (negb (ShouldRetry p err attempt)).
  { injection Hrun as <- <-. exists 0%nat. unfold nth_result. simpl.
    rewrite Hop. auto. }
  rewrite Hctx in Hrun.
  apply IH in Hrun; [| exact Hctx].
  replace s1 with (snd (operation s)) in Hrun by (rewrite Hop; reflexivity).
  destruct Hrun as [[-> ->] | (k & -> & ->)].
  - exists 0%nat. unfold nth_result. simpl. rewrite Hop. auto.
  - exists (S k). rewrite nth_result_shift, after_calls_shift. auto.
Qed.

End LoopFacts.

Section ExecutorFacts.
Import Errors Retry.

Variable float64_to_int64_overflow : Z.
Context {St : Type}.
Variables (p : RetryPolicy) (ctx : Context) (operation : @Operation St).

Local Abbreviation CalculateDelay :=
  (Retry.CalculateDelay float64_to_int64_overflow).
Local Abbreviation Execute :=
  (Retry.Execute float64_to_int64_overflow p ctx).

Lemma counted_eq (s : St) (c : nat) :
  counted operation (s, c) = (fst (operation s), (snd (operation s), S c)).
Proof. simpl. destruct (operation s); reflexivity. Qed.

Lemma after_calls_counted (n : nat) (s : St) (c : nat) :
  after_calls (counted operation) n (s, c)
  = (after_calls operation n s, (c + n)%nat).
Proof.
  induction n as [| n IH].
  - simpl. f_equal. lia.
  - change (after_calls (counted operation) (S n) (s, c))
      with (snd (counted operation (after_calls (counted operation) n (s, c)))).
    rewrite IH, counted_eq. simpl. f_equal. lia.
Qed.

Lemma nth_result_counted (n : nat) (s : St) (c : nat) :
  nth_result (counted operation) n (s, c) = nth_result operation n s.
Proof.
  unfold nth_result. rewrite after_calls_counted, counted_eq. reflexivity.
Qed.

(** C1.  Provided the context never wins a wait: with
    [MaxAttempts = 3] an operation that always fails with a retryable
    error is called exactly 4 times and [Execute] returns what the
    fourth call returned; an operation that always fails with an
    error that is not retryable is called exactly once; and for any
    policy and operation, [Execute] returns, and what it returns
    after at least one call is what the last call returned, never
    another error. *)
Theorem Execute_retry_budget (s : St) :
  (forall attempt delay, ctx_Done_first ctx attempt delay = false) ->
  (MaxAttempts p = 3 ->
   (forall s', exists err, fst (operation s') = Some err /\ retryable err = true) ->
   Execute (counted operation) (s, 0%nat)
   = Some (nth_result operation 3 s, (after_calls operation 4 s, 4%nat))
   /\ exists err, nth_result operation 3 s = Some err)
  /\ (MaxAttempts p = 3 ->
      (forall s', exists err,
          fst (operation s') = Some err /\ retryable err = false) ->
      Execute (counted operation) (s, 0%nat)
      = Some (nth_result operation 0 s, (after_calls operation 1 s, 1%nat))
      /\ exists err, nth_result operation 0 s = Some err)
  /\ (forall r s' calls,
        Execute (counted operation) (s, 0%nat) = Some (r, (s', calls)) ->
        (calls = 0%nat /\ r = None /\ s' = s) \/
        (exists k : nat, calls = S k /\ r = nth_result operation k s
                         /\ s' = after_calls operation calls s))
  /\ (exists res, Execute (counted operation) (s, 0%nat) = Some res).
Proof.
  intros Hctx. split; [| split; [| split]].
  - intros Hmax Hfail.
    assert (Hnth : forall j, exists err,
               nth_result operation j s = Some err /\ retryable err = true)
      by (intros j; apply Hfail).
    split; [| destruct (Hnth 3%nat) as (err & He & _); eauto].
    unfold Retry.Execute, Execute_fuel. rewrite Hmax.
    change (S (Z.to_nat (3 + 1))) with (3 + 2)%nat.
    destruct (Execute_loop_retries float64_to_int64_overflow p ctx
                (counted operation) 3 2 0 None (s, 0%nat)) as [lastErr' ->].
    { intros j Hj. destruct (Hnth j) as (err & He & Hr).
      exists err. rewrite nth_result_counted, Hctx.
      rewrite ShouldRetry_within_budget by lia. auto. }
    destruct (Hnth 3%nat) as (err & He & Hr).
    rewrite after_calls_counted.
    rewrite (Execute_loop_give_up float64_to_int64_overflow p ctx
               (counted operation) 1 _ _ _ err).
    + rewrite counted_eq. simpl. rewrite <- He. reflexivity.
    + simpl. lia.
    + rewrite counted_eq. exact He.
    + apply ShouldRetry_budget_spent. simpl. lia.
  - intros Hmax Hfail.
    destruct (Hfail s) as (err & He & Hr).
    split; [| exists err; exact He].
    unfold Retry.Execute, Execute_fuel.
    rewrite (Execute_loop_give_up float64_to_int64_overflow p ctx
               (counted operation) _ _ _ _ err).
    + rewrite counted_eq. unfold nth_result. simpl. rewrite He. reflexivity.
    + lia.
    + rewrite counted_eq. exact He.
    + rewrite ShouldRetry_within_budget by lia. exact Hr.
  - intros r s' calls Hrun.
    apply (Execute_loop_last_result float64_to_int64_overflow p ctx
             (counted operation)) in Hrun; [| exact Hctx].
    destruct Hrun as [[-> Hs] | (k & -> & Hs)].
    + injection Hs as -> ->. left. auto.
    + rewrite after_calls_counted in Hs. injection Hs as -> ->.
      right. exists k. rewrite nth_result_counted. auto.
  - apply Execute_returns.
Qed.

(** C7.  If the operation has failed with a retried error at the
    attempts [0 .. k], the waits after the attempts before [k] ran to
    their end, and the context fires during the wait after attempt
    [k], then [Execute] returns the error of the context, not the
    error of attempt [k], and the operation has been called [k + 1]
    times: it is not called again. *)
Theorem Execute_cancelled_during_wait (s : St) (k : nat) :
  (forall j : nat, (j <= k)%nat ->
     exists err, nth_result operation j s = Some err
                 /\ ShouldRetry p err (Z.of_nat j) = true) ->
  (forall j : nat, (j < k)%nat ->
     ctx_Done_first ctx (Z.of_nat j) (CalculateDelay p (Z.of_nat j + 1)) = false) ->
  ctx_Done_first ctx (Z.of_nat k) (CalculateDelay p (Z.of_nat k + 1)) = true ->
  Execute (counted operation) (s, 0%nat)
  = Some (Some (ctx_Err ctx), (after_calls operation (S k) s, S k)).
Proof.
  intros Hfail Hwaits Hcancel.
  destruct (Hfail k ltac:(lia)) as (errk & Hek & Hrk).
  pose proof (ShouldRetry_true_lt _ _ _ Hrk) as Hlt.
  assert (Hfuel : exists f, Execute_fuel p = (k + S f)%nat).
  { exists (Z.to_nat (MaxAttempts p + 1) - k)%nat. unfold Execute_fuel. lia. }
  destruct Hfuel as [f Hfuel].
  unfold Retry.Execute. rewrite Hfuel.
  destruct (Execute_loop_retries float64_to_int64_overflow p ctx
              (counted operation) k (S f) 0 None (s, 0%nat)) as [lastErr' ->].
  { intros j Hj. destruct (Hfail j ltac:(lia)) as (err & He & Hr).
    exists err. rewrite nth_result_counted. rewrite !Z.add_0_l.
    auto using Hwaits. }
  rewrite after_calls_counted, Z.add_0_l.
  rewrite (Execute_loop_cancelled float64_to_int64_overflow p ctx
             (counted operation) f _ _ _ errk).
  - rewrite counted_eq. simpl. reflexivity.
  - rewrite counted_eq. exact Hek.
  - exact Hrk.
  - exact Hcancel.
Qed.

End ExecutorFacts.




(** The budget and the cancellation on the operations of the tests. *)

Lemma Execute_retry_budget_witness :
  (forall attempt delay,
      Retry.ctx_Done_first Retry.Background attempt delay = false)
  /\ Retry.Execute 0 Retry.NewRetryPolicy Retry.Background
       (Retry.counted (Examples.always_fails Examples.err500)) (tt, 0%nat)
     = Some (Some Examples.err500, (tt, 4%nat))
  /\ Retry.Execute 0 Retry.NewRetryPolicy Retry.Background
       (Retry.counted (Examples.always_fails Examples.err400)) (tt, 0%nat)
     = Some (Some Examples.err400, (tt, 1%nat)).
Proof.
  assert (Hctx : forall attempt delay,
             Retry.ctx_Done_first Retry.Background attempt delay = false)
    by (intros; reflexivity).
  split; [exact Hctx |]. split.
  - apply (proj1 (Execute_retry_budget 0 Retry.NewRetryPolicy Retry.Background
                    (Examples.always_fails Examples.err500) tt Hctx));
      [reflexivity |].
    intros s'. exists Examples.err500. split; reflexivity.
  - apply (proj1 (proj2 (Execute_retry_budget 0 Retry.NewRetryPolicy
                           Retry.Background
                           (Examples.always_fails Examples.err400) tt Hctx)));
      [reflexivity |].
    intros s'. exists Examples.err400. split; reflexivity.
Defined.

Lemma Execute_cancelled_during_wait_witness :
  Retry.ctx_Done_first (Examples.cancelled_in_wait 1) 1
    (Retry.CalculateDelay 0 Retry.NewRetryPolicy 2) = true
  /\ Retry.Execute 0 Retry.NewRetryPolicy (Examples.cancelled_in_wait 1)
       (Retry.counted (Examples.always_fails Examples.err500)) (tt, 0%nat)
     = Some (Some (Errors.OtherErr "context canceled"), (tt, 2%nat)).
Proof.
  split; [reflexivity |].
  apply (Execute_cancelled_during_wait 0 Retry.NewRetryPolicy
           (Examples.cancelled_in_wait 1)
           (Examples.always_fails Examples.err500) tt 1).
  - intros j Hj. exists Examples.err500. split; [reflexivity |].
    destruct j as [| [| j]]; [reflexivity | reflexivity | lia].
  - intros j Hj. destruct j as [| j]; [reflexivity | lia].
  - reflexivity.
Defined.

(** ** Strings and formatting *)

Section StringFacts.

Lemma append_nil_r (s : string) : s +:+ "" = s.
Proof.
  induction s as [| c s IH]; [reflexivity |].
  change (String c (s +:+ "") = String c s). rewrite IH. reflexivity.
Qed.

Lemma append_assoc (a b c : string) : (a +:+ b) +:+ c = a +:+ (b +:+ c).
Proof.
  induction a as [| x a IH]; [reflexivity |].
  change (String x ((a +:+ b) +:+ c) = String x (a +:+ (b +:+ c))).
  rewrite IH. reflexivity.
Qed.

Lemma append_nil_l (s : string) : "" +:+ s = s.
Proof. reflexivity. Qed.

Lemma append_cons (x : ascii) (a b : string) :
  String x a +:+ b = String x (a +:+ b).
Proof. reflexivity. Qed.

Lemma length_append (a b : string) :
  String.length (a +:+ b) = (String.length a + String.length b)%nat.
Proof.
  induction a as [| x a IH]; [reflexivity |].
  rewrite append_cons. simpl. rewrite IH. reflexivity.
Qed.

Lemma eqb_empty_false (x : ascii) (s : string) :
  String.eqb (String x s) "" = false.
Proof. reflexivity. Qed.

End StringFacts.

Section FormatFacts.
Import Fmt Spec.

Lemma zeros_snoc (n : nat) (acc : string) :
  zeros n +:+ String "0" acc = String "0" (zeros n +:+ acc).
Proof.
  induction n as [| n IH]; [reflexivity |].
  simpl zeros. rewrite !append_cons, IH. reflexivity.
Qed.

Lemma hex_digit_0 : hex_digit 0 = "0"%char.
Proof. reflexivity. Qed.

Lemma fixed_hex_0 (k : nat) (acc : string) :
  fixed_hex k 0 acc = zeros k +:+ acc.
Proof.
  revert acc. induction k as [| k IH]; intros acc; [reflexivity |].
  simpl fixed_hex. change (0 / 16) with 0. change (0 mod 16) with 0.
  rewrite IH, hex_digit_0, zeros_snoc. reflexivity.
Qed.

(** The digits that [%x] writes are the low digits of the fixed
    width rendering; the digits in front of them are zeros. *)
Lemma hex_digits_fixed (k : nat) :
  forall (fuel : nat) (u : Z) (acc : string),
    (1 <= k)%nat -> (k <= S fuel)%nat -> 0 <= u < 16 ^ Z.of_nat k ->
    exists pre,
      hex_digits fuel u acc = pre +:+ acc
      /\ (String.length pre <= k)%nat
      /\ fixed_hex k u acc = zeros (k - String.length pre) +:+ pre +:+ acc.
Proof.
  induction k as [| k IH]; intros fuel u acc Hk Hfuel Hu; [lia |].
  set (d := hex_digit (u mod 16)).
  assert (Hstop : u / 16 = 0 ->
            exists pre, String d acc = pre +:+ acc
              /\ (String.length pre <= S k)%nat
              /\ fixed_hex (S k) u acc
                 = zeros (S k - String.length pre) +:+ pre +:+ acc).
  { intros H0. exists (String d ""). split; [reflexivity |]. split; [simpl; lia |].
    simpl fixed_hex. rewrite H0, fixed_hex_0. fold d.
    simpl String.length. replace (S k - 1)%nat with k by lia. reflexivity. }
  destruct fuel as [| fuel].
  - assert (k = 0%nat) by lia. subst k. simpl hex_digits. fold d.
    apply Hstop. apply Z.div_small. simpl in Hu. lia.
  - simpl hex_digits. fold d. destruct (Z.eqb_spec (u / 16) 0) as [H0 | Hn0].
    + apply Hstop, H0.
    + assert (Hk1 : (1 <= k)%nat).
      { destruct k; [| lia]. exfalso. apply Hn0. apply Z.div_small.
        simpl in Hu. lia. }
      destruct (IH fuel (u / 16) (String d acc) Hk1 ltac:(lia))
        as (pre & Hpre & Hlen & Hfix).
      { split; [apply Z.div_pos; lia |].
        apply Z.div_lt_upper_bound; [lia |].
        rewrite Nat2Z.inj_succ, Z.pow_succ_r in Hu by lia. lia. }
      exists (pre +:+ String d ""). split; [| split].
      * rewrite Hpre, append_assoc. reflexivity.
      * rewrite length_append. simpl. lia.
      * simpl fixed_hex. fold d. rewrite Hfix, length_append.
        simpl String.length.
        replace (S k - (String.length pre + 1))%nat
          with (k - String.length pre)%nat by lia.
        rewrite !append_assoc. reflexivity.
Qed.

(** For a counter that fits 32 bits, [%08x] writes exactly the 8
    digits of the specification. *)
Lemma Sprintf_08x_hex8 (n : Z) :
  0 <= n < 2 ^ 32 -> Sprintf_08x n = nonceCountHex8 n.
Proof.
  intros Hn. unfold Sprintf_08x, nonceCountHex8, zero_pad.
  destruct (Z.ltb_spec n 0); [lia |].
  destruct (hex_digits_fixed 8 15 n "") as (pre & Hpre & Hlen & Hfix);
    [lia | lia | change (16 ^ Z.of_nat 8) with (2 ^ 32); lia |].
  rewrite Hfix, Hpre, !append_nil_r. reflexivity.
Qed.

Lemma fixed_hex_length (k : nat) (u : Z) (acc : string) :
  String.length (fixed_hex k u acc) = (k + String.length acc)%nat.
Proof.
  revert u acc. induction k as [| k IH]; intros u acc; [reflexivity |].
  simpl fixed_hex. rewrite IH. simpl. lia.
Qed.

Lemma hex_digit_lower (n : Z) :
  0 <= n < 16 -> is_lower_hex (hex_digit n) = true.
Proof.
  intros Hn.
  assert (H : In n [0; 1; 2; 3; 4; 5; 6; 7; 8; 9; 10; 11; 12; 13; 14; 15])
    by (simpl; lia).
  simpl in H. decompose [or] H; subst; try reflexivity. contradiction.
Qed.

Lemma fixed_hex_lower (k : nat) (u : Z) (acc : string) :
  all_chars is_lower_hex acc = true ->
  all_chars is_lower_hex (fixed_hex k u acc) = true.
Proof.
  revert u acc. induction k as [| k IH]; intros u acc Hacc; [exact Hacc |].
  simpl fixed_hex. apply IH. simpl.
  rewrite hex_digit_lower by (apply Z.mod_pos_bound; lia). exact Hacc.
Qed.

(** [%x] of bytes: two lowercase hex digits for every byte. *)
Lemma hex_bytes_lower (bs : list byte) :
  String.length (hex_bytes bs) = (2 * length bs)%nat
  /\ all_chars is_lower_hex (hex_bytes bs) = true.
Proof.
  induction bs as [| b bs [IHlen IHall]]; [split; reflexivity |].
  split.
  - simpl. rewrite IHlen. lia.
  - simpl hex_bytes. simpl all_chars. rewrite IHall.
    assert (Hb : 0 <= MD5.Z_of_byte b < 256) by (destruct b; vm_compute; split; congruence).
    rewrite !hex_digit_lower; [reflexivity | |].
    + apply Z.mod_pos_bound. lia.
    + split; [apply Z.div_pos; lia | apply Z.div_lt_upper_bound; lia].
Qed.

Lemma MD5_Sum_length (msg : list byte) : length (MD5.Sum msg) = 16%nat.
Proof.
  unfold MD5.Sum.
  destruct (fold_left MD5.block _ MD5.init) as [[[a b] c] d].
  reflexivity.
Qed.

(** Every hash is 32 lowercase hexadecimal digits. *)
Lemma md5hex_lower (s : string) :
  String.length (Auth.md5hex s) = 32%nat
  /\ all_chars is_lower_hex (Auth.md5hex s) = true.
Proof.
  unfold Auth.md5hex.
  destruct (hex_bytes_lower (MD5.Sum (list_byte_of_string s))) as [Hlen Hall].
  rewrite MD5_Sum_length in Hlen. split; assumption.
Qed.

End FormatFacts.

(** ** Digest credentials *)

Section CredentialFacts.
Import Errors Auth Spec.

Local Opaque md5hex.

Lemma generateResponse_spec (d : DigestAuth)
    (username password method uri : string) :
  0 <= nc d < 2 ^ 32 ->
  (if String.eqb (qop d) "auth"
   then generateResponseWithQop d (generateHA1 d username password)
          (generateHA2 method uri)
   else generateResponseWithoutQop d (generateHA1 d username password)
          (generateHA2 method uri))
  = response_hash d username password method uri.
Proof.
  intros Hnc. unfold response_hash, generateResponseWithQop,
    generateResponseWithoutQop, generateHA1, generateHA2.
  rewrite Sprintf_08x_hex8 by exact Hnc. reflexivity.
Qed.

(** C3.  With a stored nonce, and a nonce counter that fits 8 hex
    digits, the header that [GenerateAuthHeader] writes carries, as
    its [response] parameter, the hash of the specification:
    [md5hex(H1:nonce:nc8:cnonce:qop:H2)] when the stored qop is auth
    and [md5hex(H1:nonce:H2)] otherwise, with
    [H1 = md5hex(username:realm:password)], [H2 = md5hex(method:uri)]
    and [nc8] the counter as 8 lowercase hex digits; the hash is 32
    lowercase hexadecimal digits. *)
Theorem GenerateAuthHeader_response (d : DigestAuth)
    (username password method uri : string) :
  nonce d <> "" ->
  0 <= nc d < 2 ^ 32 ->
  (exists rest,
      GenerateAuthHeader d username password method uri
      = "Digest " +:+ "username=" +:+ quoted username
        +:+ ", realm=" +:+ quoted (realm d)
        +:+ ", nonce=" +:+ quoted (nonce d)
        +:+ ", uri=" +:+ quoted uri
        +:+ ", response="
        +:+ quoted (response_hash d username password method uri)
        +:+ rest)
  /\ String.length (response_hash d username password method uri) = 32%nat
  /\ all_chars is_lower_hex (response_hash d username password method uri) = true
  /\ String.length (nonceCountHex8 (nc d)) = 8%nat
  /\ all_chars is_lower_hex (nonceCountHex8 (nc d)) = true.
Proof.
  intros Hnonce Hnc. split; [| split; [| split; [| split]]].
  - unfold GenerateAuthHeader.
    apply String.eqb_neq in Hnonce. rewrite Hnonce.
    rewrite generateResponse_spec by exact Hnc.
    exists ((if negb (String.eqb (qop d) "")
             then ", qop=" +:+ qop d +:+ ", nc=" +:+ Fmt.Sprintf_08x (nc d)
                  +:+ ", cnonce=" +:+ quoted (cnonce d)
             else "")
            +:+ (if negb (String.eqb (opaque d) "")
                 then ", opaque=" +:+ quoted (opaque d) else "")
            +:+ (if negb (String.eqb (algorithm d) "")
                 then ", algorithm=" +:+ algorithm d else "")).
    generalize (quoted (response_hash d username password method uri)).
    generalize (Fmt.Sprintf_08x (nc d)).
    intros n8 r.
    destruct (negb (String.eqb (qop d) ""));
      destruct (negb (String.eqb (opaque d) ""));
      destruct (negb (String.eqb (algorithm d) ""));
      rewrite ?append_assoc, ?append_nil_l, ?append_nil_r;
      reflexivity.
  - unfold response_hash. destruct (String.eqb (qop d) "auth"); apply md5hex_lower.
  - unfold response_hash. destruct (String.eqb (qop d) "auth"); apply md5hex_lower.
  - unfold nonceCountHex8. rewrite fixed_hex_length. reflexivity.
  - unfold nonceCountHex8. apply fixed_hex_lower. reflexivity.
Qed.

Lemma GenerateAuthHeader_response_witness :
  nonce Examples.rfc2617 <> "" /\ 0 <= nc Examples.rfc2617 < 2 ^ 32
  /\ response_hash Examples.rfc2617 "Mufasa" "Circle Of Life" "GET"
       "/dir/index.html" = "6629fae49393a05397450978507c4ef1"
  /\ String.length
       (response_hash Examples.rfc2617 "Mufasa" "Circle Of Life" "GET"
          "/dir/index.html") = 32%nat.
Proof.
  assert (H1 : nonce Examples.rfc2617 <> "") by discriminate.
  assert (H2 : 0 <= nc Examples.rfc2617 < 2 ^ 32) by (simpl; lia).
  split; [exact H1 |]. split; [exact H2 |].
  split; [vm_compute; reflexivity |].
  exact (proj1 (proj2 (GenerateAuthHeader_response Examples.rfc2617
                         "Mufasa" "Circle Of Life" "GET" "/dir/index.html"
                         H1 H2))).
Defined.

(** The header of the example of RFC 2617. *)
Example GenerateAuthHeader_rfc2617 :
  GenerateAuthHeader Examples.rfc2617 "Mufasa" "Circle Of Life" "GET"
    "/dir/index.html"
  = "Digest username=" +:+ quoted "Mufasa"
    +:+ ", realm=" +:+ quoted "testrealm@host.com"
    +:+ ", nonce=" +:+ quoted "dcd98b7102dd2f0e8b11d0f600bfb0c093"
    +:+ ", uri=" +:+ quoted "/dir/index.html"
    +:+ ", response=" +:+ quoted "6629fae49393a05397450978507c4ef1"
    +:+ ", qop=auth, nc=00000001, cnonce=" +:+ quoted "0a4f113b"
    +:+ ", opaque=" +:+ quoted "5ccc069c403ebaf9f0171e9517f40e41".
Proof. vm_compute. reflexivity. Qed.


End CredentialFacts.

(** ** The challenge parser *)

Section ScannerFacts.
Import Errors Auth Spec.

Lemma span_append (f : ascii -> bool) (s a b : string) :
  span f s = (a, b) -> s = a +:+ b.
Proof.
  revert a b. induction s as [| c s IH]; intros a b Hspan; simpl in Hspan.
  - injection Hspan as <- <-. reflexivity.
  - destruct (f c).
    + destruct (span f s) as [a' b'] eqn:Hs. injection Hspan as <- <-.
      rewrite append_cons, <- (IH a' b' eq_refl). reflexivity.
    + injection Hspan as <- <-. reflexivity.
Qed.

Lemma span_run (f : ascii -> bool) (a b : string) :
  all_chars f a = true -> stops f b -> span f (a +:+ b) = (a, b).
Proof.
  intros Ha Hb. induction a as [| c a IH].
  - rewrite append_nil_l. destruct b as [| c b]; [reflexivity |].
    simpl in *. rewrite Hb. reflexivity.
  - simpl in Ha. apply andb_prop in Ha as [Hc Ha].
    rewrite append_cons. simpl. rewrite Hc, (IH Ha). reflexivity.
Qed.

Lemma match_quoted_shorter (s q rest : string) :
  match_quoted s = Some (q, rest) ->
  (String.length rest < String.length s)%nat.
Proof.
  destruct s as [| c s1]; [discriminate |]. simpl.
  destruct (Ascii.eqb c dquote); [| discriminate].
  destruct (span not_dquote s1) as [q' s2] eqn:Hspan.
  destruct s2 as [| c2 rest']; [discriminate |].
  intros H. injection H as <- <-.
  apply span_append in Hspan. subst s1.
  rewrite length_append. simpl. lia.
Qed.

(** A match is never empty. *)
Lemma match_here_shorter (s : string) (m : submatch) (rest : string) :
  match_here s = Some (m, rest) ->
  (String.length rest < String.length s)%nat.
Proof.
  unfold match_here. destruct (span is_word s) as [key s1] eqn:Hkey.
  apply span_append in Hkey. subst s.
  destruct (String.eqb key ""); [discriminate |].
  destruct s1 as [| c s2]; [discriminate |].
  destruct (Ascii.eqb c "="); [| discriminate].
  rewrite length_append. simpl String.length.
  destruct (match_quoted s2) as [[q r] |] eqn:Hq.
  - intros H. injection H as <- <-.
    apply match_quoted_shorter in Hq. lia.
  - destruct (span not_comma_space s2) as [v r] eqn:Hv.
    destruct (String.eqb v ""); [discriminate |].
    intros H. injection H as <- <-.
    apply span_append in Hv. subst s2. rewrite length_append. lia.
Qed.

(** The fuel does not matter once it covers the length of the text. *)
Lemma find_all_fuel (fuel1 : nat) :
  forall (fuel2 : nat) (s : string),
    (String.length s <= fuel1)%nat -> (String.length s <= fuel2)%nat ->
    find_all fuel1 s = find_all fuel2 s.
Proof.
  induction fuel1 as [| fuel1 IH]; intros fuel2 s H1 H2.
  - destruct s; [| simpl in H1; lia]. destruct fuel2; reflexivity.
  - destruct s as [| c s']; [destruct fuel2; reflexivity |].
    destruct fuel2 as [| fuel2]; [simpl in H2; lia |].
    simpl in H1, H2. simpl find_all.
    destruct (match_here (String c s')) as [[m rest] |] eqn:Hm.
    + apply match_here_shorter in Hm. simpl in Hm.
      f_equal. apply IH; lia.
    + apply IH; lia.
Qed.

Lemma FindAll_empty : FindAllStringSubmatch "" = [].
Proof. reflexivity. Qed.

Lemma FindAll_match (s : string) (m : submatch) (rest : string) :
  match_here s = Some (m, rest) ->
  FindAllStringSubmatch s = m :: FindAllStringSubmatch rest.
Proof.
  intros Hm. pose proof (match_here_shorter _ _ _ Hm) as Hlen.
  unfold FindAllStringSubmatch.
  destruct s as [| c s']; [simpl in Hlen; lia |].
  simpl String.length. simpl find_all. rewrite Hm.
  f_equal. apply find_all_fuel; simpl in Hlen; lia.
Qed.

Lemma FindAll_skip (c : ascii) (s : string) :
  match_here (String c s) = None ->
  FindAllStringSubmatch (String c s) = FindAllStringSubmatch s.
Proof.
  intros Hm. unfold FindAllStringSubmatch.
  simpl String.length. simpl find_all. rewrite Hm. reflexivity.
Qed.

(** No match starts at a character that is not a word character. *)
Lemma match_here_not_word (c : ascii) (s : string) :
  is_word c = false -> match_here (String c s) = None.
Proof. intros Hc. unfold match_here. simpl. rewrite Hc. reflexivity. Qed.

Lemma separator_not_word (c : ascii) :
  not_comma_space c = false -> is_word c = false.
Proof.
  unfold not_comma_space, is_space, is_word.
  destruct (Ascii.eqb_spec c ","); [subst; reflexivity |].
  simpl. intros H. apply negb_false_iff in H.
  repeat (apply orb_prop in H as [H | H]);
    apply Nat.eqb_eq in H; rewrite H; reflexivity.
Qed.

Lemma FindAll_separator (sep s : string) :
  is_separator sep = true ->
  FindAllStringSubmatch (sep +:+ s) = FindAllStringSubmatch s.
Proof.
  intros Hsep. induction sep as [| c sep IH]; [reflexivity |].
  simpl in Hsep. apply andb_prop in Hsep as [Hc Hsep].
  apply negb_true_iff in Hc.
  rewrite append_cons, FindAll_skip.
  - apply IH, Hsep.
  - apply match_here_not_word, separator_not_word, Hc.
Qed.

End ScannerFacts.

Section RoundTrip.
Import Errors Auth Spec.

Lemma is_key_span (k rest : string) :
  is_key k = true ->
  span is_word (k +:+ String "=" rest) = (k, String "=" rest)
  /\ String.eqb k "" = false.
Proof.
  unfold is_key. intros H. apply andb_prop in H as [Hne Hall].
  split; [| apply negb_true_iff, Hne].
  apply span_run; [exact Hall | reflexivity].
Qed.

Lemma quoted_append (v rest : string) :
  quoted v +:+ rest = String dquote (v +:+ String dquote rest).
Proof.
  unfold quoted. rewrite append_cons, append_assoc. reflexivity.
Qed.

Lemma match_quoted_quoted (v rest : string) :
  all_chars not_dquote v = true ->
  match_quoted (quoted v +:+ rest) = Some (v, rest).
Proof.
  intros Hv. rewrite quoted_append. unfold match_quoted.
  rewrite Ascii.eqb_refl, span_run; [reflexivity | exact Hv | reflexivity].
Qed.

(** At the start of a rendered parameter the expression matches that
    parameter and nothing more. *)
Lemma match_here_param (p : param) (rest : string) :
  param_ok p = true ->
  stops not_comma_space rest ->
  match_here (render_param p +:+ rest) = Some (submatch_of p, rest).
Proof.
  intros Hok Hrest. destruct p as [k v | k v]; simpl in Hok.
  - apply andb_prop in Hok as [Hk Hv].
    unfold render_param. rewrite !append_assoc. change ("=" +:+ ?x) with (String "=" x).
    unfold match_here.
    destruct (is_key_span k (quoted v +:+ rest) Hk) as [-> ->].
    rewrite Ascii.eqb_refl, match_quoted_quoted by exact Hv. reflexivity.
  - apply andb_prop in Hok as [Hok Hhead].
    apply andb_prop in Hok as [Hk Hv].
    unfold render_param. rewrite !append_assoc. change ("=" +:+ ?x) with (String "=" x).
    unfold match_here.
    destruct (is_key_span k (v +:+ rest) Hk) as [-> ->].
    rewrite Ascii.eqb_refl.
    destruct v as [| c v']; [discriminate |].
    assert (Hq : match_quoted (String c v' +:+ rest) = None).
    { rewrite append_cons. unfold match_quoted.
      unfold not_dquote in Hhead. apply negb_true_iff in Hhead.
      rewrite Hhead. reflexivity. }
    rewrite Hq, span_run by assumption. reflexivity.
Qed.

Lemma separator_stops (sep rest : string) :
  is_separator sep = true -> String.eqb sep "" = false ->
  stops not_comma_space (sep +:+ rest).
Proof.
  destruct sep as [| c sep]; [discriminate |].
  simpl. intros H _. apply andb_prop in H as [Hc _].
  apply negb_true_iff, Hc.
Qed.

(** Scanning a well-formed challenge finds its parameters, in order. *)
Lemma FindAll_render (l : list (param * string)) :
  challenge_ok l = true ->
  FindAllStringSubmatch (render l) = map (fun ps => submatch_of (fst ps)) l.
Proof.
  induction l as [| [p sep] rest IH]; intros Hok; [reflexivity |].
  simpl in Hok.
  apply andb_prop in Hok as [Hok Hrest].
  apply andb_prop in Hok as [Hok Hlast].
  apply andb_prop in Hok as [Hp Hsep].
  simpl render. simpl map.
  rewrite (FindAll_match _ (submatch_of p) (sep +:+ render rest)).
  - rewrite FindAll_separator by exact Hsep. rewrite IH by exact Hrest.
    reflexivity.
  - apply match_here_param; [exact Hp |].
    destruct rest as [| ps rest'].
    + destruct sep as [| c sep]; [exact I |].
      apply separator_stops; [exact Hsep | reflexivity].
    + apply separator_stops; [exact Hsep |].
      apply negb_true_iff, Hlast.
Qed.

(** The assignments [pairs[key] = value] in the order of the matches:
    a later one replaces an earlier one for the same key. *)
Lemma fold_insert_list_to_map (kvs : list (string * string))
    (m0 : gmap string string) :
  fold_left (fun (m : gmap string string) (kv : string * string) =>
               <[fst kv := snd kv]> m) kvs m0
  = list_to_map (rev kvs) ∪ m0.
Proof.
  revert m0. induction kvs as [| [k v] kvs IH]; intros m0.
  - simpl. rewrite (left_id_L ∅ (∪)). reflexivity.
  - simpl fold_left. rewrite IH. simpl rev.
    rewrite list_to_map_app. simpl list_to_map.
    rewrite <- (assoc_L (∪)). f_equal.
    rewrite insert_union_singleton_l.
    rewrite <- insert_union_singleton_l, insert_empty.
    rewrite <- insert_union_singleton_l. reflexivity.
Qed.

Lemma parseKeyValuePairs_fold (data : string) :
  parseKeyValuePairs data
  = fold_left (fun (m : gmap string string) (kv : string * string) =>
                 <[fst kv := snd kv]> m)
      (map (fun m => (group1 m,
                      if String.eqb (group2 m) "" then group3 m else group2 m))
           (FindAllStringSubmatch data)) ∅.
Proof.
  unfold parseKeyValuePairs. generalize (∅ : gmap string string).
  induction (FindAllStringSubmatch data) as [| m ms IH]; intros m0;
    [reflexivity |].
  simpl. apply IH.
Qed.

(** Every pair of a well-formed challenge with distinct keys is in
    the map, with its value as it is written, and nothing else is. *)
Lemma parseKeyValuePairs_render (l : list (param * string)) :
  challenge_ok l = true ->
  NoDup (pairs_of l).*1 ->
  parseKeyValuePairs (render l) = list_to_map (pairs_of l).
Proof.
  intros Hok Hnodup.
  rewrite parseKeyValuePairs_fold, FindAll_render by exact Hok.
  rewrite fold_insert_list_to_map, (right_id_L ∅ (∪)).
  rewrite map_map.
  assert (Heq : map (fun ps : param * string =>
                       (group1 (submatch_of (fst ps)),
                        if String.eqb (group2 (submatch_of (fst ps))) ""
                        then group3 (submatch_of (fst ps))
                        else group2 (submatch_of (fst ps)))) l
                = pairs_of l).
  { unfold pairs_of. apply map_ext. intros [[k v | k v] sep]; simpl.
    - destruct (String.eqb_spec v ""); [subst |]; reflexivity.
    - reflexivity. }
  rewrite Heq.
  apply list_to_map_proper; [| apply Permutation_sym, Permutation_rev].
  rewrite <- (Permutation_rev (pairs_of l)). exact Hnodup.
Qed.

(** Scanning a well-formed challenge, with keys that may repeat. *)
Lemma parseKeyValuePairs_render_rev (l : list (param * string)) :
  challenge_ok l = true ->
  parseKeyValuePairs (render l) = list_to_map (rev (pairs_of l)).
Proof.
  intros Hok.
  rewrite parseKeyValuePairs_fold, FindAll_render by exact Hok.
  rewrite fold_insert_list_to_map, (right_id_L ∅ (∪)), map_map.
  do 2 f_equal. unfold pairs_of. apply map_ext.
  intros [[k v | k v] sep]; simpl.
  - destruct (String.eqb_spec v ""); [subst |]; reflexivity.
  - reflexivity.
Qed.

End RoundTrip.

Section ParseChallengeFacts.
Import Errors Auth Spec.

Variables (random : list byte) (d : DigestAuth).

(** [ParseChallenge] on a header with the scheme prefix. *)
Lemma ParseChallenge_Digest (data : string) :
  ParseChallenge random d ("Digest " +:+ data)
  = let d1 := assigned d (index (parseKeyValuePairs data)) in
    if String.eqb (realm d1) "" then
      (d1, Some (OtherErr "missing realm in digest challenge"))
    else if String.eqb (nonce d1) "" then
      (d1, Some (OtherErr "missing nonce in digest challenge"))
    else (with_cnonce d1 (generateCnonce random), None).
Proof.
  unfold ParseChallenge.
  replace (String.eqb ("Digest " +:+ data) "") with false by reflexivity.
  replace (HasPrefix ("Digest " +:+ data) "Digest ") with true by reflexivity.
  replace (TrimPrefix ("Digest " +:+ data) "Digest ") with data by reflexivity.
  cbv zeta. unfold assigned, with_cnonce. cbn [negb realm nonce qop opaque algorithm nc cnonce].
  destruct (String.eqb (index (parseKeyValuePairs data) "algorithm") "");
    reflexivity.
Qed.

Lemma ParseChallenge_no_prefix (h : string) :
  HasPrefix h "Digest " = false ->
  exists msg, ParseChallenge random d h = (d, Some (OtherErr msg)).
Proof.
  intros Hpre. unfold ParseChallenge.
  destruct (String.eqb h ""); [eauto |].
  rewrite Hpre. simpl. eauto.
Qed.

(** [ParseChallenge] never writes the nonce counter. *)
Lemma ParseChallenge_nc (h : string) :
  nc (fst (ParseChallenge random d h)) = nc d.
Proof.
  unfold ParseChallenge.
  destruct (String.eqb h ""); [reflexivity |].
  destruct (negb (HasPrefix h "Digest ")); [reflexivity |].
  cbv zeta.
  destruct (String.eqb (algorithm _) ""); cbn [realm nonce];
    destruct (String.eqb _ ""); try reflexivity;
    destruct (String.eqb _ ""); reflexivity.
Qed.

End ParseChallengeFacts.

(** The nonce counter of a client is 1 for its whole life: it fits the
    8 hexadecimal digits of the credential. *)
Lemma reachable_nc (d : Auth.DigestAuth) :
  Spec.reachable d -> Auth.nc d = 1.
Proof.
  induction 1 as [| random d h _ IH]; [reflexivity |].
  rewrite ParseChallenge_nc. exact IH.
Qed.

Section ParseChallengeClaims.
Import Errors Auth Spec.

Variables (random : list byte) (d : DigestAuth).

Lemma ParseChallenge_complete (data : string) :
  index (parseKeyValuePairs data) "realm" <> "" ->
  index (parseKeyValuePairs data) "nonce" <> "" ->
  ParseChallenge random d ("Digest " +:+ data)
  = (with_cnonce (assigned d (index (parseKeyValuePairs data)))
       (generateCnonce random), None).
Proof.
  intros Hrealm Hnonce. rewrite ParseChallenge_Digest. cbv zeta.
  change (realm (assigned d (index (parseKeyValuePairs data))))
    with (index (parseKeyValuePairs data) "realm").
  change (nonce (assigned d (index (parseKeyValuePairs data))))
    with (index (parseKeyValuePairs data) "nonce").
  apply String.eqb_neq in Hrealm, Hnonce. rewrite Hrealm, Hnonce.
  reflexivity.
Qed.

Lemma ParseChallenge_incomplete (data : string) :
  index (parseKeyValuePairs data) "realm" = ""
  \/ index (parseKeyValuePairs data) "nonce" = "" ->
  exists msg,
    ParseChallenge random d ("Digest " +:+ data)
    = (assigned d (index (parseKeyValuePairs data)), Some (OtherErr msg)).
Proof.
  intros Hmiss. rewrite ParseChallenge_Digest. cbv zeta.
  change (realm (assigned d (index (parseKeyValuePairs data))))
    with (index (parseKeyValuePairs data) "realm").
  change (nonce (assigned d (index (parseKeyValuePairs data))))
    with (index (parseKeyValuePairs data) "nonce").
  destruct (String.eqb_spec (index (parseKeyValuePairs data) "realm") "");
    [eauto |].
  destruct (String.eqb_spec (index (parseKeyValuePairs data) "nonce") "");
    [eauto |].
  tauto.
Qed.





(** The challenge of the parser's test, and the headers that the test
    expects to fail. *)
Example ParseChallenge_test_challenge :
  challenge_ok Examples.test_challenge = true
  /\ ParseChallenge Examples.test_random NewDigestAuth
       ("Digest " +:+ render Examples.test_challenge)
     = (Examples.test_state, None).
Proof. split; vm_compute; reflexivity. Qed.

Example ParseChallenge_test_failures :
  snd (ParseChallenge [] NewDigestAuth "")
  = Some (OtherErr "empty auth header")
  /\ snd (ParseChallenge [] NewDigestAuth "Basic realm=test")
     = Some (OtherErr "not a digest auth header")
  /\ snd (ParseChallenge [] NewDigestAuth ("Digest nonce=" +:+ quoted "test"))
     = Some (OtherErr "missing realm in digest challenge")
  /\ snd (ParseChallenge [] NewDigestAuth ("Digest realm=" +:+ quoted "test"))
     = Some (OtherErr "missing nonce in digest challenge").
Proof. repeat split; vm_compute; reflexivity. Qed.

(** Bare values, and a quoted value that holds commas and an equals
    sign. *)
Example parseKeyValuePairs_mixed :
  parseKeyValuePairs
    ("realm=" +:+ quoted "a, b=c" +:+ ",nonce=abc123 , stale=false")
  = <["stale" := "false"]>
      (<["nonce" := "abc123"]> (<["realm" := "a, b=c"]> ∅)).
Proof. vm_compute. reflexivity. Qed.

(** C10.  A header with the scheme prefix whose pairs lack a realm or
    a nonce makes [ParseChallenge] fail after it has assigned the five
    challenge fields from the new pairs (counter and client nonce are
    left): a stored nonce is replaced, by the empty string when the
    new pairs have none, and [GenerateAuthHeader] then returns the
    empty string.  The failures on an empty header and on a header
    without the scheme prefix leave the state as it was. *)
Theorem ParseChallenge_not_atomic :
  (forall data : string,
      index (parseKeyValuePairs data) "realm" = ""
      \/ index (parseKeyValuePairs data) "nonce" = "" ->
      exists msg,
        ParseChallenge random d ("Digest " +:+ data)
        = (assigned d (index (parseKeyValuePairs data)), Some (OtherErr msg)))
  /\ (forall (data username password method uri : string),
        index (parseKeyValuePairs data) "nonce" = "" ->
        GenerateAuthHeader
          (fst (ParseChallenge random d ("Digest " +:+ data)))
          username password method uri = "")
  /\ (nonce Examples.test_state <> ""
      /\ ParseChallenge random Examples.test_state
           ("Digest realm=" +:+ quoted "test")
         = ({| realm := "test"; nonce := ""; qop := ""; opaque := "";
               algorithm := "MD5"; nc := nc Examples.test_state;
               cnonce := cnonce Examples.test_state |},
            Some (OtherErr "missing nonce in digest challenge")))
  /\ (forall h : string,
        h = "" \/ HasPrefix h "Digest " = false ->
        exists msg, ParseChallenge random d h = (d, Some (OtherErr msg))).
Proof.
  split; [| split; [| split]].
  - apply ParseChallenge_incomplete.
  - intros data username password method uri Hnonce.
    destruct (ParseChallenge_incomplete data (or_intror Hnonce)) as [msg ->].
    unfold GenerateAuthHeader. simpl. rewrite Hnonce. reflexivity.
  - split; [discriminate |]. vm_compute. reflexivity.
  - intros h [-> | Hpre]; [| apply ParseChallenge_no_prefix, Hpre].
    exists "empty auth header". reflexivity.
Qed.

End ParseChallengeClaims.

(** ** Readiness of the authenticator *)

Section Readiness.
Import Errors Auth Spec.

Lemma GenerateAuthHeader_empty_iff (d : DigestAuth)
    (username password method uri : string) :
  GenerateAuthHeader d username password method uri = "" <-> nonce d = "".
Proof.
  unfold GenerateAuthHeader.
  destruct (String.eqb_spec (nonce d) "") as [Hempty | Hstored];
    [split; auto |].
  split; [| contradiction].
  intros H. apply (f_equal String.length) in H.
  destruct (negb (String.eqb (qop d) ""));
    destruct (negb (String.eqb (opaque d) ""));
    destruct (negb (String.eqb (algorithm d) ""));
    rewrite ?length_append in H; simpl in H; lia.
Qed.

Lemma ParseChallenge_nonce (random : list byte) (d : DigestAuth) (h : string) :
  nonce (fst (ParseChallenge random d h))
  = if String.eqb h "" then nonce d
    else if HasPrefix h "Digest " then
      index (parseKeyValuePairs (TrimPrefix h "Digest ")) "nonce"
    else nonce d.
Proof.
  unfold ParseChallenge.
  destruct (String.eqb h ""); [reflexivity |].
  destruct (HasPrefix h "Digest "); [| reflexivity].
  cbv zeta. cbn [negb].
  destruct (String.eqb (algorithm _) ""); cbn [realm nonce];
    destruct (String.eqb _ ""); try reflexivity;
    destruct (String.eqb _ ""); reflexivity.
Qed.

Lemma unchallenged_nonce (d : DigestAuth) : unchallenged d -> nonce d = "".
Proof.
  induction 1 as [| random d h _ IH Hcase]; [reflexivity |].
  rewrite ParseChallenge_nonce.
  destruct (String.eqb_spec h "") as [| Hne]; [exact IH |].
  destruct (HasPrefix h "Digest ") eqn:Hpre; [| exact IH].
  destruct Hcase as [-> | [Hno | Hnonce]]; [contradiction | discriminate |].
  exact Hnonce.
Qed.

(** C9, as the code has it.  [GenerateAuthHeader] returns the empty
    string exactly when the stored nonce is empty; it is a total
    function and has no error result.  The nonce is empty in a new
    authenticator and stays empty while no header with the scheme
    prefix has given a nonce.  What decides is the last header with the
    scheme prefix, not the success of its parse: after any call of
    [ParseChallenge] with such a header the stored nonce is the one of
    the header, also when the call has failed, and the credential
    header is empty exactly when that header gave no nonce. *)
Theorem GenerateAuthHeader_not_ready :
  (forall (d : DigestAuth) (username password method uri : string),
      GenerateAuthHeader d username password method uri = "" <-> nonce d = "")
  /\ (forall (d : DigestAuth) (username password method uri : string),
        unchallenged d ->
        GenerateAuthHeader d username password method uri = "")
  /\ (forall (random : list byte) (d : DigestAuth)
             (h username password method uri : string),
        HasPrefix h "Digest " = true ->
        nonce (fst (ParseChallenge random d h))
        = index (parseKeyValuePairs (TrimPrefix h "Digest ")) "nonce"
        /\ (GenerateAuthHeader (fst (ParseChallenge random d h))
              username password method uri = ""
            <-> index (parseKeyValuePairs (TrimPrefix h "Digest ")) "nonce"
                = "")).
Proof.
  split; [apply GenerateAuthHeader_empty_iff |]. split.
  - intros d username password method uri Hd.
    apply GenerateAuthHeader_empty_iff, unchallenged_nonce, Hd.
  - intros random d h username password method uri Hpre.
    assert (Hnonce : nonce (fst (ParseChallenge random d h))
                     = index (parseKeyValuePairs (TrimPrefix h "Digest "))
                         "nonce").
    { rewrite ParseChallenge_nonce, Hpre.
      destruct (String.eqb_spec h "") as [-> |]; [discriminate | reflexivity]. }
    split; [exact Hnonce |].
    rewrite GenerateAuthHeader_empty_iff, Hnonce. reflexivity.
Qed.

End Readiness.

(** An authenticator that was only given a header of another scheme. *)
Lemma GenerateAuthHeader_not_ready_witness :
  Spec.unchallenged
    (fst (Auth.ParseChallenge [] Auth.NewDigestAuth "Basic realm=test"))
  /\ Auth.GenerateAuthHeader
       (fst (Auth.ParseChallenge [] Auth.NewDigestAuth "Basic realm=test"))
       "public" "private" "GET" "/api/v1beta/projects" = "".
Proof.
  assert (H : Spec.unchallenged
                (fst (Auth.ParseChallenge [] Auth.NewDigestAuth
                        "Basic realm=test"))).
  { apply Spec.unchallenged_parse; [apply Spec.unchallenged_new |].
    right. left. reflexivity. }
  split; [exact H |].
  exact (proj1 (proj2 GenerateAuthHeader_not_ready) _ _ _ _ _ H).
Defined.

(** C9 as it is stated fails: no call of [ParseChallenge] has
    succeeded, the only call returned the error for the missing realm,
    but it stored the nonce of its header, and [GenerateAuthHeader]
    returns a header, with an empty realm. *)
Lemma GenerateAuthHeader_after_failed_parse :
  snd (Auth.ParseChallenge [] Auth.NewDigestAuth
         ("Digest nonce=" +:+ Auth.quoted "x"))
  = Some (Errors.OtherErr "missing realm in digest challenge")
  /\ Auth.nonce (fst (Auth.ParseChallenge [] Auth.NewDigestAuth
                        ("Digest nonce=" +:+ Auth.quoted "x"))) = "x"
  /\ Auth.GenerateAuthHeader
       (fst (Auth.ParseChallenge [] Auth.NewDigestAuth
               ("Digest nonce=" +:+ Auth.quoted "x")))
       "public" "private" "GET" "/api/v1beta/projects" <> ""
  /\ Auth.HasPrefix
       (Auth.GenerateAuthHeader
          (fst (Auth.ParseChallenge [] Auth.NewDigestAuth
                  ("Digest nonce=" +:+ Auth.quoted "x")))
          "public" "private" "GET" "/api/v1beta/projects")
       ("Digest username=" +:+ Auth.quoted "public" +:+ ", realm="
        +:+ Auth.quoted "" +:+ ", nonce=" +:+ Auth.quoted "x") = true.
Proof.
  split; [vm_compute; reflexivity |].
  split; [vm_compute; reflexivity |].
  split; [vm_compute; discriminate |].
  vm_compute. reflexivity.
Qed.

(** ** The failure classifier *)

Section ClassifierFacts.
Import Errors HTTP Client.

Variable decodeErrorResponse : string -> option ErrorResponse.
Variable StatusText : Z -> string.

Lemma ParseInt_empty : Strconv.ParseInt_10_64 "" = None.
Proof. reflexivity. Qed.

(** C8.  For a response with status 429 whose [X-Ratelimit-Reset]
    header parses as a 64-bit integer, the details of the classified
    error are the details decoded from the body followed by one entry
    that maps [rate_limit_reset] to the parsed value; and
    [IsRateLimitError] holds exactly for status 429 with the
    application code 49900007. *)
Theorem parseAPIError_rate_limit :
  (forall (resp : Response) (resetTime : Z),
      StatusCode resp = 429 ->
      Strconv.ParseInt_10_64 (Get (RespHeader resp) "X-Ratelimit-Reset")
      = Some resetTime ->
      Details (parseAPIError decodeErrorResponse StatusText resp)
      = match decodeErrorResponse (RespBody resp) with
        | Some errorResp => ErrDetails errorResp
        | None => []
        end ++ [AnyMap [("rate_limit_reset"%string, AnyInt64 resetTime)]]
      /\ Errors.StatusCode (parseAPIError decodeErrorResponse StatusText resp)
         = 429)
  /\ (forall e : APIError,
        IsRateLimitError e = true
        <-> Errors.StatusCode e = 429 /\ Code e = 49900007).
Proof.
  split.
  - intros resp resetTime Hstatus Hparse. unfold parseAPIError.
    rewrite Hstatus. change (429 =? StatusTooManyRequests) with true. cbv iota.
    destruct (String.eqb_spec (Get (RespHeader resp) "X-Ratelimit-Reset") "")
      as [Hempty | Hpresent].
    + rewrite Hempty, ParseInt_empty in Hparse. discriminate.
    + cbn [negb]. rewrite Hparse.
      destruct (decodeErrorResponse (RespBody resp)); split; reflexivity.
  - intros e. unfold IsRateLimitError, StatusTooManyRequests.
    rewrite andb_true_iff, !Z.eqb_eq. reflexivity.
Qed.

End ClassifierFacts.

(** Scenario C: status 429, the rate-limit code in the body and the
    header [X-Ratelimit-Reset: 1700000000]. *)
Example parseAPIError_scenario_C :
  let e := Client.parseAPIError Examples.decode_rate_limited (fun _ => "")
             Examples.rate_limited in
  Errors.Details e
  = [Errors.AnyMap [("rate_limit_reset"%string, Errors.AnyInt64 1700000000)]]
  /\ Errors.IsRateLimitError e = true
  /\ Errors.IsRetryable e = true.
Proof. vm_compute. repeat split; reflexivity. Qed.

(** ** The dispatch of one request *)

Section DispatchFacts.
Import Errors Auth HTTP Client.

Context {World : Type}.
Variable Do : Request -> World -> (Response + error) * World.
Variable url_Path : string -> string.
Variable NewRequest_error : string -> string -> option error.
Variables (c : Client) (random : list byte).

Local Abbreviation run req d w :=
  (executeHTTPRequest (recording Do) url_Path NewRequest_error c random req
     (d, (w, []))).

(** The request of the second send: method, URL, headers and body of
    the original request, and the credential header.  An empty method
    is written out as [GET]; the credential is computed from the method
    as the original request has it. *)
Local Abbreviation authenticated req d :=
  {| Method := method_or_GET (Method req);
     URL := URL req;
     ReqHeader :=
       Set_ (ReqHeader req) "Authorization"
         (GenerateAuthHeader d (publicKey c) (privateKey c) (Method req)
            (url_Path (URL req)));
     Body := Body req |}.

Lemma request_eta (req : Request) :
  {| Method := Method req; URL := URL req; ReqHeader := ReqHeader req;
     Body := Body req |} = req.
Proof. destruct req; reflexivity. Qed.

Lemma recording_eq (req : Request) (w : World) (log : list Request) :
  recording Do req (w, log)
  = (fst (Do req w), (snd (Do req w), log ++ [req])).
Proof. unfold recording. destruct (Do req w); reflexivity. Qed.

(** C2, as the code has it.  The first send is the request as it was
    given: nothing is added to its headers.  A transport error, a
    response that is not 401 and a 401 without a challenge are returned
    as they are, after that one send.  After a 401 with a challenge
    that [ParseChallenge] accepts, a second request with the same
    method (an empty method written out as [GET], as [http.NewRequest]
    does), URL, headers and body and the generated [Authorization]
    header is sent, once, and what that send returns is the result.
    After a 401 with a challenge that [ParseChallenge] rejects, the
    result is the wrapped parse error and there is no second send. *)
Theorem executeHTTPRequest_handshake (req : Request) (d : DigestAuth) (w : World) :
  (* the first send *)
  (exists rest, snd (snd (snd (run req d w))) = req :: rest)
  /\ (Get (ReqHeader req) "Authorization" = "" ->
      exists first rest,
        snd (snd (snd (run req d w))) = first :: rest
        /\ Get (ReqHeader first) "Authorization" = "")
  (* transport error *)
  /\ (forall err,
        fst (Do req w) = inr err ->
        run req d w = (inr err, (d, (snd (Do req w), [req]))))
  (* not 401, or no challenge *)
  /\ (forall resp,
        fst (Do req w) = inl resp ->
        StatusCode resp <> 401 \/ Get (RespHeader resp) "WWW-Authenticate" = "" ->
        run req d w = (inl resp, (d, (snd (Do req w), [req]))))
  (* 401 with a challenge that is accepted *)
  /\ (forall resp d',
        fst (Do req w) = inl resp ->
        StatusCode resp = 401 ->
        Get (RespHeader resp) "WWW-Authenticate" <> "" ->
        ParseChallenge random d (Get (RespHeader resp) "WWW-Authenticate")
        = (d', None) ->
        NewRequest_error (method_or_GET (Method req)) (URL req) = None ->
        run req d w
        = (fst (Do (authenticated req d') (snd (Do req w))),
           (d', (snd (Do (authenticated req d') (snd (Do req w))),
                 [req; authenticated req d']))))
  (* 401 with a challenge that is rejected *)
  /\ (forall resp d' perr,
        fst (Do req w) = inl resp ->
        StatusCode resp = 401 ->
        Get (RespHeader resp) "WWW-Authenticate" <> "" ->
        ParseChallenge random d (Get (RespHeader resp) "WWW-Authenticate")
        = (d', Some perr) ->
        run req d w
        = (inr (Errorf_w "failed to parse auth challenge: " perr),
           (d', (snd (Do req w), [req])))).
Proof.
  assert (Hrun : run req d w
            = match fst (Do req w) with
              | inr err => (inr err, (d, (snd (Do req w), [req])))
              | inl resp =>
                  if StatusCode resp =? StatusUnauthorized then
                    if negb (String.eqb (Get (RespHeader resp) "WWW-Authenticate") "")
                    then
                      match ParseChallenge random d
                              (Get (RespHeader resp) "WWW-Authenticate") with
                      | (d', Some perr) =>
                          (inr (Errorf_w "failed to parse auth challenge: " perr),
                           (d', (snd (Do req w), [req])))
                      | (d', None) =>
                          match NewRequest_error (method_or_GET (Method req)) (URL req) with
                          | Some err =>
                              (inr (Errorf_w "failed to create auth request: " err),
                               (d', (snd (Do req w), [req])))
                          | None =>
                              (fst (Do (authenticated req d') (snd (Do req w))),
                               (d', (snd (Do (authenticated req d') (snd (Do req w))),
                                     [req; authenticated req d'])))
                          end
                      end
                    else (inl resp, (d, (snd (Do req w), [req])))
                  else (inl resp, (d, (snd (Do req w), [req])))
              end).
  { unfold executeHTTPRequest. rewrite request_eta, recording_eq. cbn [app].
    destruct (fst (Do req w)) as [resp | err]; [| reflexivity].
    destruct (StatusCode resp =? StatusUnauthorized); [| reflexivity].
    destruct (negb _); [| reflexivity].
    destruct (ParseChallenge random d _) as [d' [perr |]]; [reflexivity |].
    unfold NewRequest. cbv zeta. cbn [Method URL].
    destruct (NewRequest_error (method_or_GET (Method req)) (URL req)); [reflexivity |].
    cbn [Method URL ReqHeader Body]. rewrite (right_id_L ∅ (∪)).
    rewrite recording_eq. reflexivity. }
  assert (Hfirst : exists rest, snd (snd (snd (run req d w))) = req :: rest).
  { rewrite Hrun.
    destruct (fst (Do req w)) as [resp | err]; [| simpl; eauto].
    destruct (StatusCode resp =? StatusUnauthorized); [| simpl; eauto].
    destruct (negb _); [| simpl; eauto].
    destruct (ParseChallenge random d _) as [d' [perr |]]; [simpl; eauto |].
    destruct (NewRequest_error (method_or_GET (Method req)) (URL req)); simpl; eauto. }
  split; [exact Hfirst |]. split; [| split; [| split; [| split]]].
  - intros Hnone. destruct Hfirst as [rest Hlog]. exists req, rest. auto.
  - intros err Herr. rewrite Hrun, Herr. reflexivity.
  - intros resp Hresp Hcase. rewrite Hrun, Hresp.
    destruct (Z.eqb_spec (StatusCode resp) StatusUnauthorized) as [H401 |];
      [| reflexivity].
    destruct Hcase as [Hne | Hnone]; [contradiction |].
    rewrite Hnone. reflexivity.
  - intros resp d' Hresp H401 Hchal Hparse Hnew. rewrite Hrun, Hresp, H401.
    apply String.eqb_neq in Hchal. rewrite Hchal, Hparse, Hnew. reflexivity.
  - intros resp d' perr Hresp H401 Hchal Hparse. rewrite Hrun, Hresp, H401.
    apply String.eqb_neq in Hchal. rewrite Hchal, Hparse. reflexivity.
Qed.

End DispatchFacts.

(** Scenario A: 401 with a Digest challenge, then 200 for the
    request with credentials.  The second request repeats method, URL,
    content type and body, and carries the credential header. *)
Example executeHTTPRequest_scenario_A :
  let r := Client.executeHTTPRequest (Client.recording Examples.digest_server)
             Examples.projects_path Examples.accepts_all Examples.test_client
             Examples.test_random Examples.create_project
             (Auth.NewDigestAuth, (tt, [])) in
  (exists resp, fst r = inl resp /\ HTTP.StatusCode resp = 200)
  /\ exists second,
       snd (snd (snd r)) = [Examples.create_project; second]
       /\ HTTP.Method second = "POST"
       /\ HTTP.URL second = HTTP.URL Examples.create_project
       /\ HTTP.Body second = Some "{}"
       /\ HTTP.Get (HTTP.ReqHeader second) "Content-Type" = "application/json"
       /\ Auth.HasPrefix (HTTP.Get (HTTP.ReqHeader second) "Authorization")
            "Digest username=" = true.
Proof.
  vm_compute. split; [eexists; split; reflexivity |].
  eexists. repeat split; reflexivity.
Qed.

(** C2 as it is stated fails: the first response is a 401 with a
    [WWW-Authenticate] header, but the header is not a Digest
    challenge; the request is sent once, not twice, and the result is
    the parse error, not a second response. *)
Lemma executeHTTPRequest_rejected_challenge :
  let r := Client.executeHTTPRequest (Client.recording Examples.basic_server)
             Examples.projects_path Examples.accepts_all Examples.test_client
             Examples.test_random Examples.list_projects
             (Auth.NewDigestAuth, (tt, [])) in
  (exists resp,
      fst (Examples.basic_server Examples.list_projects tt) = inl resp
      /\ HTTP.StatusCode resp = 401
      /\ HTTP.Get (HTTP.RespHeader resp) "WWW-Authenticate" <> "")
  /\ snd (snd (snd r)) = [Examples.list_projects]
  /\ fst r = inr (Errors.OtherErr
                    "failed to parse auth challenge: not a digest auth header")
  /\ ~ (exists second,
           snd (snd (snd r)) = [Examples.list_projects; second]
           /\ fst r = fst (Examples.basic_server second tt)).
Proof.
  vm_compute. split; [| split; [| split]].
  - eexists. split; [reflexivity |]. split; [reflexivity | discriminate].
  - reflexivity.
  - reflexivity.
  - intros (second & Hlog & _). discriminate.
Qed.

(** ** The claims on the data of the tests *)

(** The policy of the tests retries a 500 at attempt 1 and not at
    attempt 3, and never retries a 400. *)
Lemma ShouldRetry_spec_witness :
  Retry.ShouldRetry Retry.NewRetryPolicy Examples.err500 1 = true
  /\ Retry.ShouldRetry Retry.NewRetryPolicy Examples.err500 3 = false
  /\ Retry.ShouldRetry Retry.NewRetryPolicy Examples.err400 1 = false.
Proof.
  split; [| split].
  - apply (proj1 (ShouldRetry_spec Retry.NewRetryPolicy Examples.err500 1)).
    split; [reflexivity |]. right. eexists. split; [reflexivity |].
    simpl. set_solver.
  - apply (proj2 (ShouldRetry_spec Retry.NewRetryPolicy Examples.err500 3)).
    left. simpl. lia.
  - apply (proj2 (ShouldRetry_spec Retry.NewRetryPolicy Examples.err400 1)).
    right. eexists. split; [reflexivity |].
    simpl. rewrite !elem_of_cons, elem_of_nil. lia.
Defined.



(** A challenge without nonce, parsed over the state of the test:
    the parse fails and the stored nonce is gone. *)
Lemma ParseChallenge_not_atomic_witness :
  Auth.index (Auth.parseKeyValuePairs ("realm=" +:+ Auth.quoted "test")) "nonce"
  = ""
  /\ Auth.GenerateAuthHeader
       (fst (Auth.ParseChallenge [] Examples.test_state
               ("Digest " +:+ "realm=" +:+ Auth.quoted "test")))
       "public" "private" "GET" "/api/v1beta/projects" = "".
Proof.
  assert (Hnonce : Auth.index
                     (Auth.parseKeyValuePairs ("realm=" +:+ Auth.quoted "test"))
                     "nonce" = "") by (vm_compute; reflexivity).
  split; [exact Hnonce |].
  apply (proj1 (proj2 (ParseChallenge_not_atomic [] Examples.test_state))).
  exact Hnonce.
Defined.

(** Scenario C through the theorem. *)
Lemma parseAPIError_rate_limit_witness :
  HTTP.StatusCode Examples.rate_limited = 429
  /\ Errors.Details
       (Client.parseAPIError Examples.decode_rate_limited (fun _ => "")
          Examples.rate_limited)
     = [] ++ [Errors.AnyMap
                [("rate_limit_reset"%string, Errors.AnyInt64 1700000000)]].
Proof.
  split; [reflexivity |].
  apply (proj1 (parseAPIError_rate_limit Examples.decode_rate_limited
                  (fun _ => "")) Examples.rate_limited 1700000000);
    reflexivity.
Defined.

(** Scenario A through the theorem: the challenge of the test server
    is accepted, and the request is sent a second time with the
    credentials. *)
Lemma executeHTTPRequest_handshake_witness :
  Auth.ParseChallenge Examples.test_random Auth.NewDigestAuth
    (HTTP.Get (HTTP.RespHeader Examples.challenge_401) "WWW-Authenticate")
  = (Examples.handshake_state, None)
  /\ Client.executeHTTPRequest (Client.recording Examples.digest_server)
       Examples.projects_path Examples.accepts_all Examples.test_client
       Examples.test_random Examples.create_project
       (Auth.NewDigestAuth, (tt, []))
     = (inl Examples.ok_200,
        (Examples.handshake_state,
         (tt,
          [Examples.create_project;
           {| HTTP.Method := "POST";
              HTTP.URL := HTTP.URL Examples.create_project;
              HTTP.ReqHeader :=
                HTTP.Set_ (HTTP.ReqHeader Examples.create_project)
                  "Authorization"
                  (Auth.GenerateAuthHeader Examples.handshake_state
                     "test_public_key" "test_private_key" "POST"
                     "/api/v1beta/projects");
              HTTP.Body := Some "{}" |}]))).
Proof.
  assert (Hparse : Auth.ParseChallenge Examples.test_random Auth.NewDigestAuth
                     (HTTP.Get (HTTP.RespHeader Examples.challenge_401)
                        "WWW-Authenticate")
                   = (Examples.handshake_state, None))
    by (vm_compute; reflexivity).
  split; [exact Hparse |].
  rewrite (proj1 (proj2 (proj2 (proj2 (proj2
             (executeHTTPRequest_handshake Examples.digest_server
                Examples.projects_path Examples.accepts_all
                Examples.test_client Examples.test_random
                Examples.create_project Auth.NewDigestAuth tt)))))
             Examples.challenge_401 Examples.handshake_state
             eq_refl eq_refl ltac:(vm_compute; discriminate) Hparse eq_refl).
  vm_compute. reflexivity.
Defined.

(** * Further properties of the request execution core *)

(** ** The retry executor, for any policy and any context *)

Section ExecutorBounds.
Import Errors Retry.

Variable float64_to_int64_overflow : Z.
Context {St : Type}.
Variables (p : RetryPolicy) (ctx : Context) (operation : @Operation St).

Local Abbreviation CalculateDelay :=
  (Retry.CalculateDelay float64_to_int64_overflow).
Local Abbreviation Execute_loop :=
  (Retry.Execute_loop float64_to_int64_overflow p ctx).
Local Abbreviation Execute :=
  (Retry.Execute float64_to_int64_overflow p ctx).

Lemma counted_step (s : St) (c : nat) :
  counted operation (s, c) = (fst (operation s), (snd (operation s), S c)).
Proof. simpl. destruct (operation s); reflexivity. Qed.

(** From the loop test at [attempt], the loop calls the operation at
    most once for every attempt number up to [MaxAttempts]. *)
Lemma Execute_loop_calls (fuel : nat) :
  forall (attempt : Z) (lastErr : option error) (s : St) (c : nat) r s' calls,
    Execute_loop (counted operation) fuel attempt lastErr (s, c)
    = Some (r, (s', calls)) ->
    (c <= calls <= c + Z.to_nat (MaxAttempts p + 1 - attempt))%nat.
Proof.
  induction fuel as [| fuel IH]; intros attempt lastErr s c r s' calls Hrun;
    [discriminate |].
  simpl in Hrun. destruct (Z.leb_spec attempt (MaxAttempts p)).
  2:{ injection Hrun as _ _ <-. lia. }
  destruct (operation s) as [[err |] s1].
  2:{ injection Hrun as _ _ <-. lia. }
  destruct (negb (ShouldRetry p err attempt)).
  { injection Hrun as _ _ <-. lia. }
  destruct (ctx_Done_first _ _ _).
  { injection Hrun as _ _ <-. lia. }
  apply IH in Hrun. lia.
Qed.

(** X1.  Whatever the context does and whatever the operation returns,
    [Execute] calls the operation at most [MaxAttempts + 1] times (not
    at all for a negative [MaxAttempts]), and at least once when
    [MaxAttempts] is not negative. *)
Theorem Execute_call_bound (s : St) :
  exists r s' calls,
    Execute (counted operation) (s, 0%nat) = Some (r, (s', calls))
    /\ (calls <= Z.to_nat (MaxAttempts p + 1))%nat
    /\ (0 <= MaxAttempts p -> (1 <= calls)%nat).
Proof.
  destruct (Execute_returns float64_to_int64_overflow p ctx
              (counted operation) (s, 0%nat)) as [[r [s' calls]] Hrun].
  exists r, s', calls. split; [exact Hrun |]. split.
  - unfold Retry.Execute in Hrun. apply Execute_loop_calls in Hrun.
    rewrite Z.sub_0_r in Hrun. lia.
  - intros Hmax. unfold Retry.Execute, Execute_fuel in Hrun.
    simpl in Hrun. destruct (Z.leb_spec 0 (MaxAttempts p)); [| lia].
    destruct (operation s) as [[err |] s1].
    2:{ injection Hrun as _ _ <-. lia. }
    destruct (negb (ShouldRetry p err 0)).
    { injection Hrun as _ _ <-. lia. }
    destruct (ctx_Done_first _ _ _).
    { injection Hrun as _ _ <-. lia. }
    apply Execute_loop_calls in Hrun. lia.
Qed.

(** X2.  With a negative [MaxAttempts] the loop body never runs: the
    operation is not called and [Execute] returns [nil]. *)
Theorem Execute_negative_budget (s : St) :
  MaxAttempts p < 0 ->
  Execute (counted operation) (s, 0%nat) = Some (None, (s, 0%nat)).
Proof.
  intros Hneg. unfold Retry.Execute, Execute_fuel. simpl.
  destruct (Z.leb_spec 0 (MaxAttempts p)); [lia | reflexivity].
Qed.

End ExecutorBounds.

Lemma Execute_negative_budget_witness :
  Retry.MaxAttempts (Cases.with_budget (-1)) < 0
  /\ Retry.Execute 0 (Cases.with_budget (-1)) Retry.Background
       (Retry.counted (Examples.always_fails Examples.err500)) (tt, 0%nat)
     = Some (None, (tt, 0%nat)).
Proof.
  assert (H : Retry.MaxAttempts (Cases.with_budget (-1)) < 0) by (simpl; lia).
  split; [exact H |].
  apply (Execute_negative_budget 0 (Cases.with_budget (-1)) Retry.Background
           (Examples.always_fails Examples.err500) tt H).
Defined.

Section ExecutorRuns.
Import Errors Retry.

Variable float64_to_int64_overflow : Z.
Context {St : Type}.
Variables (p : RetryPolicy) (ctx : Context) (operation : @Operation St).

Local Abbreviation CalculateDelay :=
  (Retry.CalculateDelay float64_to_int64_overflow).
Local Abbreviation Execute_loop :=
  (Retry.Execute_loop float64_to_int64_overflow p ctx operation).
Local Abbreviation Execute :=
  (Retry.Execute float64_to_int64_overflow p ctx).

(** What the loop returns, for any context: the values it was entered
    with when no call was made; otherwise the result of the last call,
    or the error of the context after a last call that failed. *)
Lemma Execute_loop_provenance (fuel : nat) :
  forall (attempt : Z) (lastErr : option error) (s : St) r s',
    Execute_loop fuel attempt lastErr s = Some (r, s') ->
    (MaxAttempts p < attempt /\ r = lastErr /\ s' = s)
    \/ (exists k : nat,
          s' = after_calls operation (S k) s
          /\ (r = nth_result operation k s
              \/ (r = Some (ctx_Err ctx)
                  /\ exists err, nth_result operation k s = Some err))).
Proof.
  induction fuel as [| fuel IH]; intros attempt lastErr s r s' Hrun;
    [discriminate |].
  simpl in Hrun. destruct (Z.leb_spec attempt (MaxAttempts p)).
  2:{ injection Hrun as <- <-. left. auto. }
  right. destruct (operation s) as [[err |] s1] eqn:Hop.
  2:{ injection Hrun as <- <-. exists 0%nat. unfold nth_result. simpl.
      rewrite Hop. auto. }
  destruct (negb (ShouldRetry p err attempt)).
  { injection Hrun as <- <-. exists 0%nat. unfold nth_result. simpl.
    rewrite Hop. auto. }
  destruct (ctx_Done_first _ _ _).
  { injection Hrun as <- <-. exists 0%nat. unfold nth_result. simpl.
    rewrite Hop. split; [reflexivity |]. right. eauto. }
  apply IH in Hrun.
  replace s1 with (snd (operation s)) in Hrun by (rewrite Hop; reflexivity).
  destruct Hrun as [(Hlt & -> & ->) | (k & -> & Hr)].
  - exists 0%nat. unfold nth_result. simpl. rewrite Hop. auto.
  - exists (S k). rewrite after_calls_shift.
    rewrite nth_result_shift in Hr. auto.
Qed.

(** X3.  [Execute] never returns the error of an earlier call, nor an error
    of its own making: after at least one call it returns what the last
    call returned, or, when that call failed, the error of the
    context. *)
Theorem Execute_result_provenance (s : St) :
  0 <= MaxAttempts p ->
  exists r s' k,
    Execute operation s = Some (r, s')
    /\ s' = after_calls operation (S k) s
    /\ (r = nth_result operation k s
        \/ (r = Some (ctx_Err ctx)
            /\ exists err, nth_result operation k s = Some err)).
Proof.
  intros Hmax.
  destruct (Execute_returns float64_to_int64_overflow p ctx operation s)
    as [[r s'] Hrun].
  pose proof Hrun as Hprov. unfold Retry.Execute in Hprov.
  apply Execute_loop_provenance in Hprov.
  destruct Hprov as [(Hlt & _) | (k & Hs & Hr)]; [lia |].
  exists r, s', k. auto.
Qed.

(** X4.  An operation that fails [k] times with errors that are retried,
    each wait running to its end, and then succeeds: [Execute] returns
    [nil] after [k + 1] calls. *)
Theorem Execute_succeeds_after_retries (s : St) (k : nat) :
  Z.of_nat k <= MaxAttempts p ->
  (forall j : nat, (j < k)%nat ->
     exists err, nth_result operation j s = Some err
       /\ ShouldRetry p err (Z.of_nat j) = true
       /\ ctx_Done_first ctx (Z.of_nat j)
            (CalculateDelay p (Z.of_nat j + 1)) = false) ->
  nth_result operation k s = None ->
  Execute (counted operation) (s, 0%nat)
  = Some (None, (after_calls operation (S k) s, S k)).
Proof.
  intros Hk Hfail Hok.
  assert (Hfuel : exists f, Execute_fuel p = (k + S f)%nat).
  { exists (Z.to_nat (MaxAttempts p + 1) - k)%nat. unfold Execute_fuel. lia. }
  destruct Hfuel as [f Hfuel].
  unfold Retry.Execute. rewrite Hfuel.
  destruct (Execute_loop_retries float64_to_int64_overflow p ctx
              (counted operation) k (S f) 0 None (s, 0%nat)) as [lastErr' ->].
  { intros j Hj. destruct (Hfail j Hj) as (err & He & Hr & Hw).
    exists err. rewrite nth_result_counted, !Z.add_0_l. auto. }
  rewrite after_calls_counted, Z.add_0_l.
  rewrite Execute_loop_success.
  - rewrite counted_eq. reflexivity.
  - exact Hk.
  - rewrite counted_eq. exact Hok.
Qed.

(** X5.  The budget in general: with [MaxAttempts = n >= 0], a context that
    never wins a wait and an operation that always fails with a
    retryable error, the operation is called exactly [n + 1] times and
    the error of the last call is returned. *)
Theorem Execute_exhausts_budget (s : St) :
  0 <= MaxAttempts p ->
  (forall attempt delay, ctx_Done_first ctx attempt delay = false) ->
  (forall s', exists err, fst (operation s') = Some err /\ retryable err = true) ->
  Execute (counted operation) (s, 0%nat)
  = Some (nth_result operation (Z.to_nat (MaxAttempts p)) s,
          (after_calls operation (S (Z.to_nat (MaxAttempts p))) s,
           S (Z.to_nat (MaxAttempts p)))).
Proof.
  intros Hmax Hctx Hfail.
  set (n := Z.to_nat (MaxAttempts p)).
  assert (Hnth : forall j, exists err,
             nth_result operation j s = Some err /\ retryable err = true)
    by (intros j; apply Hfail).
  unfold Retry.Execute, Execute_fuel.
  replace (S (Z.to_nat (MaxAttempts p + 1))) with (n + 2)%nat by lia.
  destruct (Execute_loop_retries float64_to_int64_overflow p ctx
              (counted operation) n 2 0 None (s, 0%nat)) as [lastErr' ->].
  { intros j Hj. destruct (Hnth j) as (err & He & Hr).
    exists err. rewrite nth_result_counted, Hctx.
    rewrite ShouldRetry_within_budget by lia. auto. }
  destruct (Hnth n) as (err & He & Hr).
  rewrite after_calls_counted.
  rewrite (Execute_loop_give_up float64_to_int64_overflow p ctx
             (counted operation) 1 _ _ _ err).
  - rewrite counted_eq. simpl. rewrite <- He. reflexivity.
  - lia.
  - rewrite counted_eq. exact He.
  - apply ShouldRetry_budget_spent. lia.
Qed.

End ExecutorRuns.

Lemma Execute_result_provenance_witness :
  0 <= Retry.MaxAttempts Retry.NewRetryPolicy
  /\ exists r s' k,
       Retry.Execute 0 Retry.NewRetryPolicy (Examples.cancelled_in_wait 1)
         (Examples.always_fails Examples.err500) tt = Some (r, s')
       /\ s' = Retry.after_calls (Examples.always_fails Examples.err500) (S k) tt
       /\ (r = Retry.nth_result (Examples.always_fails Examples.err500) k tt
           \/ (r = Some (Retry.ctx_Err (Examples.cancelled_in_wait 1))
               /\ exists err,
                    Retry.nth_result (Examples.always_fails Examples.err500) k tt
                    = Some err)).
Proof.
  assert (H : 0 <= Retry.MaxAttempts Retry.NewRetryPolicy) by (simpl; lia).
  split; [exact H |].
  apply (Execute_result_provenance 0 Retry.NewRetryPolicy
           (Examples.cancelled_in_wait 1)
           (Examples.always_fails Examples.err500) tt H).
Defined.

(** The test that succeeds on the second attempt. *)
Lemma Execute_succeeds_after_retries_witness :
  Retry.nth_result (Cases.fails_first 1 Examples.err500) 1 0%nat = None
  /\ Retry.Execute 0 Retry.NewRetryPolicy Retry.Background
       (Retry.counted (Cases.fails_first 1 Examples.err500)) (0%nat, 0%nat)
     = Some (None, (2%nat, 2%nat)).
Proof.
  split; [reflexivity |].
  apply (Execute_succeeds_after_retries 0 Retry.NewRetryPolicy
           Retry.Background (Cases.fails_first 1 Examples.err500) 0%nat 1).
  - simpl. lia.
  - intros j Hj. assert (j = 0%nat) by lia. subst j.
    exists Examples.err500. repeat split; reflexivity.
  - reflexivity.
Defined.

(** A budget of 5 and a network error at every call: 6 calls. *)
Lemma Execute_exhausts_budget_witness :
  0 <= Retry.MaxAttempts (Cases.with_budget 5)
  /\ Retry.Execute 0 (Cases.with_budget 5) Retry.Background
       (Retry.counted (Examples.always_fails Cases.network_error)) (tt, 0%nat)
     = Some (Some Cases.network_error, (tt, 6%nat)).
Proof.
  assert (H : 0 <= Retry.MaxAttempts (Cases.with_budget 5)) by (simpl; lia).
  split; [exact H |].
  apply (Execute_exhausts_budget 0 (Cases.with_budget 5) Retry.Background
           (Examples.always_fails Cases.network_error) tt H).
  - intros attempt delay. reflexivity.
  - intros s'. exists Cases.network_error. split; reflexivity.
Defined.

(** ** The backoff where it does not overflow *)

Section BackoffMore.
Import Errors Retry.

Variable float64_to_int64_overflow : Z.

Local Abbreviation CalculateDelay :=
  (Retry.CalculateDelay float64_to_int64_overflow).

(** X6.  While [BaseDelay * 2^attempt] fits an [int64], the delays of the
    attempts [attempt] and [attempt + 1] are the documented minimum,
    [min(BaseDelay * 2^(attempt-1), MaxDelay)] and
    [min(BaseDelay * 2^attempt, MaxDelay)], and the second is not
    smaller than the first. *)
Theorem CalculateDelay_doubles_until_cap (p : RetryPolicy) (attempt : Z) :
  1 <= attempt <= 62 ->
  0 <= BaseDelay p ->
  BaseDelay p * 2 ^ attempt <= MaxInt64 ->
  CalculateDelay p attempt
  = Z.min (BaseDelay p * 2 ^ (attempt - 1)) (MaxDelay p)
  /\ CalculateDelay p (attempt + 1)
     = Z.min (BaseDelay p * 2 ^ attempt) (MaxDelay p)
  /\ CalculateDelay p attempt <= CalculateDelay p (attempt + 1).
Proof.
  intros Hn Hb Hfit.
  assert (Hpow : 2 ^ attempt = 2 * 2 ^ (attempt - 1)).
  { rewrite <- Z.pow_succ_r by lia. f_equal. lia. }
  assert (Hpos : 0 < 2 ^ (attempt - 1)) by (apply Z.pow_pos_nonneg; lia).
  assert (Hle : BaseDelay p * 2 ^ (attempt - 1) <= BaseDelay p * 2 ^ attempt).
  { rewrite Hpow. apply Z.mul_le_mono_nonneg_l; lia. }
  assert (H1 : CalculateDelay p attempt
               = Z.min (BaseDelay p * 2 ^ (attempt - 1)) (MaxDelay p)).
  { apply CalculateDelay_formula; [lia | exact Hb |].
    exact (Z.le_trans _ _ _ Hle Hfit). }
  assert (H2 : CalculateDelay p (attempt + 1)
               = Z.min (BaseDelay p * 2 ^ attempt) (MaxDelay p)).
  { rewrite CalculateDelay_formula; [| lia | exact Hb |].
    - replace (attempt + 1 - 1) with attempt by lia. reflexivity.
    - replace (attempt + 1 - 1) with attempt by lia. exact Hfit. }
  split; [exact H1 |]. split; [exact H2 |].
  rewrite H1, H2. apply Z.min_le_compat_r. exact Hle.
Qed.


End BackoffMore.

(** The default policy up to attempt 34. *)
Lemma CalculateDelay_doubles_until_cap_witness :
  1 <= 33 <= 62
  /\ Retry.CalculateDelay 0 Retry.NewRetryPolicy 33
     = Z.min (Retry.BaseDelay Retry.NewRetryPolicy * 2 ^ (33 - 1))
         (Retry.MaxDelay Retry.NewRetryPolicy)
  /\ Retry.CalculateDelay 0 Retry.NewRetryPolicy 33
     <= Retry.CalculateDelay 0 Retry.NewRetryPolicy (33 + 1).
Proof.
  assert (H1 : 1 <= 33 <= 62) by lia.
  assert (H2 : 0 <= Retry.BaseDelay Retry.NewRetryPolicy)
    by (vm_compute; discriminate).
  assert (H3 : Retry.BaseDelay Retry.NewRetryPolicy * 2 ^ 33 <= MaxInt64)
    by (vm_compute; discriminate).
  split; [exact H1 |].
  pose proof (CalculateDelay_doubles_until_cap 0 Retry.NewRetryPolicy 33
                H1 H2 H3) as (Ha & _ & Hc).
  split; [exact Ha | exact Hc].
Defined.

(** ** The classes of API errors and the retry policy *)

Section ErrorClasses.
Import Errors Retry.

(** X8.  The four client-error classes exclude one another and none of
    them is retried, at any attempt and under any policy; every rate
    limit error is retryable, and is retried while the budget lasts. *)
Theorem error_classes_and_retry (e : APIError) (p : RetryPolicy) (attempt : Z) :
  (IsBadRequestError e || IsAuthenticationError e
   || IsAuthorizationError e || IsNotFoundError e = true ->
   IsRetryable e = false
   /\ IsRateLimitError e = false
   /\ ShouldRetry p (APIErr e) attempt = false)
  /\ (IsRateLimitError e = true ->
      IsRetryable e = true
      /\ (attempt < MaxAttempts p -> ShouldRetry p (APIErr e) attempt = true))
  /\ (IsBadRequestError e = true ->
      IsAuthenticationError e = false /\ IsAuthorizationError e = false
      /\ IsNotFoundError e = false)
  /\ (IsAuthenticationError e = true ->
      IsAuthorizationError e = false /\ IsNotFoundError e = false)
  /\ (IsAuthorizationError e = true -> IsNotFoundError e = false).
Proof.
  unfold ShouldRetry, IsBadRequestError, IsAuthenticationError,
    IsAuthorizationError, IsNotFoundError, IsRateLimitError, IsRetryable,
    StatusBadRequest, StatusUnauthorized, StatusForbidden, StatusNotFound,
    StatusTooManyRequests, StatusInternalServerError, StatusBadGateway,
    StatusServiceUnavailable, StatusGatewayTimeout.
  destruct (Z.geb_spec attempt (MaxAttempts p));
    repeat match goal with
           | |- context [StatusCode e =? ?b] =>
               destruct (Z.eqb_spec (StatusCode e) b)
           end;
    repeat split; simpl; intros; try reflexivity; try discriminate;
    try congruence; try lia.
Qed.

End ErrorClasses.

(** ** The authenticator over its life *)

Section AuthenticatorLife.
Import Errors Auth Spec.

Lemma strip_prefix_append (pre s rest : string) :
  strip_prefix pre s = Some rest -> s = pre +:+ rest.
Proof.
  revert s. induction pre as [| a pre IH]; intros s Hs.
  - simpl in Hs. injection Hs as ->. reflexivity.
  - destruct s as [| b s]; [discriminate |]. simpl in Hs.
    destruct (Ascii.eqb_spec a b) as [-> |]; [| discriminate].
    rewrite append_cons, <- (IH s Hs). reflexivity.
Qed.

Lemma HasPrefix_append (s pre : string) :
  HasPrefix s pre = true -> exists rest, s = pre +:+ rest.
Proof.
  unfold HasPrefix. destruct (strip_prefix pre s) as [rest |] eqn:Hs;
    [| discriminate].
  intros _. exists rest. apply strip_prefix_append, Hs.
Qed.

Lemma ParseChallenge_error_no_prefix (random : list byte) (d : DigestAuth)
    (h : string) :
  HasPrefix h "Digest " = false ->
  exists msg, ParseChallenge random d h = (d, Some (OtherErr msg)).
Proof.
  intros Hpre. unfold ParseChallenge.
  destruct (String.eqb h ""); [eauto |].
  rewrite Hpre. simpl. eauto.
Qed.

(** X9.  A successful [ParseChallenge] leaves the authenticator ready: the
    header had the scheme prefix, realm, nonce and algorithm are not
    empty, the client nonce is the hexadecimal text of the random
    bytes (two lowercase digits for each), the counter is untouched,
    and [GenerateAuthHeader] then gives a header that begins with
    [Digest username=], for all its arguments. *)
Theorem ParseChallenge_success_ready (random : list byte) (d d' : DigestAuth)
    (h : string) :
  ParseChallenge random d h = (d', None) ->
  HasPrefix h "Digest " = true
  /\ realm d' <> "" /\ nonce d' <> "" /\ algorithm d' <> ""
  /\ cnonce d' = Fmt.hex_bytes random
  /\ String.length (cnonce d') = (2 * length random)%nat
  /\ all_chars is_lower_hex (cnonce d') = true
  /\ nc d' = nc d
  /\ forall username password method uri,
       HasPrefix (GenerateAuthHeader d' username password method uri)
         "Digest username=" = true.
Proof.
  intros Hparse.
  destruct (HasPrefix h "Digest ") eqn:Hpre.
  2:{ destruct (ParseChallenge_error_no_prefix random d h Hpre) as [msg Hm].
      rewrite Hm in Hparse. discriminate. }
  destruct (HasPrefix_append _ _ Hpre) as [data ->].
  rewrite ParseChallenge_Digest in Hparse. cbv zeta in Hparse.
  set (d1 := assigned d (index (parseKeyValuePairs data))) in *.
  destruct (String.eqb_spec (realm d1) "") as [| Hrealm]; [discriminate |].
  destruct (String.eqb_spec (nonce d1) "") as [| Hnonce]; [discriminate |].
  injection Hparse as <-.
  assert (Halg : algorithm d1 <> "").
  { unfold d1, assigned. simpl.
    destruct (String.eqb_spec (index (parseKeyValuePairs data) "algorithm") "");
      [discriminate | assumption]. }
  destruct (hex_bytes_lower random) as [Hlen Hhex].
  repeat split; try assumption; try reflexivity.
  intros username password method uri. unfold GenerateAuthHeader.
  change (nonce (with_cnonce d1 (generateCnonce random))) with (nonce d1).
  apply String.eqb_neq in Hnonce. rewrite Hnonce.
  destruct (negb (String.eqb (qop _) ""));
    destruct (negb (String.eqb (opaque _) ""));
    destruct (negb (String.eqb (algorithm _) ""));
    rewrite ?append_assoc; reflexivity.
Qed.

(** X10.  A header with the scheme prefix overwrites the five challenge
    fields whatever was stored: from two different states the same
    header gives the same error or success and the same realm, nonce,
    qop, opaque and algorithm; nothing of an earlier challenge
    survives. *)
Theorem ParseChallenge_forgets (random : list byte) (d1 d2 : DigestAuth)
    (h : string) :
  HasPrefix h "Digest " = true ->
  snd (ParseChallenge random d1 h) = snd (ParseChallenge random d2 h)
  /\ realm (fst (ParseChallenge random d1 h))
     = realm (fst (ParseChallenge random d2 h))
  /\ nonce (fst (ParseChallenge random d1 h))
     = nonce (fst (ParseChallenge random d2 h))
  /\ qop (fst (ParseChallenge random d1 h))
     = qop (fst (ParseChallenge random d2 h))
  /\ opaque (fst (ParseChallenge random d1 h))
     = opaque (fst (ParseChallenge random d2 h))
  /\ algorithm (fst (ParseChallenge random d1 h))
     = algorithm (fst (ParseChallenge random d2 h)).
Proof.
  intros Hpre. destruct (HasPrefix_append _ _ Hpre) as [data ->].
  rewrite !ParseChallenge_Digest. cbv zeta.
  change (realm (assigned d1 (index (parseKeyValuePairs data))))
    with (index (parseKeyValuePairs data) "realm").
  change (realm (assigned d2 (index (parseKeyValuePairs data))))
    with (index (parseKeyValuePairs data) "realm").
  change (nonce (assigned d1 (index (parseKeyValuePairs data))))
    with (index (parseKeyValuePairs data) "nonce").
  change (nonce (assigned d2 (index (parseKeyValuePairs data))))
    with (index (parseKeyValuePairs data) "nonce").
  destruct (String.eqb (index (parseKeyValuePairs data) "realm") "");
    [repeat split |].
  destruct (String.eqb (index (parseKeyValuePairs data) "nonce") "");
    repeat split.
Qed.

(** X11.  The nonce counter of a client never moves: in every state that
    the constructor and any sequence of challenges can reach it is 1,
    the header carries [nc=00000001], and the hash of the mode auth is
    taken over that same text. *)
Theorem nonce_count_never_increments (d : DigestAuth) :
  reachable d ->
  nc d = 1
  /\ Fmt.Sprintf_08x (nc d) = "00000001"
  /\ (forall ha1 ha2,
        generateResponseWithQop d ha1 ha2
        = md5hex (ha1 +:+ ":" +:+ nonce d +:+ ":" +:+ "00000001" +:+ ":"
                  +:+ cnonce d +:+ ":" +:+ qop d +:+ ":" +:+ ha2))
  /\ (forall username password method uri,
        nonce d <> "" -> qop d <> "" ->
        exists before after,
          GenerateAuthHeader d username password method uri
          = before +:+ ", nc=00000001" +:+ after).
Proof.
  intros Hreach. pose proof (reachable_nc d Hreach) as Hnc.
  split; [exact Hnc |]. split; [rewrite Hnc; reflexivity |]. split.
  - intros ha1 ha2. unfold generateResponseWithQop. rewrite Hnc. reflexivity.
  - intros username password method uri Hnonce Hqop.
    unfold GenerateAuthHeader.
    apply String.eqb_neq in Hnonce, Hqop. rewrite Hnonce, Hqop, Hnc.
    cbn [negb].
    change (Fmt.Sprintf_08x 1) with "00000001".
    generalize (if String.eqb (qop d) "auth"
                then generateResponseWithQop d (generateHA1 d username password)
                       (generateHA2 method uri)
                else generateResponseWithoutQop d
                       (generateHA1 d username password)
                       (generateHA2 method uri)).
    intros response.
    exists ("Digest " +:+ "username=" +:+ quoted username
            +:+ ", realm=" +:+ quoted (realm d)
            +:+ ", nonce=" +:+ quoted (nonce d)
            +:+ ", uri=" +:+ quoted uri
            +:+ ", response=" +:+ quoted response
            +:+ ", qop=" +:+ qop d).
    exists (", cnonce=" +:+ quoted (cnonce d)
            +:+ (if negb (String.eqb (opaque d) "")
                 then ", opaque=" +:+ quoted (opaque d) else "")
            +:+ (if negb (String.eqb (algorithm d) "")
                 then ", algorithm=" +:+ algorithm d else "")).
    destruct (negb (String.eqb (opaque d) ""));
      destruct (negb (String.eqb (algorithm d) ""));
      rewrite ?append_assoc, ?append_nil_l, ?append_nil_r; reflexivity.
Qed.

End AuthenticatorLife.

Lemma ParseChallenge_success_ready_witness :
  Auth.ParseChallenge Examples.test_random Auth.NewDigestAuth
    ("Digest " +:+ Spec.render Examples.test_challenge)
  = (Examples.test_state, None)
  /\ Auth.nonce Examples.test_state <> ""
  /\ String.length (Auth.cnonce Examples.test_state) = 32%nat.
Proof.
  assert (H : Auth.ParseChallenge Examples.test_random Auth.NewDigestAuth
                ("Digest " +:+ Spec.render Examples.test_challenge)
              = (Examples.test_state, None)) by (vm_compute; reflexivity).
  split; [exact H |].
  pose proof (ParseChallenge_success_ready _ _ _ _ H)
    as (_ & _ & Hnonce & _ & _ & Hlen & _).
  split; [exact Hnonce | exact Hlen].
Defined.

Lemma ParseChallenge_forgets_witness :
  Auth.HasPrefix ("Digest realm=" +:+ Auth.quoted "test") "Digest " = true
  /\ Auth.nonce
       (fst (Auth.ParseChallenge [] Examples.test_state
               ("Digest realm=" +:+ Auth.quoted "test")))
     = Auth.nonce
         (fst (Auth.ParseChallenge [] Auth.NewDigestAuth
                 ("Digest realm=" +:+ Auth.quoted "test"))).
Proof.
  assert (H : Auth.HasPrefix ("Digest realm=" +:+ Auth.quoted "test") "Digest "
              = true) by reflexivity.
  split; [exact H |].
  exact (proj1 (proj2 (proj2 (ParseChallenge_forgets [] Examples.test_state
                                Auth.NewDigestAuth _ H)))).
Defined.

Lemma nonce_count_never_increments_witness :
  Spec.reachable
    (fst (Auth.ParseChallenge Examples.test_random
            (fst (Auth.ParseChallenge Examples.test_random Auth.NewDigestAuth
                    ("Digest " +:+ Spec.render Examples.test_challenge)))
            ("Digest " +:+ Spec.render Examples.test_challenge)))
  /\ Auth.nc
       (fst (Auth.ParseChallenge Examples.test_random
               (fst (Auth.ParseChallenge Examples.test_random Auth.NewDigestAuth
                       ("Digest " +:+ Spec.render Examples.test_challenge)))
               ("Digest " +:+ Spec.render Examples.test_challenge))) = 1.
Proof.
  assert (H : Spec.reachable
                (fst (Auth.ParseChallenge Examples.test_random
                        (fst (Auth.ParseChallenge Examples.test_random
                                Auth.NewDigestAuth
                                ("Digest " +:+ Spec.render Examples.test_challenge)))
                        ("Digest " +:+ Spec.render Examples.test_challenge))))
    by (repeat constructor).
  split; [exact H |].
  exact (proj1 (nonce_count_never_increments _ H)).
Defined.

(** ** What the parser of key-value pairs keeps and drops *)

Section PairsFacts.
Import Errors Auth Spec.

Lemma span_class (f : ascii -> bool) (s a b : string) :
  span f s = (a, b) -> all_chars f a = true.
Proof.
  revert a b. induction s as [| c s IH]; intros a b Hspan; simpl in Hspan.
  - injection Hspan as <- <-. reflexivity.
  - destruct (f c) eqn:Hc.
    + destruct (span f s) as [a' b'] eqn:Hs. injection Hspan as <- <-.
      simpl. rewrite Hc. exact (IH a' b' eq_refl).
    + injection Hspan as <- <-. reflexivity.
Qed.

Lemma all_chars_append (f : ascii -> bool) (a b : string) :
  all_chars f (a +:+ b) = all_chars f a && all_chars f b.
Proof.
  induction a as [| c a IH]; [reflexivity |].
  rewrite append_cons. simpl. rewrite IH, andb_assoc. reflexivity.
Qed.

(** The value that [parseKeyValuePairs] takes from a match. *)
Local Abbreviation value_of_match m :=
  (if String.eqb (group2 m) "" then group3 m else group2 m).

(** What holds of every match: the key is a word, the value has no
    double quote in it or no comma and white space, and the matched
    text had an equals sign. *)
Lemma match_here_shape (s : string) (m : submatch) (rest : string) :
  match_here s = Some (m, rest) ->
  is_key (group1 m) = true
  /\ (all_chars not_dquote (value_of_match m) = true
      \/ all_chars not_comma_space (value_of_match m) = true)
  /\ all_chars (fun c => negb (Ascii.eqb c "=")) s = false.
Proof.
  unfold match_here. destruct (span is_word s) as [key s1] eqn:Hkey.
  pose proof (span_class _ _ _ _ Hkey) as Hword.
  apply span_append in Hkey. subst s.
  destruct (String.eqb key "") eqn:Hne; [discriminate |].
  destruct s1 as [| c s2]; [discriminate |].
  destruct (Ascii.eqb_spec c "=") as [-> |]; [| discriminate].
  assert (Heq : all_chars (fun c => negb (Ascii.eqb c "="))
                  (key +:+ String "=" s2) = false).
  { rewrite all_chars_append. simpl. apply andb_false_r. }
  assert (Hk : is_key key = true)
    by (unfold is_key; rewrite Hne, Hword; reflexivity).
  destruct (match_quoted s2) as [[q r] |] eqn:Hq.
  - intros H. injection H as <- <-. split; [exact Hk |]. split; [| exact Heq].
    simpl. left. unfold match_quoted in Hq.
    destruct s2 as [| c1 s3]; [discriminate |].
    destruct (Ascii.eqb c1 dquote); [| discriminate].
    destruct (span not_dquote s3) as [q' s4] eqn:Hspan.
    destruct s4 as [| c4 r']; [discriminate |].
    injection Hq as <- <-.
    destruct (String.eqb q' ""); [reflexivity |].
    exact (span_class _ _ _ _ Hspan).
  - destruct (span not_comma_space s2) as [v r] eqn:Hv.
    destruct (String.eqb v ""); [discriminate |].
    intros H. injection H as <- <-. split; [exact Hk |]. split; [| exact Heq].
    simpl. right. exact (span_class _ _ _ _ Hv).
Qed.

Lemma find_all_shape (fuel : nat) :
  forall s : string,
    Forall (fun m => is_key (group1 m) = true
                     /\ (all_chars not_dquote (value_of_match m) = true
                         \/ all_chars not_comma_space (value_of_match m) = true))
      (find_all fuel s).
Proof.
  induction fuel as [| fuel IH]; intros s; [constructor |].
  destruct s as [| c s']; [constructor |]. simpl find_all.
  destruct (match_here (String c s')) as [[m rest] |] eqn:Hm; [| apply IH].
  constructor; [| apply IH].
  destruct (match_here_shape _ _ _ Hm) as (Hk & Hv & _). auto.
Qed.

(** X12.  Every key of the map is a non-empty word of the characters
    [0-9A-Za-z_], and every value is free of double quotes or free of
    commas and white space: whatever the text, nothing else gets into
    the map. *)
Theorem parseKeyValuePairs_shape (data key value : string) :
  parseKeyValuePairs data !! key = Some value ->
  is_key key = true
  /\ (all_chars not_dquote value = true
      \/ all_chars not_comma_space value = true).
Proof.
  unfold parseKeyValuePairs, FindAllStringSubmatch.
  pose proof (find_all_shape (String.length data) data) as Hall.
  revert Hall. generalize (find_all (String.length data) data). intros ms Hall.
  assert (Hgen : forall m0 : gmap string string,
             (forall k v, m0 !! k = Some v ->
                is_key k = true
                /\ (all_chars not_dquote v = true
                    \/ all_chars not_comma_space v = true)) ->
             forall k v,
               fold_left
                 (fun (pairs : gmap string string) (m : submatch) =>
                    let key := group1 m in
                    let value := group2 m in
                    let value := if String.eqb value "" then group3 m else value in
                    <[key := value]> pairs) ms m0 !! k = Some v ->
               is_key k = true
               /\ (all_chars not_dquote v = true
                   \/ all_chars not_comma_space v = true)).
  { induction Hall as [| m ms Hm Hms IH]; intros m0 Hm0 k v; [apply Hm0 |].
    simpl fold_left. apply IH. intros k' v' Hlook.
    destruct (decide (group1 m = k')) as [<- | Hne].
    - rewrite lookup_insert_eq in Hlook. injection Hlook as <-. exact Hm.
    - rewrite lookup_insert_ne in Hlook by exact Hne. apply Hm0, Hlook. }
  apply Hgen. intros k v Hlook. rewrite lookup_empty in Hlook. discriminate.
Qed.

Lemma find_all_no_equals (fuel : nat) :
  forall s : string,
    all_chars (fun c => negb (Ascii.eqb c "=")) s = true ->
    find_all fuel s = [].
Proof.
  induction fuel as [| fuel IH]; intros s Hs; [reflexivity |].
  destruct s as [| c s']; [reflexivity |]. simpl find_all.
  destruct (match_here (String c s')) as [[m rest] |] eqn:Hm.
  - destruct (match_here_shape _ _ _ Hm) as (_ & _ & Heq). congruence.
  - apply IH. simpl in Hs. apply andb_prop in Hs as [_ Hs]. exact Hs.
Qed.

(** X13.  A text without an equals sign has no pairs: the map is empty, and
    as a challenge after the scheme prefix it is rejected for its
    missing realm, after the stored fields have been emptied and the
    algorithm set to MD5. *)
Theorem parseKeyValuePairs_no_equals (data : string) :
  all_chars (fun c => negb (Ascii.eqb c "=")) data = true ->
  parseKeyValuePairs data = ∅
  /\ forall (random : list byte) (d : DigestAuth),
       ParseChallenge random d ("Digest " +:+ data)
       = ({| realm := ""; nonce := ""; qop := ""; opaque := "";
             algorithm := "MD5"; nc := nc d; cnonce := cnonce d |},
          Some (OtherErr "missing realm in digest challenge")).
Proof.
  intros Hs.
  assert (Hmap : parseKeyValuePairs data = ∅).
  { unfold parseKeyValuePairs, FindAllStringSubmatch.
    rewrite find_all_no_equals by exact Hs. reflexivity. }
  split; [exact Hmap |].
  intros random d. rewrite ParseChallenge_Digest, Hmap. reflexivity.
Qed.

(** X14.  When a key is repeated, its last occurrence wins: a parameter
    that no later parameter of a well-formed challenge repeats is in
    the map with its own value, whatever came before it. *)
Theorem parseKeyValuePairs_last_wins (l1 l2 : list (param * string))
    (p : param) (sep : string) :
  challenge_ok (l1 ++ (p, sep) :: l2) = true ->
  param_key p ∉ (pairs_of l2).*1 ->
  parseKeyValuePairs (render (l1 ++ (p, sep) :: l2)) !! param_key p
  = Some (param_value p).
Proof.
  intros Hok Hlast.
  rewrite parseKeyValuePairs_render_rev by exact Hok.
  unfold pairs_of. rewrite map_app. simpl map. rewrite rev_app_distr.
  simpl rev. rewrite <- app_assoc. simpl app.
  rewrite list_to_map_app.
  rewrite lookup_union_r.
  - simpl list_to_map. apply lookup_insert_eq.
  - apply not_elem_of_list_to_map_1.
    intros Hin. apply Hlast.
    apply list_elem_of_fmap in Hin as (kv & Hk & Hin).
    apply list_elem_of_fmap. exists kv. split; [exact Hk |].
    apply list_elem_of_In, in_rev, list_elem_of_In in Hin. exact Hin.
Qed.

End PairsFacts.

Lemma parseKeyValuePairs_shape_witness :
  Auth.parseKeyValuePairs
    ("realm=" +:+ Auth.quoted "a, b=c" +:+ ",nonce=abc123 , stale=false")
  !! "nonce" = Some "abc123"
  /\ Spec.is_key "nonce" = true.
Proof.
  assert (H : Auth.parseKeyValuePairs
                ("realm=" +:+ Auth.quoted "a, b=c"
                 +:+ ",nonce=abc123 , stale=false")
              !! "nonce" = Some "abc123") by (vm_compute; reflexivity).
  split; [exact H |].
  exact (proj1 (parseKeyValuePairs_shape _ _ _ H)).
Defined.

Lemma parseKeyValuePairs_no_equals_witness :
  Spec.all_chars (fun c => negb (Ascii.eqb c "=")) "realm nonce, qop" = true
  /\ Auth.parseKeyValuePairs "realm nonce, qop" = ∅.
Proof.
  assert (H : Spec.all_chars (fun c => negb (Ascii.eqb c "="))
                "realm nonce, qop" = true) by reflexivity.
  split; [exact H |].
  exact (proj1 (parseKeyValuePairs_no_equals _ H)).
Defined.

(** A realm given twice: the second one is stored. *)
Lemma parseKeyValuePairs_last_wins_witness :
  Spec.challenge_ok
    ([(Spec.Quoted "realm" "first", ", "%string)]
     ++ (Spec.Quoted "realm" "second", ", "%string)
     :: [(Spec.Bare "nonce" "abc", ""%string)]) = true
  /\ Auth.parseKeyValuePairs
       (Spec.render
          ([(Spec.Quoted "realm" "first", ", "%string)]
           ++ (Spec.Quoted "realm" "second", ", "%string)
           :: [(Spec.Bare "nonce" "abc", ""%string)]))
     !! "realm" = Some "second".
Proof.
  assert (H : Spec.challenge_ok
                ([(Spec.Quoted "realm" "first", ", "%string)]
                 ++ (Spec.Quoted "realm" "second", ", "%string)
                 :: [(Spec.Bare "nonce" "abc", ""%string)]) = true)
    by reflexivity.
  split; [exact H |].
  apply (parseKeyValuePairs_last_wins
           [(Spec.Quoted "realm" "first", ", "%string)]
           [(Spec.Bare "nonce" "abc", ""%string)]
           (Spec.Quoted "realm" "second") ", " H).
  simpl. rewrite list_elem_of_singleton. discriminate.
Defined.

(** ** The credential header, read back *)

Section CredentialRoundTrip.
Import Errors Auth Spec Credential.

Lemma challenge_ok_separated (ps : list param) :
  forallb param_ok ps = true -> challenge_ok (separated ps) = true.
Proof.
  induction ps as [| p ps IH]; [reflexivity |].
  simpl forallb. intros H. apply andb_prop in H as [Hp Hps].
  destruct ps as [| q ps'].
  - simpl. rewrite Hp. reflexivity.
  - change (separated (p :: q :: ps')) with ((p, ", ") :: separated (q :: ps')).
    change (challenge_ok ((p, ", ") :: separated (q :: ps')))
      with (param_ok p && is_separator ", "
            && match separated (q :: ps') with
               | [] => true
               | _ :: _ => negb (String.eqb ", " "")
               end
            && challenge_ok (separated (q :: ps'))).
    rewrite Hp, (IH Hps). destruct (separated (q :: ps')); reflexivity.
Qed.

Lemma lower_hex_class (c : ascii) :
  is_lower_hex c = true -> not_dquote c = true /\ not_comma_space c = true.
Proof.
  destruct c as [[] [] [] [] [] [] [] []]; vm_compute; intros H;
    try discriminate; split; reflexivity.
Qed.

Lemma lower_hex_bare (s : string) :
  all_chars is_lower_hex s = true ->
  all_chars not_dquote s = true /\ all_chars not_comma_space s = true.
Proof.
  induction s as [| c s IH]; [split; reflexivity |].
  simpl. intros H. apply andb_prop in H as [Hc Hs].
  destruct (lower_hex_class c Hc) as [-> ->]. destruct (IH Hs) as [-> ->].
  split; reflexivity.
Qed.

Lemma bare_param_ok (k v : string) :
  is_key k = true -> v <> "" -> bare_or_empty v = true ->
  param_ok (Bare k v) = true.
Proof.
  intros Hk Hne Hv. destruct v as [| c v']; [congruence |].
  unfold bare_or_empty in Hv. apply andb_prop in Hv as [Hc Hall].
  simpl. rewrite Hk, Hc. simpl in Hall. rewrite Hall. reflexivity.
Qed.

Lemma Sprintf_08x_bare (n : Z) :
  0 <= n < 2 ^ 32 -> param_ok (Bare "nc" (Fmt.Sprintf_08x n)) = true.
Proof.
  intros Hn. rewrite Sprintf_08x_hex8 by exact Hn.
  assert (Hhex : all_chars is_lower_hex (nonceCountHex8 n) = true)
    by (apply fixed_hex_lower; reflexivity).
  assert (Hlen : String.length (nonceCountHex8 n) = 8%nat)
    by (unfold nonceCountHex8; rewrite fixed_hex_length; reflexivity).
  destruct (lower_hex_bare _ Hhex) as [Hq Hc].
  destruct (nonceCountHex8 n) as [| c v]; [discriminate |].
  simpl in Hq, Hc |- *. apply andb_prop in Hq as [Hq _].
  rewrite Hc, Hq. reflexivity.
Qed.


Lemma GenerateAuthHeader_render (d : DigestAuth)
    (username password method uri : string) :
  nonce d <> "" ->
  GenerateAuthHeader d username password method uri
  = "Digest "
    +:+ render (separated (params d username uri
                             (response d username password method uri))).
Proof.
  intros Hnonce.
  unfold GenerateAuthHeader, params. fold (response d username password method uri).
  pose proof Hnonce as Hn. apply String.eqb_neq in Hn. rewrite Hn.
  generalize (response d username password method uri). intros r.
  generalize (Fmt.Sprintf_08x (nc d)). intros n8.
  destruct (negb (String.eqb (qop d) ""));
    destruct (negb (String.eqb (opaque d) ""));
    destruct (negb (String.eqb (algorithm d) ""));
    cbn [app separated render render_param];
    generalize (quoted username) (quoted (realm d)) (quoted (nonce d))
      (quoted uri) (quoted r) (quoted (cnonce d)) (quoted (opaque d));
    intros; rewrite ?append_assoc, ?append_nil_r; reflexivity.
Qed.

Lemma params_ok (d : DigestAuth) (username uri r : string) :
  0 <= nc d < 2 ^ 32 ->
  all_chars not_dquote username = true ->
  all_chars not_dquote uri = true ->
  all_chars not_dquote r = true ->
  all_chars not_dquote (realm d) = true ->
  all_chars not_dquote (nonce d) = true ->
  all_chars not_dquote (cnonce d) = true ->
  all_chars not_dquote (opaque d) = true ->
  bare_or_empty (qop d) = true ->
  bare_or_empty (algorithm d) = true ->
  forallb param_ok (params d username uri r) = true.
Proof.
  intros Hnc Hu Huri Hr Hrealm Hnq Hcn Hop Hqop Halg.
  unfold params. rewrite !forallb_app.
  assert (H1 : forallb param_ok
                 [Quoted "username" username; Quoted "realm" (realm d);
                  Quoted "nonce" (nonce d); Quoted "uri" uri;
                  Quoted "response" r] = true).
  { cbn [forallb param_ok]. rewrite Hu, Hrealm, Hnq, Huri, Hr. reflexivity. }
  rewrite H1.
  destruct (String.eqb_spec (qop d) "") as [| Hq];
    destruct (String.eqb_spec (opaque d) "") as [| Ho];
    destruct (String.eqb_spec (algorithm d) "") as [| Ha];
    cbn [negb forallb andb];
    rewrite ?(bare_param_ok "qop" (qop d)), ?(Sprintf_08x_bare (nc d)),
      ?(bare_param_ok "algorithm" (algorithm d)) by (assumption || reflexivity);
    cbn [param_ok]; rewrite ?Hcn, ?Hop; reflexivity.
Qed.

Lemma params_keys_NoDup (d : DigestAuth) (username uri r : string) :
  NoDup (pairs_of (separated (params d username uri r))).*1.
Proof.
  unfold params.
  destruct (negb (String.eqb (qop d) ""));
    destruct (negb (String.eqb (opaque d) ""));
    destruct (negb (String.eqb (algorithm d) ""));
    cbn [app separated pairs_of map fmap list_fmap param_key fst];
    apply (bool_decide_unpack _); vm_compute; exact I.
Qed.

Local Ltac present :=
  unfold index;
  erewrite elem_of_list_to_map_1;
    [ reflexivity
    | assumption
    | cbn [app separated pairs_of map param_key param_value];
      rewrite ?elem_of_cons; tauto ].

Local Ltac absent :=
  unfold index;
  rewrite not_elem_of_list_to_map_1;
    [ cbn [default]; congruence
    | cbn [app separated pairs_of map fmap list_fmap param_key param_value fst];
      rewrite ?elem_of_cons, ?elem_of_nil; intros Hin;
      repeat (destruct Hin as [Hin | Hin]; [discriminate Hin |]); exact Hin ].

(** X15.  The header that [GenerateAuthHeader] writes can be read back.
    When none of the quoted values (user name, URI, realm, nonce, client
    nonce, opaque) contains a double quote, and the bare values (qop,
    algorithm) are empty or free of commas and white space and do not
    begin with a double quote, then the header has the scheme prefix and
    [parseKeyValuePairs], applied to what follows the prefix, gives
    back every value under its key, the response hash included. *)
Theorem GenerateAuthHeader_parses_back (d : DigestAuth)
    (username password method uri : string) :
  nonce d <> "" ->
  0 <= nc d < 2 ^ 32 ->
  all_chars not_dquote username = true ->
  all_chars not_dquote uri = true ->
  all_chars not_dquote (realm d) = true ->
  all_chars not_dquote (nonce d) = true ->
  all_chars not_dquote (cnonce d) = true ->
  all_chars not_dquote (opaque d) = true ->
  bare_or_empty (qop d) = true ->
  bare_or_empty (algorithm d) = true ->
  let header := GenerateAuthHeader d username password method uri in
  let pairs := parseKeyValuePairs (TrimPrefix header "Digest ") in
  HasPrefix header "Digest " = true
  /\ index pairs "username" = username
  /\ index pairs "realm" = realm d
  /\ index pairs "nonce" = nonce d
  /\ index pairs "uri" = uri
  /\ index pairs "response" = response d username password method uri
  /\ index pairs "qop" = qop d
  /\ index pairs "opaque" = opaque d
  /\ index pairs "algorithm" = algorithm d
  /\ (qop d <> ""
      -> index pairs "nc" = Fmt.Sprintf_08x (nc d)
         /\ index pairs "cnonce" = cnonce d).
Proof.
  intros Hnonce Hnc Hu Huri Hrealm Hnq Hcn Hop Hqop Halg header pairs.
  subst pairs header.
  rewrite (GenerateAuthHeader_render d username password method uri Hnonce).
  split; [reflexivity |].
  replace (TrimPrefix ("Digest " +:+ _) "Digest ")
    with (render (separated (params d username uri
                    (response d username password method uri))))
    by reflexivity.
  assert (Hr : all_chars not_dquote (response d username password method uri) = true).
  { unfold response, generateResponseWithQop, generateResponseWithoutQop.
    destruct (String.eqb (qop d) "auth");
      apply lower_hex_bare, md5hex_lower. }
  rewrite parseKeyValuePairs_render
    by (apply challenge_ok_separated, params_ok; assumption)
       || apply params_keys_NoDup.
  pose proof (params_keys_NoDup d username uri
                (response d username password method uri)) as Hnd.
  unfold params in Hnd |- *. revert Hnd.
  generalize (response d username password method uri). intros r.
  generalize (Fmt.Sprintf_08x (nc d)). intros n8.
  destruct (String.eqb_spec (qop d) "") as [Hq | Hq];
    destruct (String.eqb_spec (opaque d) "") as [Ho | Ho];
    destruct (String.eqb_spec (algorithm d) "") as [Ha | Ha];
    cbn [negb]; intros Hnd;
    repeat split; try (intros _); try present; try absent; try split;
    try present; try congruence.
Qed.

End CredentialRoundTrip.

(** * The retried request *)

Section LastCall.
Import Errors Retry.

Variable float64_to_int64_overflow : Z.
Context {St : Type}.
Variables (p : RetryPolicy) (ctx : Context) (operation : @Operation St).

(** The loop, entered within the budget, ends after a call whose
    attempt number is within the budget: it returns the result of that
    call, or the error of the context after that call has failed. *)
Lemma Execute_loop_last_call (fuel : nat) :
  forall (attempt : Z) (lastErr : option error) (s : St) r s',
    Retry.Execute_loop float64_to_int64_overflow p ctx operation fuel attempt
      lastErr s = Some (r, s') ->
    attempt <= MaxAttempts p ->
    exists k : nat,
      attempt + Z.of_nat k <= MaxAttempts p
      /\ s' = after_calls operation (S k) s
      /\ (r = nth_result operation k s
          \/ (r = Some (ctx_Err ctx)
              /\ exists err, nth_result operation k s = Some err)).
Proof.
  induction fuel as [| fuel IH]; intros attempt lastErr s r s' Hrun Hle;
    [discriminate |].
  simpl in Hrun. destruct (Z.leb_spec attempt (MaxAttempts p)); [| lia].
  destruct (operation s) as [[err |] s1] eqn:Hop.
  2:{ injection Hrun as <- <-. exists 0%nat. unfold nth_result. simpl.
      rewrite Hop. split; [lia | auto]. }
  destruct (ShouldRetry p err attempt) eqn:Hretry; cbn [negb] in Hrun.
  2:{ injection Hrun as <- <-. exists 0%nat. unfold nth_result. simpl.
      rewrite Hop. split; [lia | auto]. }
  apply ShouldRetry_true_lt in Hretry.
  destruct (ctx_Done_first _ _ _).
  { injection Hrun as <- <-. exists 0%nat. unfold nth_result. simpl.
    rewrite Hop. split; [lia |]. split; [reflexivity |]. right. eauto. }
  apply IH in Hrun; [| lia].
  replace s1 with (snd (operation s)) in Hrun by (rewrite Hop; reflexivity).
  destruct Hrun as (k & Hk & -> & Hr).
  exists (S k). rewrite after_calls_shift.
  rewrite nth_result_shift in Hr. split; [lia | auto].
Qed.

End LastCall.

Section RetriedRequest.
Import Errors Retry Auth HTTP Client Requests.

Variable float64_to_int64_overflow : Z.
Context {World : Type}.
Variable Do : Request -> World -> (Response + error) * World.
Variable url_Path : string -> string.
Variable NewRequest_error : string -> string -> option error.
Variable decodeErrorResponse : string -> option ErrorResponse.
Variable StatusText : Z -> string.
Variable random : nat -> list byte.
Variable policy : RetryPolicy.
Variable c : Client.

Local Abbreviation executeHTTPRequest :=
  (Client.executeHTTPRequest Do url_Path NewRequest_error c).
Local Abbreviation parseAPIError :=
  (Client.parseAPIError decodeErrorResponse StatusText).
Local Abbreviation operation :=
  (Requests.operation Do url_Path NewRequest_error decodeErrorResponse
     StatusText random c).
Local Abbreviation doRequestWithRetry :=
  (Requests.doRequestWithRetry float64_to_int64_overflow Do url_Path
     NewRequest_error decodeErrorResponse StatusText random policy c).
Local Abbreviation Execute_loop :=
  (Retry.Execute_loop float64_to_int64_overflow policy).

(** The first state of the closure. *)
Local Abbreviation start d w :=
  {| finalResp := None; finalErr := None; digestAuth := d; world := w;
     calls := 0 |}.

(** One call of the closure: a failure is stored in [finalErr], a
    success stores a response with a status below 400 in [finalResp]. *)
(** The attempt number [k] of the request: the exchange that the call
    number [k] of the closure makes, from the authentication state and
    the network that the calls before it have left. *)
Local Abbreviation attempt_of req d w k :=
  (executeHTTPRequest (random k) req
     (digestAuth (after_calls (operation req) k (start d w)),
      world (after_calls (operation req) k (start d w)))).

(** One call of the closure, by the result of its exchange. *)
Lemma operation_eq (req : Request) (s : Run World) :
  operation req s
  = match fst (executeHTTPRequest (random (calls s)) req
                 (digestAuth s, world s)) with
    | inr err =>
        (Some err,
         {| finalResp := finalResp s; finalErr := Some err;
            digestAuth :=
              fst (snd (executeHTTPRequest (random (calls s)) req
                          (digestAuth s, world s)));
            world :=
              snd (snd (executeHTTPRequest (random (calls s)) req
                          (digestAuth s, world s)));
            calls := S (calls s) |})
    | inl resp =>
        if StatusCode resp >=? 400 then
          (Some (APIErr (parseAPIError resp)),
           {| finalResp := finalResp s;
              finalErr := Some (APIErr (parseAPIError resp));
              digestAuth :=
                fst (snd (executeHTTPRequest (random (calls s)) req
                            (digestAuth s, world s)));
              world :=
                snd (snd (executeHTTPRequest (random (calls s)) req
                            (digestAuth s, world s)));
              calls := S (calls s) |})
        else
          (None,
           {| finalResp := Some resp; finalErr := finalErr s;
              digestAuth :=
                fst (snd (executeHTTPRequest (random (calls s)) req
                            (digestAuth s, world s)));
              world :=
                snd (snd (executeHTTPRequest (random (calls s)) req
                            (digestAuth s, world s)));
              calls := S (calls s) |})
    end.
Proof.
  unfold Requests.operation.
  destruct (executeHTTPRequest (random (calls s)) req (digestAuth s, world s))
    as [[resp | err] [d w]]; reflexivity.
Qed.

Lemma calls_after_calls (req : Request) (k : nat) (s : Run World) :
  calls (after_calls (operation req) k s) = (k + calls s)%nat.
Proof.
  induction k as [| k IH]; [reflexivity |].
  cbn [after_calls]. rewrite operation_eq.
  destruct (fst (executeHTTPRequest _ _ _)) as [resp | err];
    [destruct (StatusCode resp >=? 400) |]; cbn [snd calls]; rewrite IH;
    reflexivity.
Qed.

(** X16.  With a budget that is not negative, [doRequestWithRetry]
    returns what its last attempt gave, whatever the context did.  The
    last attempt has a number [k] up to [MaxAttempts]: [Execute]
    returns when the closure has been called [k + 1] times, and the
    authentication state and the network that are left are those after
    the exchange of attempt [k].  If that exchange failed, the result is
    no response and its error; if it gave a response of status 400 or
    more, no response and the classified error of that response; and
    else that response, whose status is below 400, and no error. *)
Theorem doRequestWithRetry_result (ctx : Context) (req : Request)
    (d : DigestAuth) (w : World) :
  0 <= MaxAttempts policy ->
  exists k : nat,
    Z.of_nat k <= MaxAttempts policy
    /\ (exists r,
          Execute float64_to_int64_overflow policy ctx (operation req)
            (start d w)
          = Some (r, after_calls (operation req) (S k) (start d w)))
    /\ doRequestWithRetry ctx req (d, w)
       = Some (match fst (attempt_of req d w k) with
               | inr err => (None, Some err)
               | inl resp =>
                   if StatusCode resp >=? 400
                   then (None, Some (APIErr (parseAPIError resp)))
                   else (Some resp, None)
               end,
               snd (attempt_of req d w k)).
Proof.
  intros Hbudget. unfold Requests.doRequestWithRetry.
  destruct (Execute_returns float64_to_int64_overflow policy ctx
              (operation req) (start d w)) as [[r s'] Hrun].
  rewrite Hrun. pose proof Hrun as Hexec. unfold Execute in Hrun.
  apply Execute_loop_last_call in Hrun; [| exact Hbudget].
  destruct Hrun as (k & Hk & Hs' & Hr).
  exists k. split; [lia |].
  split; [exists r; rewrite Hs'; reflexivity |]. clear Hexec.
  unfold nth_result in Hr. cbn [after_calls] in Hs'.
  pose proof (operation_eq req (after_calls (operation req) k (start d w)))
    as Hop.
  rewrite calls_after_calls in Hop. cbn [calls] in Hop.
  rewrite Nat.add_0_r in Hop.
  rewrite Hop in Hs', Hr. clear Hop. subst s'.
  destruct (fst (attempt_of req d w k)) as [resp | err].
  - destruct (StatusCode resp >=? 400); cbn [fst snd] in *.
    + destruct Hr as [-> | [-> _]];
        cbn [finalErr digestAuth world]; rewrite <- surjective_pairing;
        reflexivity.
    + destruct Hr as [-> | [_ [err Herr]]]; [| discriminate].
      cbn [finalResp digestAuth world]. rewrite <- surjective_pairing.
      reflexivity.
  - cbn [fst snd] in *.
    destruct Hr as [-> | [-> _]];
      cbn [finalErr digestAuth world]; rewrite <- surjective_pairing;
      reflexivity.
Qed.

End RetriedRequest.

(** * The requests that a retried request sends *)

Section RecordedRequests.
Import Errors Retry Auth HTTP Client Requests Servers.

Variable float64_to_int64_overflow : Z.
Context {World : Type}.
Variable Do : Request -> World -> (Response + error) * World.
Variable url_Path : string -> string.
Variable NewRequest_error : string -> string -> option error.
Variable decodeErrorResponse : string -> option ErrorResponse.
Variable StatusText : Z -> string.
Variable random : nat -> list byte.
Variable policy : RetryPolicy.
Variable c : Client.

Local Abbreviation executeHTTPRequest :=
  (Client.executeHTTPRequest (recording Do) url_Path NewRequest_error c).
Local Abbreviation parseAPIError :=
  (Client.parseAPIError decodeErrorResponse StatusText).
Local Abbreviation operation :=
  (Requests.operation (recording Do) url_Path NewRequest_error
     decodeErrorResponse StatusText random c).
Local Abbreviation doRequestWithRetry :=
  (Requests.doRequestWithRetry float64_to_int64_overflow (recording Do)
     url_Path NewRequest_error decodeErrorResponse StatusText random policy c).
Local Abbreviation Execute_loop :=
  (Retry.Execute_loop float64_to_int64_overflow policy).
Local Abbreviation CalculateDelay :=
  (Retry.CalculateDelay float64_to_int64_overflow).

Local Abbreviation start d w :=
  {| finalResp := None; finalErr := None; digestAuth := d; world := w;
     calls := 0 |}.

(** The request of the second send of an attempt: the request as
    given, an empty method written out as [GET], with the credential
    header. *)
Local Abbreviation authenticated req d :=
  {| Method := method_or_GET (Method req);
     URL := URL req;
     ReqHeader :=
       Set_ (ReqHeader req) "Authorization"
         (GenerateAuthHeader d (publicKey c) (privateKey c) (Method req)
            (url_Path (URL req)));
     Body := Body req |}.

(** The error that an answer of status 400 or more, or a failed
    exchange, becomes. *)
Local Abbreviation classified r :=
  match r with
  | inl resp => APIErr (parseAPIError resp)
  | inr err => err
  end.

Lemma executeHTTPRequest_recorded (rnd : list byte) (req : Request)
    (d : DigestAuth) (w : World) (log : list Request) :
  executeHTTPRequest rnd req (d, (w, log))
  = match fst (Do req w) with
    | inr err => (inr err, (d, (snd (Do req w), log ++ [req])))
    | inl resp =>
        if StatusCode resp =? StatusUnauthorized then
          if negb (String.eqb (Get (RespHeader resp) "WWW-Authenticate") "")
          then
            match ParseChallenge rnd d
                    (Get (RespHeader resp) "WWW-Authenticate") with
            | (d', Some perr) =>
                (inr (Errorf_w "failed to parse auth challenge: " perr),
                 (d', (snd (Do req w), log ++ [req])))
            | (d', None) =>
                match NewRequest_error (method_or_GET (Method req)) (URL req) with
                | Some err =>
                    (inr (Errorf_w "failed to create auth request: " err),
                     (d', (snd (Do req w), log ++ [req])))
                | None =>
                    (fst (Do (authenticated req d') (snd (Do req w))),
                     (d', (snd (Do (authenticated req d') (snd (Do req w))),
                           log ++ [req; authenticated req d'])))
                end
            end
          else (inl resp, (d, (snd (Do req w), log ++ [req])))
        else (inl resp, (d, (snd (Do req w), log ++ [req])))
    end.
Proof.
  unfold Client.executeHTTPRequest. rewrite request_eta, recording_eq.
  destruct (fst (Do req w)) as [resp | err]; [| reflexivity].
  destruct (StatusCode resp =? StatusUnauthorized); [| reflexivity].
  destruct (negb _); [| reflexivity].
  destruct (ParseChallenge rnd d _) as [d' [perr |]]; [reflexivity |].
  unfold NewRequest. cbv zeta. cbn [Method URL].
  destruct (NewRequest_error (method_or_GET (Method req)) (URL req)); [reflexivity |].
  cbn [Method URL ReqHeader Body]. rewrite (right_id_L ∅ (∪)).
  rewrite recording_eq. rewrite <- app_assoc. reflexivity.
Qed.

Lemma parseAPIError_StatusCode (resp : Response) :
  Errors.StatusCode (parseAPIError resp) = StatusCode resp.
Proof.
  unfold Client.parseAPIError.
  destruct (decodeErrorResponse (RespBody resp));
    destruct (StatusCode resp =? StatusTooManyRequests); try reflexivity;
    destruct (negb _); try reflexivity;
    destruct (Strconv.ParseInt_10_64 _); reflexivity.
Qed.

Lemma retryable_status (resp : Response) :
  retryable_answer (inl resp) = IsRetryable (parseAPIError resp).
Proof.
  unfold retryable_answer, IsRetryable. rewrite parseAPIError_StatusCode.
  unfold StatusTooManyRequests, StatusInternalServerError, StatusBadGateway,
    StatusServiceUnavailable, StatusGatewayTimeout. cbn [existsb].
  repeat match goal with
         | |- context [?a =? ?b] => destruct (Z.eqb_spec a b)
         end; try reflexivity; lia.
Qed.

(** One call of the closure whose first answer is not a 401, or is an
    error of the exchange: one send, and the authentication state is
    not touched. *)
Lemma operation_plain (req : Request) (s : Run (World * list Request)) :
  (forall resp, fst (Do req (fst (world s))) = inl resp ->
                StatusCode resp <> 401) ->
  operation req s
  = match fst (Do req (fst (world s))) with
    | inl resp =>
        if StatusCode resp >=? 400 then
          (Some (APIErr (parseAPIError resp)),
           {| finalResp := finalResp s;
              finalErr := Some (APIErr (parseAPIError resp));
              digestAuth := digestAuth s;
              world := (snd (Do req (fst (world s))), snd (world s) ++ [req]);
              calls := S (calls s) |})
        else
          (None,
           {| finalResp := Some resp;
              finalErr := finalErr s;
              digestAuth := digestAuth s;
              world := (snd (Do req (fst (world s))), snd (world s) ++ [req]);
              calls := S (calls s) |})
    | inr err =>
        (Some err,
         {| finalResp := finalResp s;
            finalErr := Some err;
            digestAuth := digestAuth s;
            world := (snd (Do req (fst (world s))), snd (world s) ++ [req]);
            calls := S (calls s) |})
    end.
Proof.
  intros Hplain. unfold Requests.operation.
  destruct (world s) as [w log] eqn:Hw. cbn [fst snd] in *.
  rewrite executeHTTPRequest_recorded.
  destruct (fst (Do req w)) as [resp | err]; [| reflexivity].
  destruct (Z.eqb_spec (StatusCode resp) StatusUnauthorized) as [H401 |].
  { exfalso. exact (Hplain resp eq_refl H401). }
  reflexivity.
Qed.

Section KeepsFailing.

Variable req : Request.
Hypothesis Hfail : forall r w, retryable_answer (fst (Do r w)) = true.

Lemma operation_failing (s : Run (World * list Request)) :
  operation req s
  = (Some (classified (fst (Do req (fst (world s))))),
     {| finalResp := finalResp s;
        finalErr := Some (classified (fst (Do req (fst (world s)))));
        digestAuth := digestAuth s;
        world := (snd (Do req (fst (world s))), snd (world s) ++ [req]);
        calls := S (calls s) |})
    /\ retryable (classified (fst (Do req (fst (world s))))) = true.
Proof.
  pose proof (Hfail req (fst (world s))) as Hr.
  rewrite operation_plain.
  - destruct (fst (Do req (fst (world s)))) as [resp | err].
    + rewrite retryable_status in Hr. split; [| exact Hr].
      apply IsRetryable_statuses in Hr. rewrite parseAPIError_StatusCode in Hr.
      destruct (Z.geb_spec (StatusCode resp) 400) as [| Hlt]; [reflexivity |].
      exfalso. revert Hr. rewrite !elem_of_cons, elem_of_nil. lia.
    + split; [reflexivity | exact Hr].
  - intros resp Hresp H401. rewrite Hresp in Hr. simpl in Hr.
    rewrite H401 in Hr. discriminate.
Qed.

Lemma failing_after_calls (d : DigestAuth) (w : World) (k : nat) :
  exists fe,
    after_calls (operation req) k (start d (w, []))
    = {| finalResp := None; finalErr := fe; digestAuth := d;
         world := (world_after Do req k w, replicate k req); calls := k |}.
Proof.
  induction k as [| k [fe IH]]; [simpl; eauto |].
  cbn [after_calls]. rewrite IH.
  rewrite (proj1 (operation_failing _)).
  cbn [snd fst world finalResp digestAuth calls].
  eexists. rewrite <- replicate_S_end. reflexivity.
Qed.

Lemma failing_nth_result (d : DigestAuth) (w : World) (k : nat) :
  nth_result (operation req) k (start d (w, []))
  = Some (classified (fst (Do req (world_after Do req k w))))
  /\ retryable (classified (fst (Do req (world_after Do req k w)))) = true
  /\ after_calls (operation req) (S k) (start d (w, []))
     = {| finalResp := None;
          finalErr := Some (classified (fst (Do req (world_after Do req k w))));
          digestAuth := d;
          world := (world_after Do req (S k) w, replicate (S k) req);
          calls := S k |}.
Proof.
  destruct (failing_after_calls d w k) as (fe & Hk).
  unfold nth_result. cbn [after_calls]. rewrite Hk.
  destruct (operation_failing
              {| finalResp := None; finalErr := fe; digestAuth := d;
                 world := (world_after Do req k w, replicate k req);
                 calls := k |}) as [-> Hr].
  cbn [fst snd world finalResp digestAuth calls] in *.
  split; [reflexivity |]. split; [exact Hr |].
  rewrite <- replicate_S_end. reflexivity.
Qed.

(** X17.  A server that keeps failing with a retried status, or an
    exchange that keeps failing, under a context that is never
    cancelled: the request is sent [MaxAttempts + 1] times, always as it
    was given, the authentication state is not touched, and the result
    is the error of the last of these answers, the one to the send
    number [MaxAttempts + 1]. *)
Theorem doRequestWithRetry_persistent_failure (ctx : Context)
    (d : DigestAuth) (w : World) :
  0 <= MaxAttempts policy ->
  (forall attempt delay, ctx_Done_first ctx attempt delay = false) ->
  doRequestWithRetry ctx req (d, (w, []))
  = Some ((None,
           Some (classified
                   (fst (Do req (world_after Do req
                                   (Z.to_nat (MaxAttempts policy)) w))))),
          (d, (world_after Do req (S (Z.to_nat (MaxAttempts policy))) w,
               replicate (S (Z.to_nat (MaxAttempts policy))) req)))
  /\ retryable (classified
                  (fst (Do req (world_after Do req
                                  (Z.to_nat (MaxAttempts policy)) w))))
     = true.
Proof.
  intros Hbudget Hctx.
  set (M := Z.to_nat (MaxAttempts policy)).
  destruct (failing_nth_result d w M) as (He & Hr & Hs).
  split; [| exact Hr].
  unfold Requests.doRequestWithRetry, Execute, Execute_fuel.
  replace (S (Z.to_nat (MaxAttempts policy + 1))) with (M + 2)%nat by lia.
  destruct (Execute_loop_retries float64_to_int64_overflow policy ctx
              (operation req) M 2 0 None (start d (w, []))) as [lastErr' ->].
  { intros j Hj. destruct (failing_nth_result d w j) as (Hej & Hrj & _).
    eexists. split; [exact Hej |].
    rewrite Hctx, ShouldRetry_within_budget by lia. auto. }
  rewrite (Execute_loop_give_up float64_to_int64_overflow policy ctx
             (operation req) 1 _ _ _
             (classified (fst (Do req (world_after Do req M w)))));
    [| lia | exact He | apply ShouldRetry_budget_spent; lia].
  change (snd (operation req (after_calls (operation req) M (start d (w, [])))))
    with (after_calls (operation req) (S M) (start d (w, []))).
  rewrite Hs. reflexivity.
Qed.

(** X18.  The same server, and a context that is cancelled during the
    wait after attempt [k]: [k + 1] requests have been sent, and the
    result is the error of the last of these answers, the one to the
    send number [k + 1]; the error of the context, which [Execute]
    returns, is dropped. *)
Theorem doRequestWithRetry_cancelled (ctx : Context)
    (d : DigestAuth) (w : World) (k : nat) :
  Z.of_nat k < MaxAttempts policy ->
  (forall j : nat, (j < k)%nat ->
     ctx_Done_first ctx (Z.of_nat j) (CalculateDelay policy (Z.of_nat j + 1))
     = false) ->
  ctx_Done_first ctx (Z.of_nat k) (CalculateDelay policy (Z.of_nat k + 1))
  = true ->
  Execute float64_to_int64_overflow policy ctx (operation req)
    (start d (w, []))
  = Some (Some (ctx_Err ctx),
          after_calls (operation req) (S k) (start d (w, [])))
  /\ doRequestWithRetry ctx req (d, (w, []))
     = Some ((None,
              Some (classified (fst (Do req (world_after Do req k w))))),
             (d, (world_after Do req (S k) w, replicate (S k) req))).
Proof.
  intros Hlt Hwaits Hcancel.
  assert (Hfuel : exists f, Execute_fuel policy = (k + S f)%nat).
  { exists (Z.to_nat (MaxAttempts policy + 1) - k)%nat.
    unfold Execute_fuel. lia. }
  destruct Hfuel as [f Hfuel].
  destruct (failing_nth_result d w k) as (He & Hr & Hs).
  assert (Hrun : Execute float64_to_int64_overflow policy ctx (operation req)
                   (start d (w, []))
                 = Some (Some (ctx_Err ctx),
                         after_calls (operation req) (S k) (start d (w, [])))).
  { unfold Execute. rewrite Hfuel.
    destruct (Execute_loop_retries float64_to_int64_overflow policy ctx
                (operation req) k (S f) 0 None (start d (w, [])))
      as [lastErr' ->].
    { intros j Hj. destruct (failing_nth_result d w j) as (Hej & Hrj & _).
      eexists. split; [exact Hej |].
      rewrite !Z.add_0_l, ShouldRetry_within_budget by lia.
      auto using Hwaits. }
    rewrite Z.add_0_l.
    rewrite (Execute_loop_cancelled float64_to_int64_overflow policy ctx
               (operation req) f _ _ _
               (classified (fst (Do req (world_after Do req k w)))));
      [reflexivity | exact He | | exact Hcancel].
    rewrite ShouldRetry_within_budget by lia. exact Hr. }
  split; [exact Hrun |].
  unfold Requests.doRequestWithRetry. rewrite Hrun, Hs. reflexivity.
Qed.

End KeepsFailing.

(** One attempt whose only answer is not a 401 and is not retried ends
    the request. *)
Lemma doRequestWithRetry_single (ctx : Context) (req : Request)
    (d : DigestAuth) (w : World) (resp : Response) :
  0 <= MaxAttempts policy ->
  fst (Do req w) = inl resp ->
  StatusCode resp <> 401 ->
  retryable_answer (inl resp) = false ->
  doRequestWithRetry ctx req (d, (w, []))
  = Some (if StatusCode resp >=? 400
          then (None, Some (APIErr (parseAPIError resp)))
          else (Some resp, None),
          (d, (snd (Do req w), [req]))).
Proof.
  intros Hbudget Hresp H401 Hretry.
  assert (Hop : operation req (start d (w, []))
                = if StatusCode resp >=? 400 then
                    (Some (APIErr (parseAPIError resp)),
                     {| finalResp := None;
                        finalErr := Some (APIErr (parseAPIError resp));
                        digestAuth := d; world := (snd (Do req w), [req]);
                        calls := 1 |})
                  else
                    (None,
                     {| finalResp := Some resp; finalErr := None;
                        digestAuth := d; world := (snd (Do req w), [req]);
                        calls := 1 |})).
  { rewrite operation_plain; cbn [world fst snd finalResp finalErr digestAuth calls].
    - rewrite Hresp. reflexivity.
    - intros resp' Hresp'. rewrite Hresp in Hresp'. injection Hresp' as <-.
      exact H401. }
  unfold Requests.doRequestWithRetry, Execute, Execute_fuel.
  destruct (StatusCode resp >=? 400) eqn:Hge.
  - rewrite (Execute_loop_give_up float64_to_int64_overflow policy ctx
               (operation req) _ _ _ _ (APIErr (parseAPIError resp)));
      [rewrite Hop; reflexivity | lia | rewrite Hop; reflexivity |].
    unfold ShouldRetry. destruct (0 >=? MaxAttempts policy); [reflexivity |].
    rewrite <- retryable_status. exact Hretry.
  - rewrite (Execute_loop_success float64_to_int64_overflow policy ctx
               (operation req)); [rewrite Hop; reflexivity | lia |].
    rewrite Hop. reflexivity.
Qed.

(** X19.  Credentials that the server does not accept: the request
    without credentials is answered with a 401 and a challenge, and the
    request with the credential header (the request as given, an empty
    method written out as [GET]) is answered with a 401 again.  The
    result is the authentication error of the second answer after
    exactly these two sends: the retry policy does not repeat the
    handshake, whatever its budget and the context. *)
Theorem doRequestWithRetry_bad_credentials (ctx : Context) (req : Request)
    (d d' : DigestAuth) (w : World) (resp1 resp2 : Response) :
  0 <= MaxAttempts policy ->
  fst (Do req w) = inl resp1 ->
  StatusCode resp1 = 401 ->
  Get (RespHeader resp1) "WWW-Authenticate" <> "" ->
  ParseChallenge (random 0) d (Get (RespHeader resp1) "WWW-Authenticate")
  = (d', None) ->
  NewRequest_error (method_or_GET (Method req)) (URL req) = None ->
  fst (Do (authenticated req d') (snd (Do req w))) = inl resp2 ->
  StatusCode resp2 = 401 ->
  doRequestWithRetry ctx req (d, (w, []))
  = Some ((None, Some (APIErr (parseAPIError resp2))),
          (d', (snd (Do (authenticated req d') (snd (Do req w))),
                [req; authenticated req d'])))
  /\ IsAuthenticationError (parseAPIError resp2) = true
  /\ IsRetryable (parseAPIError resp2) = false.
Proof.
  intros Hbudget Hresp1 H401 Hchal Hparse Hnew Hresp2 H401'.
  assert (Hauth : IsAuthenticationError (parseAPIError resp2) = true).
  { unfold IsAuthenticationError. rewrite parseAPIError_StatusCode, H401'.
    reflexivity. }
  assert (Hretry : IsRetryable (parseAPIError resp2) = false).
  { unfold IsRetryable. rewrite parseAPIError_StatusCode, H401'. reflexivity. }
  split; [| split; assumption].
  assert (Hop : operation req (start d (w, []))
                = (Some (APIErr (parseAPIError resp2)),
                   {| finalResp := None;
                      finalErr := Some (APIErr (parseAPIError resp2));
                      digestAuth := d';
                      world := (snd (Do (authenticated req d') (snd (Do req w))),
                                [req; authenticated req d']);
                      calls := 1 |})).
  { unfold Requests.operation. cbn [world digestAuth calls finalResp finalErr].
    rewrite executeHTTPRequest_recorded, Hresp1, H401.
    apply String.eqb_neq in Hchal. rewrite Hchal.
    change (401 =? StatusUnauthorized) with true. cbn [negb].
    rewrite Hparse, Hnew, Hresp2, H401'. reflexivity. }
  unfold Requests.doRequestWithRetry, Execute, Execute_fuel.
  rewrite (Execute_loop_give_up float64_to_int64_overflow policy ctx
             (operation req) _ _ _ _ (APIErr (parseAPIError resp2)));
    [rewrite Hop; reflexivity | lia | rewrite Hop; reflexivity |].
  unfold ShouldRetry. destruct (0 >=? MaxAttempts policy); [reflexivity |].
  exact Hretry.
Qed.

(** Every call of the closure sends the request as it was given and
    then, at most, the same request with the credential header. *)
Lemma executeHTTPRequest_sends (rnd : list byte) (req : Request)
    (d : DigestAuth) (w : World) (log : list Request) :
  exists sent,
    snd (snd (snd (executeHTTPRequest rnd req (d, (w, log)))))
    = log ++ req :: sent
    /\ (sent = [] \/ exists d', sent = [authenticated req d']).
Proof.
  rewrite executeHTTPRequest_recorded.
  destruct (fst (Do req w)) as [resp | err]; [| simpl; eauto].
  destruct (StatusCode resp =? StatusUnauthorized); [| simpl; eauto].
  destruct (negb _); [| simpl; eauto].
  destruct (ParseChallenge _ _ _) as [d' [perr |]]; [simpl; eauto |].
  destruct (NewRequest_error _ _); simpl; eauto.
Qed.

Lemma operation_world (req : Request) (s : Run (World * list Request)) :
  world (snd (operation req s))
  = snd (snd (executeHTTPRequest (random (calls s)) req
                (digestAuth s, world s))).
Proof.
  unfold Requests.operation.
  destruct (executeHTTPRequest _ _ _) as [[resp | err] [d w]];
    [destruct (StatusCode resp >=? 400) |]; reflexivity.
Qed.

Lemma operation_sends (req : Request) (s : Run (World * list Request)) :
  exists sent,
    snd (world (snd (operation req s))) = snd (world s) ++ req :: sent
    /\ (sent = [] \/ exists d', sent = [authenticated req d']).
Proof.
  rewrite operation_world. destruct (world s) as [w log].
  apply executeHTTPRequest_sends.
Qed.

Lemma Execute_loop_sends (ctx : Context) (req : Request) (fuel : nat) :
  forall (attempt : Z) (lastErr : option error) s r s',
    Execute_loop ctx (operation req) fuel attempt lastErr s = Some (r, s') ->
    exists sent,
      snd (world s') = snd (world s) ++ sent
      /\ Z.of_nat (length sent) <= 2 * Z.max 0 (MaxAttempts policy + 1 - attempt)
      /\ Forall (fun r => r = req \/ exists d', r = authenticated req d') sent
      /\ (attempt <= MaxAttempts policy -> exists rest, sent = req :: rest).
Proof.
  induction fuel as [| fuel IH]; intros attempt lastErr s r s' Hrun;
    [discriminate |].
  simpl in Hrun. destruct (Z.leb_spec attempt (MaxAttempts policy)) as [Hle | Hgt].
  2:{ injection Hrun as <- <-. exists []. rewrite app_nil_r.
      split; [reflexivity |]. split; [simpl; lia |].
      split; [constructor | lia]. }
  destruct (operation_sends req s) as (sent & Hsent & Hshape).
  assert (Hone : Z.of_nat (length (req :: sent)) <= 2
                 /\ Forall (fun r => r = req \/ exists d', r = authenticated req d')
                      (req :: sent)).
  { destruct Hshape as [-> | [d' ->]]; (split; [simpl; lia |]).
    - constructor; [left; reflexivity | constructor].
    - constructor; [left; reflexivity |].
      constructor; [right; eauto | constructor]. }
  destruct Hone as [Hlen Hall].
  assert (Hstop : exists sent0,
             snd (world (snd (operation req s))) = snd (world s) ++ sent0
             /\ Z.of_nat (length sent0)
                <= 2 * Z.max 0 (MaxAttempts policy + 1 - attempt)
             /\ Forall (fun r => r = req \/ exists d', r = authenticated req d')
                  sent0
             /\ (attempt <= MaxAttempts policy -> exists rest, sent0 = req :: rest)).
  { exists (req :: sent). split; [exact Hsent |]. split; [lia |].
    split; [exact Hall | eauto]. }
  destruct (operation req s) as [[err |] s1] eqn:Hop; cbn [snd] in *.
  2:{ injection Hrun as <- <-. exact Hstop. }
  destruct (negb (ShouldRetry policy err attempt)).
  { injection Hrun as <- <-. exact Hstop. }
  destruct (ctx_Done_first _ _ _).
  { injection Hrun as <- <-. exact Hstop. }
  apply IH in Hrun. destruct Hrun as (more & Hmore & Hlen' & Hall' & _).
  exists ((req :: sent) ++ more). rewrite Hmore, Hsent, <- app_assoc.
  split; [reflexivity |]. rewrite length_app, Nat2Z.inj_add.
  split; [lia |]. split; [apply Forall_app; auto |].
  intros _. simpl. eauto.
Qed.

(** X20.  Whatever the server answers and whatever the context does, a
    retried request sends at least one and at most
    [2 * (MaxAttempts + 1)] requests; the first one is the request as it
    was given, and every one is either that request or the request of
    the second send of a handshake: the same URL, body and other
    headers, the [Authorization] header set, and the same method, an
    empty method being written out as [GET]. *)
Theorem doRequestWithRetry_sends (ctx : Context) (req : Request)
    (d : DigestAuth) (w : World) :
  0 <= MaxAttempts policy ->
  exists out d' w' rest,
    doRequestWithRetry ctx req (d, (w, []))
    = Some (out, (d', (w', req :: rest)))
    /\ Z.of_nat (length (req :: rest)) <= 2 * (MaxAttempts policy + 1)
    /\ Forall (fun r => r = req \/ exists d0, r = authenticated req d0)
         (req :: rest).
Proof.
  intros Hbudget. unfold Requests.doRequestWithRetry.
  destruct (Execute_returns float64_to_int64_overflow policy ctx
              (operation req) (start d (w, []))) as [[r s'] Hrun].
  rewrite Hrun. unfold Execute in Hrun.
  apply Execute_loop_sends in Hrun.
  destruct Hrun as (sent & Hsent & Hlen & Hall & Hfirst).
  destruct (Hfirst Hbudget) as [rest ->].
  cbn [world snd app] in Hsent.
  rewrite Z.max_r in Hlen by lia. rewrite Z.sub_0_r in Hlen.
  destruct (world s') as [w' log] eqn:Hw. cbn [snd] in Hsent. subst log.
  destruct r as [err |]; do 4 eexists; (split; [reflexivity | auto]).
Qed.

End RecordedRequests.

(** * The project operations *)

Section ProjectOperations.
Import Errors Retry Auth HTTP Client Requests Servers.

Variable float64_to_int64_overflow : Z.
Context {World : Type}.
Variable Do : Request -> World -> (Response + error) * World.
Variable url_Path : string -> string.
Variable NewRequest_error : string -> string -> option error.
Variable decodeErrorResponse : string -> option ErrorResponse.
Variable StatusText : Z -> string.
Variable random : nat -> list byte.
Variable policy : RetryPolicy.
Variable baseURL : string.
Variable c : Client.
Context {ListProjectsResp CreateProjectReq CreateProjectResp : Type}.
Variable decodeListProjectsResp : string -> ListProjectsResp + error.
Variable Marshal : CreateProjectReq -> string + error.
Variable decodeCreateProjectResp : string -> CreateProjectResp + error.

Local Abbreviation parseAPIError :=
  (Client.parseAPIError decodeErrorResponse StatusText).
Local Abbreviation ListProjects :=
  (Requests.ListProjects float64_to_int64_overflow (recording Do) url_Path
     NewRequest_error decodeErrorResponse StatusText random policy baseURL c
     decodeListProjectsResp).
Local Abbreviation CreateProject :=
  (Requests.CreateProject float64_to_int64_overflow (recording Do) url_Path
     NewRequest_error decodeErrorResponse StatusText random policy baseURL c
     Marshal decodeCreateProjectResp).

(** The requests that the operations build. *)
Local Abbreviation list_request :=
  {| Method := "GET"; URL := projects_url baseURL; ReqHeader := ∅;
     Body := None |}.
Local Abbreviation create_request body :=
  {| Method := "POST"; URL := projects_url baseURL;
     ReqHeader := Set_ ∅ "Content-Type" "application/json";
     Body := Some body |}.

(** What an operation makes of the one answer that ends its request. *)
Local Abbreviation verdict decode resp :=
  (if StatusCode resp >=? 400 then
     Returns None
       (Some (OtherErr ("failed to execute request: "
                        +:+ APIError_Error (parseAPIError resp))))
   else if StatusCode resp =? 200 then
     match decode (RespBody resp) with
     | inl value => Returns (Some value) None
     | inr err =>
         Returns None
           (Some (OtherErr ("failed to decode response: " +:+ Error err)))
     end
   else
     Returns None
       (Some (OtherErr ("API request failed with status "
                        +:+ Fmt.Sprintf_d (StatusCode resp))))).

(** X21.  [ListProjects] sends one GET request without body to the
    projects URL when the answer is not a 401 and not a retried status,
    and makes of that answer: for a status of 400 or more, an error
    whose text is the text of the classified API error behind a prefix;
    for a status below 400 other than 200, an error that names the
    status; for 200, the decoded body or the wrapped decoding error. *)
Theorem ListProjects_single_answer (d : DigestAuth) (w : World)
    (resp : Response) :
  0 <= MaxAttempts policy ->
  NewRequest_error "GET" (projects_url baseURL) = None ->
  fst (Do list_request w) = inl resp ->
  StatusCode resp <> 401 ->
  retryable_answer (inl resp) = false ->
  ListProjects (d, (w, []))
  = Some (verdict decodeListProjectsResp resp,
          (d, (snd (Do list_request w), [list_request]))).
Proof.
  intros Hbudget Hnew Hresp H401 Hretry.
  unfold Requests.ListProjects, NewRequest, doRequest. cbv zeta.
  change (method_or_GET "GET") with "GET"%string. rewrite Hnew.
  rewrite (doRequestWithRetry_single float64_to_int64_overflow Do url_Path
             NewRequest_error decodeErrorResponse StatusText random policy c
             Background list_request d w resp Hbudget Hresp H401 Hretry).
  destruct (Z.geb_spec (StatusCode resp) 400) as [Hge | Hlt]; [reflexivity |].
  destruct (Z.eqb_spec (StatusCode resp) 200) as [H200 | Hne]; cbn [negb];
    [| reflexivity].
  destruct (decodeListProjectsResp (RespBody resp)); reflexivity.
Qed.

(** X22.  [CreateProject] with a request that can be marshalled sends
    one POST request with the JSON text as body and the content type
    [application/json], when the answer is not a 401 and not a retried
    status, and makes of that answer what [ListProjects] makes of its
    answer: a status below 400 other than 200, such as 201, is an
    error. *)
Theorem CreateProject_single_answer (r : CreateProjectReq) (body : string)
    (d : DigestAuth) (w : World) (resp : Response) :
  0 <= MaxAttempts policy ->
  Marshal r = inl body ->
  NewRequest_error "POST" (projects_url baseURL) = None ->
  fst (Do (create_request body) w) = inl resp ->
  StatusCode resp <> 401 ->
  retryable_answer (inl resp) = false ->
  CreateProject (Some r) (d, (w, []))
  = Some (verdict decodeCreateProjectResp resp,
          (d, (snd (Do (create_request body) w), [create_request body]))).
Proof.
  intros Hbudget Hbody Hnew Hresp H401 Hretry.
  unfold Requests.CreateProject, NewRequest, doRequest. rewrite Hbody.
  cbv zeta. change (method_or_GET "POST") with "POST"%string. rewrite Hnew.
  cbn [Method URL ReqHeader Body].
  rewrite (doRequestWithRetry_single float64_to_int64_overflow Do url_Path
             NewRequest_error decodeErrorResponse StatusText random policy c
             Background (create_request body) d w resp Hbudget Hresp H401
             Hretry).
  destruct (Z.geb_spec (StatusCode resp) 400) as [Hge | Hlt]; [reflexivity |].
  destruct (Z.eqb_spec (StatusCode resp) 200) as [H200 | Hne]; cbn [negb];
    [| reflexivity].
  destruct (decodeCreateProjectResp (RespBody resp)); reflexivity.
Qed.

(** X23.  Whatever the server does, an operation that returns gives
    either a value and no error, or no value and an error; and the
    error is never an [APIError] value itself, so a type assertion to
    [errors.APIError] on it fails: the API error of a failed request
    arrives as a part of the text of another error. *)
Theorem operations_wrap_errors (r : option CreateProjectReq)
    (st : DigestAuth * (World * list Request)) :
  (forall (v : option ListProjectsResp) err st',
      ListProjects st = Some (Returns v err, st') ->
      (v = None <-> err <> None) /\ forall e, err <> Some (APIErr e))
  /\ (forall (v : option CreateProjectResp) err st',
        CreateProject r st = Some (Returns v err, st') ->
        (v = None <-> err <> None) /\ forall e, err <> Some (APIErr e)).
Proof.
  split.
  - intros v err st'. unfold Requests.ListProjects.
    destruct (NewRequest _ _ _ _) as [req |].
    2:{ intros H. injection H as <- <- <-. split; [| discriminate].
        split; [discriminate | reflexivity]. }
    destruct (doRequest _ _ _ _ _ _ _ _ _ _ _)
      as [[[[resp |] [e |]] st1] |]; try discriminate;
      try (intros H; injection H as <- <- <-; split; [| discriminate];
           split; [discriminate | reflexivity]).
    destruct (negb _).
    { intros H; injection H as <- <- <-; split; [| discriminate];
        split; [discriminate | reflexivity]. }
    destruct (decodeListProjectsResp _); intros H; injection H as <- <- <-;
      (split; [| discriminate]); split; congruence.
  - intros v err st'. unfold Requests.CreateProject.
    destruct r as [r0 |].
    2:{ intros H. injection H as <- <- <-. split; [| discriminate].
        split; [discriminate | reflexivity]. }
    destruct (Marshal r0) as [body |].
    2:{ intros H. injection H as <- <- <-. split; [| discriminate].
        split; [discriminate | reflexivity]. }
    destruct (NewRequest _ _ _ _) as [req |].
    2:{ intros H. injection H as <- <- <-. split; [| discriminate].
        split; [discriminate | reflexivity]. }
    destruct (doRequest _ _ _ _ _ _ _ _ _ _ _)
      as [[[[resp |] [e |]] st1] |]; try discriminate;
      try (intros H; injection H as <- <- <-; split; [| discriminate];
           split; [discriminate | reflexivity]).
    destruct (negb _).
    { intros H; injection H as <- <- <-; split; [| discriminate];
        split; [discriminate | reflexivity]. }
    destruct (decodeCreateProjectResp _); intros H; injection H as <- <- <-;
      (split; [| discriminate]); split; congruence.
Qed.

End ProjectOperations.

(** * The classification of a response *)

Section ClassifiedResponse.
Import Errors HTTP Client.

Variable decodeErrorResponse : string -> option ErrorResponse.
Variable StatusText : Z -> string.

Local Abbreviation parseAPIError :=
  (Client.parseAPIError decodeErrorResponse StatusText).

(** X24.  The error that [parseAPIError] makes of a response keeps the
    status of the response, so it is retried exactly for the statuses
    429, 500, 502, 503 and 504, whatever the body says.  It is a rate
    limit error exactly when the status is 429 and the body was decoded
    with the code 49900007: a 429 whose body cannot be decoded is
    retried but is no rate limit error.  Its details are those of the
    body, followed by the reset time only for a 429 whose
    [X-Ratelimit-Reset] header is a 64-bit integer; a header that is
    absent, empty or not a number is passed over without an error. *)
Theorem parseAPIError_classes (resp : Response) :
  Errors.StatusCode (parseAPIError resp) = StatusCode resp
  /\ (IsRetryable (parseAPIError resp) = true
      <-> StatusCode resp ∈ [429; 500; 502; 503; 504])
  /\ (IsRateLimitError (parseAPIError resp) = true
      <-> StatusCode resp = 429
          /\ exists errorResp,
               decodeErrorResponse (RespBody resp) = Some errorResp
               /\ ErrCode errorResp = Some 49900007)
  /\ Details (parseAPIError resp)
     = match decodeErrorResponse (RespBody resp) with
       | Some errorResp => ErrDetails errorResp
       | None => []
       end
       ++ match (if StatusCode resp =? 429
                 then Strconv.ParseInt_10_64
                        (Get (RespHeader resp) "X-Ratelimit-Reset")
                 else None) with
          | Some resetTime =>
              [AnyMap [("rate_limit_reset"%string, AnyInt64 resetTime)]]
          | None => []
          end.
Proof.
  assert (Hstatus : Errors.StatusCode (parseAPIError resp) = StatusCode resp).
  { unfold Client.parseAPIError.
    destruct (decodeErrorResponse (RespBody resp));
      destruct (StatusCode resp =? StatusTooManyRequests); try reflexivity;
      destruct (negb _); try reflexivity;
      destruct (Strconv.ParseInt_10_64 _); reflexivity. }
  assert (Hcode : Code (parseAPIError resp)
                  = match decodeErrorResponse (RespBody resp) with
                    | Some errorResp => default 0 (ErrCode errorResp)
                    | None => 0
                    end).
  { unfold Client.parseAPIError.
    destruct (decodeErrorResponse (RespBody resp));
      destruct (StatusCode resp =? StatusTooManyRequests); try reflexivity;
      destruct (negb _); try reflexivity;
      destruct (Strconv.ParseInt_10_64 _); reflexivity. }
  split; [exact Hstatus |]. split; [| split].
  - rewrite IsRetryable_statuses, Hstatus. reflexivity.
  - unfold IsRateLimitError, StatusTooManyRequests.
    rewrite andb_true_iff, !Z.eqb_eq, Hstatus, Hcode.
    destruct (decodeErrorResponse (RespBody resp)) as [errorResp |].
    + split.
      * intros [H429 Hc]. split; [exact H429 |]. exists errorResp.
        split; [reflexivity |].
        destruct (ErrCode errorResp) as [code |]; simpl in Hc;
          [congruence | discriminate].
      * intros (H429 & er & Her & Hc). injection Her as <-.
        rewrite Hc. auto.
    + split; [intros [_ Hc]; discriminate |].
      intros (_ & er & Her & _). discriminate.
  - unfold Client.parseAPIError, StatusTooManyRequests.
    destruct (StatusCode resp =? 429).
    2:{ destruct (decodeErrorResponse (RespBody resp)); simpl;
          rewrite ?app_nil_r; reflexivity. }
    destruct (String.eqb_spec (Get (RespHeader resp) "X-Ratelimit-Reset") "")
      as [Hempty | Hpresent]; cbn [negb].
    { rewrite Hempty, ParseInt_empty.
      destruct (decodeErrorResponse (RespBody resp)); simpl;
        rewrite ?app_nil_r; reflexivity. }
    destruct (Strconv.ParseInt_10_64 _);
      destruct (decodeErrorResponse (RespBody resp)); simpl;
      rewrite ?app_nil_r; reflexivity.
Qed.

End ClassifiedResponse.

(** ** The properties above on the data of the tests *)

(** The header for the state of the parser's test is parsed back. *)
Lemma GenerateAuthHeader_parses_back_witness :
  Auth.nonce Examples.test_state <> ""
  /\ Auth.index
       (Auth.parseKeyValuePairs
          (Auth.TrimPrefix
             (Auth.GenerateAuthHeader Examples.test_state "public" "private"
                "GET" "/api/v1beta/projects") "Digest ")) "response"
     = Credential.response Examples.test_state "public" "private" "GET"
         "/api/v1beta/projects".
Proof.
  assert (Hnonce : Auth.nonce Examples.test_state <> "")
    by (vm_compute; discriminate).
  split; [exact Hnonce |].
  refine (proj1 (proj2 (proj2 (proj2 (proj2 (proj2
            (GenerateAuthHeader_parses_back Examples.test_state "public"
               "private" "GET" "/api/v1beta/projects" Hnonce _ _ _ _ _ _ _ _ _)))))));
    first [ simpl; lia | vm_compute; reflexivity ].
Defined.

(** The default policy against a server that answers 404. *)
Lemma doRequestWithRetry_result_witness :
  0 <= Retry.MaxAttempts Retry.NewRetryPolicy
  /\ exists k : nat,
       Z.of_nat k <= Retry.MaxAttempts Retry.NewRetryPolicy
       /\ exists out st',
            Requests.doRequestWithRetry 0 (Servers.always 404)
              Examples.projects_path Examples.accepts_all Servers.no_body
              Servers.no_text Servers.test_random Retry.NewRetryPolicy
              Examples.test_client Retry.Background Examples.list_projects
              (Auth.NewDigestAuth, tt)
            = Some (out, st').
Proof.
  assert (H : 0 <= Retry.MaxAttempts Retry.NewRetryPolicy) by (simpl; lia).
  split; [exact H |].
  destruct (doRequestWithRetry_result 0 (Servers.always 404)
              Examples.projects_path Examples.accepts_all Servers.no_body
              Servers.no_text Servers.test_random Retry.NewRetryPolicy
              Examples.test_client Retry.Background Examples.list_projects
              Auth.NewDigestAuth tt H) as (k & Hk & _ & Hrun).
  exists k. split; [exact Hk |]. do 2 eexists. exact Hrun.
Defined.

(** The default policy against a server that answers 503: four sends. *)
Lemma doRequestWithRetry_persistent_failure_witness :
  (forall r w, Servers.retryable_answer (fst (Servers.always 503 r w)) = true)
  /\ Requests.doRequestWithRetry 0 (Client.recording (Servers.always 503))
       Examples.projects_path Examples.accepts_all Servers.no_body
       Servers.no_text Servers.test_random Retry.NewRetryPolicy
       Examples.test_client Retry.Background Examples.list_projects
       (Auth.NewDigestAuth, (tt, []))
     = Some ((None,
              Some (Errors.APIErr
                      {| Errors.StatusCode := 503; Errors.Code := 0;
                         Errors.Message := ""; Errors.Details := [] |})),
             (Auth.NewDigestAuth,
              (tt, [Examples.list_projects; Examples.list_projects;
                    Examples.list_projects; Examples.list_projects]))).
Proof.
  assert (Hfail : forall r w,
             Servers.retryable_answer (fst (Servers.always 503 r w)) = true)
    by (intros r w; reflexivity).
  split; [exact Hfail |].
  exact (proj1 (doRequestWithRetry_persistent_failure 0 (Servers.always 503)
                  Examples.projects_path Examples.accepts_all Servers.no_body
                  Servers.no_text Servers.test_random Retry.NewRetryPolicy
                  Examples.test_client Examples.list_projects Hfail
                  Retry.Background Auth.NewDigestAuth tt
                  ltac:(simpl; lia) ltac:(intros; reflexivity))).
Defined.

(** The same server, and a context cancelled during the second wait:
    two sends, and the result is no context error. *)
Lemma doRequestWithRetry_cancelled_witness :
  Retry.ctx_Done_first (Servers.cancelled_at 1) 1
    (Retry.CalculateDelay 0 Retry.NewRetryPolicy 2) = true
  /\ Requests.doRequestWithRetry 0 (Client.recording (Servers.always 503))
       Examples.projects_path Examples.accepts_all Servers.no_body
       Servers.no_text Servers.test_random Retry.NewRetryPolicy
       Examples.test_client (Servers.cancelled_at 1) Examples.list_projects
       (Auth.NewDigestAuth, (tt, []))
     = Some ((None,
              Some (Errors.APIErr
                      {| Errors.StatusCode := 503; Errors.Code := 0;
                         Errors.Message := ""; Errors.Details := [] |})),
             (Auth.NewDigestAuth,
              (tt, [Examples.list_projects; Examples.list_projects]))).
Proof.
  split; [reflexivity |].
  exact (proj2 (doRequestWithRetry_cancelled 0 (Servers.always 503)
                  Examples.projects_path Examples.accepts_all Servers.no_body
                  Servers.no_text Servers.test_random Retry.NewRetryPolicy
                  Examples.test_client Examples.list_projects
                  ltac:(intros; reflexivity)
                  (Servers.cancelled_at 1) Auth.NewDigestAuth tt 1%nat
                  ltac:(simpl; lia)
                  ltac:(intros j Hj; assert (j = 0%nat) as -> by lia;
                        reflexivity)
                  eq_refl)).
Defined.

(** A server that answers every request with the challenge. *)
Lemma doRequestWithRetry_bad_credentials_witness :
  Auth.ParseChallenge (Servers.test_random 0) Auth.NewDigestAuth
    (HTTP.Get (HTTP.RespHeader Examples.challenge_401) "WWW-Authenticate")
  = (Examples.handshake_state, None)
  /\ Errors.IsAuthenticationError
       (Client.parseAPIError Servers.no_body Servers.no_text
          Examples.challenge_401) = true.
Proof.
  assert (Hparse : Auth.ParseChallenge (Servers.test_random 0)
                     Auth.NewDigestAuth
                     (HTTP.Get (HTTP.RespHeader Examples.challenge_401)
                        "WWW-Authenticate")
                   = (Examples.handshake_state, None))
    by (vm_compute; reflexivity).
  split; [exact Hparse |].
  refine (proj1 (proj2
            (doRequestWithRetry_bad_credentials 0 Servers.rejects
               Examples.projects_path Examples.accepts_all Servers.no_body
               Servers.no_text Servers.test_random Retry.NewRetryPolicy
               Examples.test_client Retry.Background Examples.list_projects
               Auth.NewDigestAuth Examples.handshake_state tt
               Examples.challenge_401 Examples.challenge_401
               _ eq_refl eq_refl _ Hparse eq_refl eq_refl eq_refl)));
    [simpl; lia | vm_compute; discriminate].
Defined.

(** The server of the client's tests: at most eight sends. *)
Lemma doRequestWithRetry_sends_witness :
  0 <= Retry.MaxAttempts Retry.NewRetryPolicy
  /\ exists out d' w' rest,
       Requests.doRequestWithRetry 0 (Client.recording Examples.digest_server)
         Examples.projects_path Examples.accepts_all Servers.no_body
         Servers.no_text Servers.test_random Retry.NewRetryPolicy
         Examples.test_client Retry.Background Examples.create_project
         (Auth.NewDigestAuth, (tt, []))
       = Some (out, (d', (w', Examples.create_project :: rest)))
       /\ Z.of_nat (length (Examples.create_project :: rest)) <= 8.
Proof.
  assert (H : 0 <= Retry.MaxAttempts Retry.NewRetryPolicy) by (simpl; lia).
  split; [exact H |].
  destruct (doRequestWithRetry_sends 0 Examples.digest_server
              Examples.projects_path Examples.accepts_all Servers.no_body
              Servers.no_text Servers.test_random Retry.NewRetryPolicy
              Examples.test_client Retry.Background Examples.create_project
              Auth.NewDigestAuth tt H)
    as (out & d' & w' & rest & Hrun & Hlen & _).
  exists out, d', w', rest. split; [exact Hrun | exact Hlen].
Defined.

(** [ListProjects] against a server that answers 404. *)
Lemma ListProjects_single_answer_witness :
  Servers.retryable_answer
    (inl {| HTTP.StatusCode := 404; HTTP.RespHeader := ∅; HTTP.RespBody := "" |})
  = false
  /\ Requests.ListProjects 0 (Client.recording (Servers.always 404))
       Examples.projects_path Examples.accepts_all Servers.no_body
       Servers.no_text Servers.test_random Retry.NewRetryPolicy
       Requests.DefaultBaseURL Examples.test_client Servers.raw
       (Auth.NewDigestAuth, (tt, []))
     = Some (Requests.Returns None
               (Some (Errors.OtherErr
                        "failed to execute request: TiDB Cloud API error (404):  (code: 0)")),
             (Auth.NewDigestAuth, (tt, [Examples.list_projects]))).
Proof.
  split; [reflexivity |].
  exact (ListProjects_single_answer 0 (Servers.always 404)
           Examples.projects_path Examples.accepts_all Servers.no_body
           Servers.no_text Servers.test_random Retry.NewRetryPolicy
           Requests.DefaultBaseURL Examples.test_client Servers.raw
           Auth.NewDigestAuth tt
           {| HTTP.StatusCode := 404; HTTP.RespHeader := ∅; HTTP.RespBody := "" |}
           ltac:(simpl; lia) eq_refl eq_refl ltac:(simpl; lia) eq_refl).
Defined.

(** [CreateProject] against a server that answers 201. *)
Lemma CreateProject_single_answer_witness :
  Servers.raw "{}" = inl "{}"%string
  /\ Requests.CreateProject 0 (Client.recording (Servers.always 201))
       Examples.projects_path Examples.accepts_all Servers.no_body
       Servers.no_text Servers.test_random Retry.NewRetryPolicy
       Requests.DefaultBaseURL Examples.test_client Servers.raw Servers.raw
       (Some "{}"%string) (Auth.NewDigestAuth, (tt, []))
     = Some (Requests.Returns None
               (Some (Errors.OtherErr "API request failed with status 201")),
             (Auth.NewDigestAuth, (tt, [Examples.create_project]))).
Proof.
  split; [reflexivity |].
  exact (CreateProject_single_answer 0 (Servers.always 201)
           Examples.projects_path Examples.accepts_all Servers.no_body
           Servers.no_text Servers.test_random Retry.NewRetryPolicy
           Requests.DefaultBaseURL Examples.test_client Servers.raw Servers.raw
           "{}"%string "{}"%string Auth.NewDigestAuth tt
           {| HTTP.StatusCode := 201; HTTP.RespHeader := ∅; HTTP.RespBody := "" |}
           ltac:(simpl; lia) eq_refl eq_refl eq_refl ltac:(simpl; lia) eq_refl).
Defined.

(** The error of [ListProjects] against a server that answers 404 is
    no [APIError] value. *)
Lemma operations_wrap_errors_witness :
  exists err st',
    Requests.ListProjects 0 (Client.recording (Servers.always 404))
      Examples.projects_path Examples.accepts_all Servers.no_body
      Servers.no_text Servers.test_random Retry.NewRetryPolicy
      Requests.DefaultBaseURL Examples.test_client Servers.raw
      (Auth.NewDigestAuth, (tt, []))
    = Some (Requests.Returns None err, st')
    /\ forall e, err <> Some (Errors.APIErr e).
Proof.
  do 2 eexists.
  assert (H : Requests.ListProjects 0 (Client.recording (Servers.always 404))
                Examples.projects_path Examples.accepts_all Servers.no_body
                Servers.no_text Servers.test_random Retry.NewRetryPolicy
                Requests.DefaultBaseURL Examples.test_client Servers.raw
                (Auth.NewDigestAuth, (tt, []))
              = Some (Requests.Returns None
                        (Some (Errors.OtherErr
                                 "failed to execute request: TiDB Cloud API error (404):  (code: 0)")),
                      (Auth.NewDigestAuth, (tt, [Examples.list_projects]))))
    by (vm_compute; reflexivity).
  split; [exact H |].
  exact (proj2 (proj1 (operations_wrap_errors 0 (Servers.always 404)
                  Examples.projects_path Examples.accepts_all Servers.no_body
                  Servers.no_text Servers.test_random Retry.NewRetryPolicy
                  Requests.DefaultBaseURL Examples.test_client Servers.raw
                  Servers.raw Servers.raw None
                  (Auth.NewDigestAuth, (tt, []))) _ _ _ H)).
Defined.

(** A 404 is in a client-error class, and the default policy does not
    retry it at the first attempt. *)
Lemma error_classes_and_retry_witness :
  Errors.IsBadRequestError (Errors.mkAPIError 404 0 "" [])
  || Errors.IsAuthenticationError (Errors.mkAPIError 404 0 "" [])
  || Errors.IsAuthorizationError (Errors.mkAPIError 404 0 "" [])
  || Errors.IsNotFoundError (Errors.mkAPIError 404 0 "" []) = true
  /\ Retry.ShouldRetry Retry.NewRetryPolicy
       (Errors.APIErr (Errors.mkAPIError 404 0 "" [])) 0 = false.
Proof.
  split; [reflexivity |].
  exact (proj2 (proj2 (proj1 (error_classes_and_retry
                                (Errors.mkAPIError 404 0 "" [])
                                Retry.NewRetryPolicy 0) eq_refl))).
Defined.

